(** * Lite chapter reader: chunk planner, eligibility window, batch boundary,
      prefetch scheduler, volume-key bridge and progress store.

    Shallow embedding of
      - src/screens/LiteChapterReaderScreen.tsx
      - src/hooks/useVolumeScroll.ts
      - src/services/storage.ts (saveReadingProgress)

    Numbers.  Page indices, batch boundaries and pixel sizes are JavaScript
    numbers that only ever hold integers here; they are modelled as [Z].
    The two divisions of the chunk planner ([imgHeight / imgWidth] and
    [imgHeight / CHUNK_HEIGHT_PX]) are modelled as exact rationals ([Q]).
    The hardware volume level is a genuine fraction and is modelled with
    Rocq's primitive binary64 floats, which are the IEEE doubles of
    JavaScript. *)

From Stdlib Require Import ZArith QArith Qround Qabs Qminmax Lia Lqa List.
From Stdlib Require Import Floats.
From stdpp Require Import gmap strings list.

Local Open Scope Z_scope.

(* ===================================================================== *)
(** ** JavaScript helpers *)
(* ===================================================================== *)

(** [a / b] on two integer-valued numbers, as an exact rational. *)
Definition js_div (a b : Z) : Q := (inject_Z a / inject_Z b)%Q.

(** [Math.ceil]. *)
Definition Math_ceil (q : Q) : Z := Qceiling q.

(** [Math.max(...xs, 0)]: the spread array followed by the literal [0]. *)
Definition Math_max_with0 (xs : list Z) : Z := foldr Z.max 0 xs.

(** [Math.min(...xs, 0)]. *)
Definition Math_min_with0 (xs : list Z) : Z := foldr Z.min 0 xs.

(* ===================================================================== *)
(** ** Constants of LiteChapterReaderScreen.tsx (lines 40-47) *)
(* ===================================================================== *)

Definition INITIAL_BATCH_SIZE : Z := 5.
Definition LOAD_AHEAD_COUNT : Z := 3.
Definition PRELOAD_AHEAD_COUNT : Z := 5.
Definition TALL_IMAGE_THRESHOLD : Z := 4.
Definition CHUNK_HEIGHT_CM : Z := 5.
Definition PIXELS_PER_CM : Z := 38.
Definition CHUNK_HEIGHT_PX : Z := CHUNK_HEIGHT_CM * PIXELS_PER_CM.

(* ===================================================================== *)
(** ** Chunk planner: [calculateChunks] (lines 254-277) *)
(* ===================================================================== *)

Module Chunks.

Record ChunkData := mkChunk {
  chunkIndex : Z;
  totalChunks : Z;
  startY : Z;
  chunkHeight : Z;
  originalWidth : Z;
  originalHeight : Z
}.

(** The body of the [for] loop: the chunk pushed at iteration [i]. *)
Definition chunk_at (imgWidth imgHeight chunkCount i : Z) : ChunkData :=
  let startY := i * CHUNK_HEIGHT_PX in
  let remainingHeight := imgHeight - startY in
  let chunkHeight := Z.min CHUNK_HEIGHT_PX remainingHeight in
  {| chunkIndex := i;
     totalChunks := chunkCount;
     startY := startY;
     chunkHeight := chunkHeight;
     originalWidth := imgWidth;
     originalHeight := imgHeight |}.

(** [for (let i = 0; i < chunkCount; i++) calculatedChunks.push(...)].
    [fuel] bounds the number of iterations; [calculateChunks] passes
    [chunkCount] itself, which is exactly the number the loop needs
    (lemma [chunk_loop_unfold] below). *)
Fixpoint chunk_loop (fuel : nat) (imgWidth imgHeight chunkCount i : Z)
    (calculatedChunks : list ChunkData) : list ChunkData :=
  match fuel with
  | O => calculatedChunks
  | S fuel' =>
      if i <? chunkCount then
        chunk_loop fuel' imgWidth imgHeight chunkCount (i + 1)
          (calculatedChunks ++ [chunk_at imgWidth imgHeight chunkCount i])
      else calculatedChunks
  end.

Definition calculateChunks (imgWidth imgHeight : Z) : list ChunkData :=
  let aspectRatio := js_div imgHeight imgWidth in
  if Qlt_le_dec aspectRatio (inject_Z TALL_IMAGE_THRESHOLD) then []
  else
    let chunkCount := Math_ceil (js_div imgHeight CHUNK_HEIGHT_PX) in
    chunk_loop (Z.to_nat chunkCount) imgWidth imgHeight chunkCount 0 [].

(** [onLoad] of a page (lines 365-385) classifies the page as tall exactly
    when the planner returned at least one chunk
    ([if (calculatedChunks.length > 0) setIsTallImage(true)]); the state
    starts at [false]. *)
Definition isTallImage_after_load (imgWidth imgHeight : Z) : bool :=
  bool_decide (0 < length (calculateChunks imgWidth imgHeight))%nat.

(** Vocabulary of the chunk invariants. *)

Definition sum_heights (cs : list ChunkData) : Z :=
  foldr (fun c acc => chunkHeight c + acc) 0 cs.

(** The ranges [startY, startY + chunkHeight) tile an interval that starts
    at [y]: every range is non-empty and begins where the previous ended. *)
Fixpoint contiguous_from (y : Z) (cs : list ChunkData) : Prop :=
  match cs with
  | [] => True
  | c :: rest =>
      startY c = y /\ 0 < chunkHeight c /\
      contiguous_from (y + chunkHeight c) rest
  end.

(** Every chunk but the last has the full height; the last has at most
    the full height. *)
Fixpoint full_but_last (cs : list ChunkData) : Prop :=
  match cs with
  | [] => True
  | [c] => chunkHeight c <= CHUNK_HEIGHT_PX
  | c :: rest => chunkHeight c = CHUNK_HEIGHT_PX /\ full_but_last rest
  end.

(** The chunks pushed by [n] consecutive iterations starting at [i], in
    push order. *)
Fixpoint planned (imgWidth imgHeight chunkCount : Z) (n : nat) (i : Z)
    : list ChunkData :=
  match n with
  | O => []
  | S n' =>
      chunk_at imgWidth imgHeight chunkCount i
      :: planned imgWidth imgHeight chunkCount n' (i + 1)
  end.

End Chunks.

(* ===================================================================== *)
(** ** Reading progress record (src/services/storage.ts, lines 23-30) *)
(* ===================================================================== *)

Record ReadingProgress := mkProgress {
  mangaId : string;
  chapterId : string;
  chapterNumber : string;
  page : Z;
  totalPages : Z;
  updatedAt : Z
}.

(* ===================================================================== *)
(** ** The reader screen: state, handlers and effects *)
(* ===================================================================== *)

Module Reader.

(** [ViewToken] of the host list: [index] is [number | null]. *)
Record ViewToken := mkToken {
  isViewable : bool;
  index : option Z
}.

(** One call of [Image.prefetch(urls, "memory-disk")].  The host receives
    the urls only; the index each url was read from, and for calls made by
    [preloadImages] the argument [currentMax], are recorded next to it so
    that statements about indices can be made. *)
Inductive prefetch_origin :=
| InitialPrefetch
| PreloadAhead (currentMax : Z).

Record prefetch_call := mkCall {
  pf_origin : prefetch_origin;
  pf_items : list (Z * string)
}.

(** Component state ([useState]), refs ([useRef]), pending timers, and the
    observable calls made on the host ([flatListRef.scrollToIndex],
    [Image.prefetch]).  [visibleVersion] is the identity of the [Set]
    object held in [visibleIndices]: every [setVisibleIndices(new Set ...)]
    installs a fresh object, which is what the dependency array of the
    visibility effect compares.  [restoreDeps] and [visibilityDeps] are the
    dependency values the two effects last ran with. *)
Record state := mkState {
  allPageUrls : list string;
  loading : bool;
  initialScrollDone : bool;
  visibleIndices : gset Z;
  visibleVersion : nat;
  loadedBatchEnd : Z;
  currentPage : Z;
  savedStartPageRef : Z;
  preloadedRef : gset Z;
  restoreDeps : bool * nat * bool;
  visibilityDeps : nat * nat;
  pendingRestore : nat;
  pendingRetry : list Z;
  scrollLog : list Z;
  prefetchLog : list prefetch_call
}.

(** [allPageUrls.length] *)
Definition pageCount (s : state) : Z := Z.of_nat (length (allPageUrls s)).

(** [allPageUrls[i]] for an index inside the array. *)
Definition url_at (urls : list string) (i : Z) : string :=
  default EmptyString (urls !! Z.to_nat i).

(** *** State setters *)

Definition setAllPageUrls (v : list string) (s : state) : state :=
  mkState v (loading s) (initialScrollDone s) (visibleIndices s)
    (visibleVersion s) (loadedBatchEnd s) (currentPage s)
    (savedStartPageRef s) (preloadedRef s) (restoreDeps s)
    (visibilityDeps s) (pendingRestore s) (pendingRetry s) (scrollLog s)
    (prefetchLog s).

Definition setLoading (v : bool) (s : state) : state :=
  mkState (allPageUrls s) v (initialScrollDone s) (visibleIndices s)
    (visibleVersion s) (loadedBatchEnd s) (currentPage s)
    (savedStartPageRef s) (preloadedRef s) (restoreDeps s)
    (visibilityDeps s) (pendingRestore s) (pendingRetry s) (scrollLog s)
    (prefetchLog s).

Definition setInitialScrollDone (v : bool) (s : state) : state :=
  mkState (allPageUrls s) (loading s) v (visibleIndices s)
    (visibleVersion s) (loadedBatchEnd s) (currentPage s)
    (savedStartPageRef s) (preloadedRef s) (restoreDeps s)
    (visibilityDeps s) (pendingRestore s) (pendingRetry s) (scrollLog s)
    (prefetchLog s).

Definition setVisibleIndices (v : gset Z) (s : state) : state :=
  mkState (allPageUrls s) (loading s) (initialScrollDone s) v
    (S (visibleVersion s)) (loadedBatchEnd s) (currentPage s)
    (savedStartPageRef s) (preloadedRef s) (restoreDeps s)
    (visibilityDeps s) (pendingRestore s) (pendingRetry s) (scrollLog s)
    (prefetchLog s).

Definition setLoadedBatchEnd (v : Z) (s : state) : state :=
  mkState (allPageUrls s) (loading s) (initialScrollDone s)
    (visibleIndices s) (visibleVersion s) v (currentPage s)
    (savedStartPageRef s) (preloadedRef s) (restoreDeps s)
    (visibilityDeps s) (pendingRestore s) (pendingRetry s) (scrollLog s)
    (prefetchLog s).

Definition setCurrentPage (v : Z) (s : state) : state :=
  mkState (allPageUrls s) (loading s) (initialScrollDone s)
    (visibleIndices s) (visibleVersion s) (loadedBatchEnd s) v
    (savedStartPageRef s) (preloadedRef s) (restoreDeps s)
    (visibilityDeps s) (pendingRestore s) (pendingRetry s) (scrollLog s)
    (prefetchLog s).

Definition setSavedStartPageRef (v : Z) (s : state) : state :=
  mkState (allPageUrls s) (loading s) (initialScrollDone s)
    (visibleIndices s) (visibleVersion s) (loadedBatchEnd s)
    (currentPage s) v (preloadedRef s) (restoreDeps s)
    (visibilityDeps s) (pendingRestore s) (pendingRetry s) (scrollLog s)
    (prefetchLog s).

Definition setPreloadedRef (v : gset Z) (s : state) : state :=
  mkState (allPageUrls s) (loading s) (initialScrollDone s)
    (visibleIndices s) (visibleVersion s) (loadedBatchEnd s)
    (currentPage s) (savedStartPageRef s) v (restoreDeps s)
    (visibilityDeps s) (pendingRestore s) (pendingRetry s) (scrollLog s)
    (prefetchLog s).

Definition setRestoreDeps (v : bool * nat * bool) (s : state) : state :=
  mkState (allPageUrls s) (loading s) (initialScrollDone s)
    (visibleIndices s) (visibleVersion s) (loadedBatchEnd s)
    (currentPage s) (savedStartPageRef s) (preloadedRef s) v
    (visibilityDeps s) (pendingRestore s) (pendingRetry s) (scrollLog s)
    (prefetchLog s).

Definition setVisibilityDeps (v : nat * nat) (s : state) : state :=
  mkState (allPageUrls s) (loading s) (initialScrollDone s)
    (visibleIndices s) (visibleVersion s) (loadedBatchEnd s)
    (currentPage s) (savedStartPageRef s) (preloadedRef s) (restoreDeps s)
    v (pendingRestore s) (pendingRetry s) (scrollLog s) (prefetchLog s).

Definition setPendingRestore (v : nat) (s : state) : state :=
  mkState (allPageUrls s) (loading s) (initialScrollDone s)
    (visibleIndices s) (visibleVersion s) (loadedBatchEnd s)
    (currentPage s) (savedStartPageRef s) (preloadedRef s) (restoreDeps s)
    (visibilityDeps s) v (pendingRetry s) (scrollLog s) (prefetchLog s).

Definition setPendingRetry (v : list Z) (s : state) : state :=
  mkState (allPageUrls s) (loading s) (initialScrollDone s)
    (visibleIndices s) (visibleVersion s) (loadedBatchEnd s)
    (currentPage s) (savedStartPageRef s) (preloadedRef s) (restoreDeps s)
    (visibilityDeps s) (pendingRestore s) v (scrollLog s) (prefetchLog s).

(** [flatListRef.current?.scrollToIndex({ index, animated: false })] *)
Definition scrollToIndex (i : Z) (s : state) : state :=
  mkState (allPageUrls s) (loading s) (initialScrollDone s)
    (visibleIndices s) (visibleVersion s) (loadedBatchEnd s)
    (currentPage s) (savedStartPageRef s) (preloadedRef s) (restoreDeps s)
    (visibilityDeps s) (pendingRestore s) (pendingRetry s)
    (scrollLog s ++ [i]) (prefetchLog s).

(** [Image.prefetch(urls, "memory-disk")] *)
Definition Image_prefetch (c : prefetch_call) (s : state) : state :=
  mkState (allPageUrls s) (loading s) (initialScrollDone s)
    (visibleIndices s) (visibleVersion s) (loadedBatchEnd s)
    (currentPage s) (savedStartPageRef s) (preloadedRef s) (restoreDeps s)
    (visibilityDeps s) (pendingRestore s) (pendingRetry s) (scrollLog s)
    (prefetchLog s ++ [c]).

(** *** [shouldLoadPage] (lines 699-707) *)

Definition shouldLoadPage (visibleIndices : gset Z) (loadedBatchEnd : Z)
    (index : Z) : bool :=
  if index <? loadedBatchEnd then true
  else
    let visibleArray := elements visibleIndices in
    let maxVisible := Math_max_with0 visibleArray in
    let minVisible := Math_min_with0 visibleArray in
    (minVisible - 2 <=? index) && (index <=? maxVisible + LOAD_AHEAD_COUNT).

(** *** [preloadImages] (lines 510-523) *)

(** [for (let i = currentMax + 1;
          i <= currentMax + PRELOAD_AHEAD_COUNT && i < allPageUrls.length;
          i++)].
    Returns [toPreload] and the updated [preloadedRef.current]. *)
Fixpoint preload_loop (fuel : nat) (urls : list string) (currentMax i : Z)
    (toPreload : list (Z * string)) (preloaded : gset Z)
    : list (Z * string) * gset Z :=
  match fuel with
  | O => (toPreload, preloaded)
  | S fuel' =>
      if (i <=? currentMax + PRELOAD_AHEAD_COUNT)
         && (i <? Z.of_nat (length urls)) then
        if decide (i ∈ preloaded) then
          preload_loop fuel' urls currentMax (i + 1) toPreload preloaded
        else
          preload_loop fuel' urls currentMax (i + 1)
            (toPreload ++ [(i, url_at urls i)]) ({[ i ]} ∪ preloaded)
      else (toPreload, preloaded)
  end.

(** The loop variable runs over at most [PRELOAD_AHEAD_COUNT] values, so
    that many iterations always reach the exit test (lemma
    [preload_loop_fuel_enough]). *)
Definition preloadImages (currentMax : Z) (s : state) : state :=
  let '(toPreload, preloaded) :=
    preload_loop (Z.to_nat PRELOAD_AHEAD_COUNT) (allPageUrls s) currentMax
      (currentMax + 1) [] (preloadedRef s) in
  let s1 := setPreloadedRef preloaded s in
  if bool_decide (0 < length toPreload)%nat then
    Image_prefetch (mkCall (PreloadAhead currentMax) toPreload) s1
  else s1.

(** *** Visibility effect (lines 492-508) *)

Definition visibility_effect (s : state) : state :=
  if pageCount s =? 0 then s
  else
    let currentVisible := elements (visibleIndices s) in
    let maxVisible := Math_max_with0 currentVisible in
    let newBatchEnd :=
      Z.min (pageCount s)
            (Z.max (loadedBatchEnd s) (maxVisible + LOAD_AHEAD_COUNT + 1)) in
    let s1 :=
      if loadedBatchEnd s <? newBatchEnd then setLoadedBatchEnd newBatchEnd s
      else s in
    preloadImages maxVisible s1.

(** *** Initial scroll restore (lines 477-490) *)

(** The effect body: arms a 100 ms timer when its guard holds. *)
Definition restore_effect (s : state) : state :=
  if negb (loading s) && (0 <? pageCount s) && negb (initialScrollDone s)
     && (0 <? savedStartPageRef s)
  then setPendingRestore (S (pendingRestore s)) s
  else s.

(** [new Set(l)] *)
Definition Set_of (l : list Z) : gset Z := list_to_set l.

(** The timer callback. *)
Definition restore_timeout (s : state) : state :=
  let s1 := scrollToIndex (savedStartPageRef s) s in
  let s2 := setInitialScrollDone true s1 in
  let startIndex := savedStartPageRef s2 in
  let s3 :=
    setVisibleIndices
      (Set_of (filter (fun i => 0 <= i)
                      [startIndex - 1; startIndex; startIndex + 1])) s2 in
  setLoadedBatchEnd
    (Z.max INITIAL_BATCH_SIZE (startIndex + LOAD_AHEAD_COUNT + 1)) s3.

(** *** [loadChapter] (lines 525-588), one function per synchronous
    stretch between two [await]s. *)

(** Lines 527-531. *)
Definition loadChapter_start (isRefresh : bool) (s : state) : state :=
  let s1 := if isRefresh then s else setLoading true s in
  setPreloadedRef ∅ s1.

(** [pageUrls.slice(0, Math.min(3, pageUrls.length))], with indices. *)
Definition first_pages (pageUrls : list string) : list (Z * string) :=
  imap (fun i u => (Z.of_nat i, u))
       (take (Z.to_nat (Z.min 3 (Z.of_nat (length pageUrls)))) pageUrls).

(** Lines 542-580, given what the three awaited reads and the page source
    produced: the saved progress of this manga (if any) and the page urls
    (empty when the source failed).  [routeChapterId] is the [chapterId]
    route parameter. *)
Definition loadChapter_resolved (routeChapterId : string)
    (savedProgress : option ReadingProgress) (pageUrls : list string)
    (s : state) : state :=
  let s1 :=
    match savedProgress with
    | Some p =>
        if String.eqb (chapterId p) routeChapterId
        then setSavedStartPageRef (page p) s
        else setSavedStartPageRef 0 s
    | None => setSavedStartPageRef 0 s
    end in
  let count := Z.of_nat (length pageUrls) in
  if 0 <? count then
    let s2 := setAllPageUrls pageUrls s1 in
    let startPage := savedStartPageRef s2 in
    let initialBatch :=
      Z.max INITIAL_BATCH_SIZE (startPage + LOAD_AHEAD_COUNT + 1) in
    let s3 := setLoadedBatchEnd (Z.min count initialBatch) s2 in
    let s4 := setCurrentPage startPage s3 in
    let s5 :=
      setVisibleIndices
        (Set_of (filter (fun i => 0 <= i /\ i < count)
                        [startPage - 1; startPage; startPage + 1])) s4 in
    let s6 := setInitialScrollDone false s5 in
    Image_prefetch (mkCall InitialPrefetch (first_pages pageUrls)) s6
  else setAllPageUrls [] s1.

(** The [catch] branch (lines 581-583). *)
Definition loadChapter_failed (s : state) : state := setAllPageUrls [] s.

(** The [finally] branch (lines 584-587). *)
Definition loadChapter_finally (s : state) : state := setLoading false s.

(** *** [onViewableItemsChanged] (lines 614-637) *)

Definition viewable_indices (viewableItems : list ViewToken) : list Z :=
  omap (fun item => if isViewable item then index item else None)
       viewableItems.

Definition onViewableItemsChanged (viewableItems : list ViewToken)
    (s : state) : state :=
  let visible := Set_of (viewable_indices viewableItems) in
  if bool_decide (0 < size visible)%nat then
    let s1 := setVisibleIndices visible s in
    let viewableIndices := viewable_indices viewableItems in
    match viewableIndices !! (length viewableIndices / 2)%nat with
    | Some centerIndex => setCurrentPage centerIndex s1
    | None => s1
    end
  else s.

(** *** [onEndReached] (lines 758-762) *)

Definition onEndReached (s : state) : state :=
  if loadedBatchEnd s <? pageCount s then
    setLoadedBatchEnd
      (Z.min (pageCount s) (loadedBatchEnd s + LOAD_AHEAD_COUNT)) s
  else s.

(** *** [onScrollToIndexFailed] (lines 749-756): arms a 500 ms retry. *)

Definition onScrollToIndexFailed (info_index : Z) (s : state) : state :=
  setPendingRetry (pendingRetry s ++ [info_index]) s.

Definition retry_timeout (s : state) : state :=
  match pendingRetry s with
  | [] => s
  | i :: rest => scrollToIndex i (setPendingRetry rest s)
  end.

(** *** Rendering: effects run when their dependency arrays changed *)

(** [[loading, allPageUrls.length, initialScrollDone]] *)
Definition restore_deps_now (s : state) : bool * nat * bool :=
  (loading s, length (allPageUrls s), initialScrollDone s).

(** [[visibleIndices, allPageUrls.length]] *)
Definition visibility_deps_now (s : state) : nat * nat :=
  (visibleVersion s, length (allPageUrls s)).

(** One commit.  Both effects read the state of the render they belong to;
    the restore effect only arms a timer, so running it first (declaration
    order) does not change what the visibility effect reads. *)
Definition run_effects (s : state) : state :=
  let s1 :=
    if decide (restore_deps_now s = restoreDeps s) then s
    else restore_effect (setRestoreDeps (restore_deps_now s) s) in
  if decide (visibility_deps_now s1 = visibilityDeps s1) then s1
  else visibility_effect (setVisibilityDeps (visibility_deps_now s1) s1).

(** *** Events delivered to the component *)

Inductive event :=
| LoadStart (isRefresh : bool)
| LoadResolved (savedProgress : option ReadingProgress)
               (pageUrls : list string)
| LoadFailed
| LoadFinally
| ViewableItemsChanged (viewableItems : list ViewToken)
| EndReached
| RestoreTimerFires
| ScrollToIndexFailed (info_index : Z)
| RetryTimerFires.

Definition handle (routeChapterId : string) (e : event) (s : state)
    : state :=
  match e with
  | LoadStart isRefresh => loadChapter_start isRefresh s
  | LoadResolved saved urls => loadChapter_resolved routeChapterId saved urls s
  | LoadFailed => loadChapter_failed s
  | LoadFinally => loadChapter_finally s
  | ViewableItemsChanged items => onViewableItemsChanged items s
  | EndReached => onEndReached s
  | RestoreTimerFires =>
      match pendingRestore s with
      | O => s
      | S n => restore_timeout (setPendingRestore n s)
      end
  | ScrollToIndexFailed i => onScrollToIndexFailed i s
  | RetryTimerFires => retry_timeout s
  end.

(** A handler runs to completion, then the component re-renders and the
    effects whose dependencies changed run. *)
Definition step (routeChapterId : string) (s : state) (e : event) : state :=
  run_effects (handle routeChapterId e s).

Definition run (routeChapterId : string) (es : list event) (s : state)
    : state :=
  foldl (step routeChapterId) s es.

(** The component right after mounting: the [useState]/[useRef] initial
    values (lines 416-433); the first commit has run every effect once
    (the restore guard fails on [loading], the visibility effect returns
    on the empty url list) and [loadChapter] has executed up to its first
    [await]. *)
Definition mounted : state :=
  loadChapter_start false
    {| allPageUrls := [];
       loading := true;
       initialScrollDone := false;
       visibleIndices := Set_of [0; 1; 2];
       visibleVersion := 0;
       loadedBatchEnd := INITIAL_BATCH_SIZE;
       currentPage := 0;
       savedStartPageRef := 0;
       preloadedRef := ∅;
       restoreDeps := (true, 0%nat, false);
       visibilityDeps := (0%nat, 0%nat);
       pendingRestore := 0;
       pendingRetry := [];
       scrollLog := [];
       prefetchLog := [] |}.

(** *** Vocabulary of the claims *)

(** The eligibility rule in the words of the specification: the window
    bounds are the minimum and the maximum of the visible set itself. *)
Definition set_min (s : gset Z) : option Z :=
  match elements s with
  | [] => None
  | x :: xs => Some (foldr Z.min x xs)
  end.

Definition set_max (s : gset Z) : option Z :=
  match elements s with
  | [] => None
  | x :: xs => Some (foldr Z.max x xs)
  end.

Definition eligible_spec (visible : gset Z) (loadedBatchBoundary i : Z)
    : option bool :=
  match set_min visible, set_max visible with
  | Some minVisible, Some maxVisible =>
      Some ((i <? loadedBatchBoundary)
            || ((minVisible - 2 <=? i) && (i <=? maxVisible + 3)))
  | _, _ => None
  end.

(** Indices requested from the host over the session. *)
Definition call_indices (c : prefetch_call) : list Z := (pf_items c).*1.

Definition prefetched_indices (s : state) : list Z :=
  concat (map call_indices (prefetchLog s)).

Definition is_preload (c : prefetch_call) : bool :=
  match pf_origin c with PreloadAhead _ => true | InitialPrefetch => false end.

(** Indices requested by [preloadImages] alone. *)
Definition preload_indices (log : list prefetch_call) : list Z :=
  concat (map call_indices (filter (fun c => is_preload c = true) log)).

(** A call made by [preloadImages(currentMax)] stays inside
    [(currentMax, currentMax + PRELOAD_AHEAD_COUNT]] and inside [urls]. *)
Definition call_in_window (urls : list string) (c : prefetch_call) : Prop :=
  match pf_origin c with
  | InitialPrefetch => True
  | PreloadAhead currentMax =>
      Forall (fun '(i, u) =>
                currentMax < i <= currentMax + PRELOAD_AHEAD_COUNT /\
                0 <= i < Z.of_nat (length urls) /\
                urls !! Z.to_nat i = Some u)
             (pf_items c)
  end.

(** [Math.max(...Array.from(visibleIndices), 0)] (line 496): what the
    visibility effect passes to [preloadImages]. *)
Definition max_visible (s : state) : Z :=
  Math_max_with0 (elements (visibleIndices s)).

(** A call issued by the scheduler at a commit whose largest visible
    index is [maxVisible]: [Image.prefetch] is given a non-empty list of
    urls, each read from an index of [urls] inside
    [(maxVisible, maxVisible + PRELOAD_AHEAD_COUNT]]. *)
Definition scheduled_at (maxVisible : Z) (urls : list string)
    (c : prefetch_call) : Prop :=
  pf_origin c = PreloadAhead maxVisible /\
  pf_items c <> [] /\
  Forall (fun '(i, u) =>
            maxVisible < i <= maxVisible + PRELOAD_AHEAD_COUNT /\
            0 <= i < Z.of_nat (length urls) /\
            urls !! Z.to_nat i = Some u)
         (pf_items c).

(** The initial prefetch of a load: one call for a non-empty page list,
    none otherwise, asking for the first [min(3, N)] sources. *)
Definition initial_prefetch (urls : list string)
    (calls : list prefetch_call) : Prop :=
  let N := Z.of_nat (length urls) in
  (N = 0 -> calls = []) /\
  (0 < N ->
   exists items,
     calls = [mkCall InitialPrefetch items] /\
     items.*1 = seqZ 0 (Z.min 3 N) /\
     Forall (fun '(i, u) => urls !! Z.to_nat i = Some u) items).

(** Events that belong to a running session: everything but the three
    stages of a (re)load that replace the page list or clear the seen-set. *)
Definition session_event (e : event) : Prop :=
  match e with
  | LoadStart _ | LoadResolved _ _ | LoadFailed => False
  | _ => True
  end.

(** Events after which no further [scrollToIndex] is expected: the session
    events other than a reported scroll failure. *)
Definition quiet_event (e : event) : Prop :=
  match e with
  | LoadStart _ | LoadResolved _ _ | LoadFailed | ScrollToIndexFailed _ =>
      False
  | _ => True
  end.

(** *** Invariants used in the proofs *)

(** Fields a handler or effect leaves alone. *)
Record untouched (s s' : state) : Prop := {
  same_urls : allPageUrls s' = allPageUrls s;
  same_done : initialScrollDone s' = initialScrollDone s;
  same_saved : savedStartPageRef s' = savedStartPageRef s;
  same_retry : pendingRetry s' = pendingRetry s;
  same_scroll : scrollLog s' = scrollLog s
}.



(** What the log and the seen-set have in common over a session. *)
Record prefetch_inv (urls : list string) (s : state) : Prop := {
  inv_window : Forall (call_in_window urls) (prefetchLog s);
  inv_nodup : NoDup (preload_indices (prefetchLog s));
  inv_seen : forall i, i ∈ preload_indices (prefetchLog s) ->
                       i ∈ preloadedRef s
}.

(** Neither the page list, nor the seen-set, nor the log is written. *)
Record log_untouched (s s' : state) : Prop := {
  log_urls : allPageUrls s' = allPageUrls s;
  log_seen : preloadedRef s' = preloadedRef s;
  log_calls : prefetchLog s' = prefetchLog s
}.

(** The scenario of the specification: a chapter of twenty pages, and a
    saved position at index 12 of it. *)
Definition twenty_pages : list string := replicate 20 "page"%string.

Definition progress_at_12 : ReadingProgress :=
  mkProgress "manga" "chapter" "1" 12 20 0.

End Reader.

(* ===================================================================== *)
(** ** Volume-key bridge: [handleVolumeChange]
       (src/hooks/useVolumeScroll.ts, lines 20-54) *)
(* ===================================================================== *)

Module VolumeScroll.

(** What one invocation asks of its collaborators, in call order:
    [onScrollUp()], [onScrollDown()],
    [VolumeManager.setVolume(v, { showUI: false })]. *)
Inductive command :=
| ScrollUp
| ScrollDown
| SetVolume (v : float).

(** [lastVolumeRef] ([number | null]) and [isHandlingRef]. *)
Record refs := mkRefs {
  lastVolumeRef : option float;
  isHandlingRef : bool
}.

(** The literal [0.001] as the binary64 value it denotes. *)
Definition NOISE_THRESHOLD : float := 0x1.0624dd2f1a9fcp-10%float.

(** The synchronous part of the handler, up to and including the call of
    [setVolume]; a failure of that call is caught and ignored, and the
    100 ms timer armed afterwards is [handling_timeout]. *)
Definition handleVolumeChange (enabled : bool) (newVolume : float)
    (r : refs) : refs * list command :=
  if negb enabled || isHandlingRef r then (r, [])
  else
    let lastVolume := lastVolumeRef r in
    let unchanged :=
      ({| lastVolumeRef := Some newVolume;
          isHandlingRef := isHandlingRef r |}, []) in
    match lastVolume with
    | Some lastVolume =>
        let volumeDiff := (newVolume - lastVolume)%float in
        if (NOISE_THRESHOLD <? PrimFloat.abs volumeDiff)%float then
          ({| lastVolumeRef := lastVolumeRef r; isHandlingRef := true |},
           [ if (0 <? volumeDiff)%float then ScrollDown else ScrollUp;
             SetVolume lastVolume ])
        else unchanged
    | None => unchanged
    end.

(** [setTimeout(() => { isHandlingRef.current = false; }, 100)] *)
Definition handling_timeout (r : refs) : refs :=
  {| lastVolumeRef := lastVolumeRef r; isHandlingRef := false |}.

Definition is_scroll (c : command) : bool :=
  match c with ScrollUp | ScrollDown => true | SetVolume _ => false end.

(** The literals [0.50] and [0.45] as binary64 values, and a level half a
    thousandth (2^-11) above 0.50. *)
Definition vol_0_50 : float := 0x1p-1%float.
Definition vol_0_45 : float := 0x1.ccccccccccccdp-2%float.
Definition vol_0_50_jitter : float := 0x1.002p-1%float.

End VolumeScroll.

(* ===================================================================== *)
(** ** Progress store: [saveReadingProgress]
       (src/services/storage.ts, lines 139-158) *)
(* ===================================================================== *)

Module Storage.

Definition KEYS_READING_PROGRESS : string := "@mangareader_progress".

(** What [JSON.parse] may hand back for the progress key: [null], some
    other non-object (number, string, boolean), or a record of progress
    entries ([Record<string, ReadingProgress>]). *)
Inductive jsvalue :=
| JNull
| JPrimitive
| JRecord (entries : gmap string ReadingProgress).

Section SaveReadingProgress.

(** The outside world (the key-value store, the clock, the console) and
    the values thrown by the collaborators are left abstract: the
    statements below hold for every behaviour of them. *)
Context {World exn : Type}.

(** A computation either throws or returns, and changes the world. *)
Definition io (A : Type) : Type := World -> (exn + A) * World.

Definition ret {A} (a : A) : io A := fun w => (inr a, w).

Definition throw {A} (e : exn) : io A := fun w => (inl e, w).

Definition bind {A B} (m : io A) (k : A -> io B) : io B :=
  fun w =>
    match m w with
    | (inl e, w') => (inl e, w')
    | (inr a, w') => k a w'
    end.

(** [try { body } catch (error) { handler(error) }] *)
Definition try_catch {A} (body : io A) (handler : exn -> io A) : io A :=
  fun w =>
    match body w with
    | (inl e, w') => handler e w'
    | (inr a, w') => (inr a, w')
    end.

Variable AsyncStorage_getItem : string -> io (option string).
Variable AsyncStorage_setItem : string -> string -> io unit.
Variable JSON_parse : string -> exn + jsvalue.
Variable JSON_stringify : jsvalue -> string.
Variable Date_now : World -> Z * World.
Variable console_error : string -> exn -> World -> World.
Variable TypeError : exn.

(** [allProgress[key] = value]: a [TypeError] on [null] and, in module
    (strict) code, on any other non-object. *)
Definition assign_entry (allProgress : jsvalue) (key : string)
    (value : ReadingProgress) : io jsvalue :=
  match allProgress with
  | JRecord entries => ret (JRecord (<[ key := value ]> entries))
  | JNull | JPrimitive => throw TypeError
  end.

(** [data ? JSON.parse(data) : {}]: [null] and the empty string are
    falsy. *)
Definition parse_or_empty (data : option string) : io jsvalue :=
  match data with
  | Some text =>
      if String.eqb text EmptyString then ret (JRecord ∅)
      else match JSON_parse text with
           | inl e => throw e
           | inr v => ret v
           end
  | None => ret (JRecord ∅)
  end.

(** [{ ...progress, updatedAt: Date.now() }] *)
Definition stamped (progress : ReadingProgress) : io ReadingProgress :=
  fun w =>
    let '(now, w') := Date_now w in
    (inr (mkProgress (mangaId progress) (chapterId progress)
                     (chapterNumber progress) (page progress)
                     (totalPages progress) now), w').

(** The [try] block (lines 141-154). *)
Definition save_body (progress : ReadingProgress) : io unit :=
  bind (AsyncStorage_getItem KEYS_READING_PROGRESS) (fun data =>
  bind (parse_or_empty data) (fun allProgress =>
  bind (stamped progress) (fun entry =>
  bind (assign_entry allProgress (mangaId progress) entry)
       (fun allProgress' =>
  AsyncStorage_setItem KEYS_READING_PROGRESS
                       (JSON_stringify allProgress'))))).

(** The [catch] block (lines 155-157): log and fall through. *)
Definition save_handler (error : exn) : io unit :=
  fun w =>
    (inr tt, console_error "Failed to save reading progress:" error w).

Definition saveReadingProgress (progress : ReadingProgress) : io unit :=
  try_catch (save_body progress) save_handler.

End SaveReadingProgress.

(** A concrete world for running the store: the key-value contents, the
    clock and the console lines, with a store whose writes fail. *)
Record world := mkWorld {
  items : gmap string string;
  clock : Z;
  console : list string
}.

Definition failing_setItem (_ _ : string) : @io world string unit :=
  fun w => (inl "QuotaExceeded"%string, w).

Definition mem_getItem (k : string) : @io world string (option string) :=
  fun w => (inr (items w !! k), w).

Definition no_parse (_ : string) : string + jsvalue :=
  inl "SyntaxError"%string.

Definition tick (w : world) : Z * world :=
  (clock w, mkWorld (items w) (clock w + 1) (console w)).

Definition log_error (msg : string) (e : string) (w : world) : world :=
  mkWorld (items w) (clock w) (console w ++ [msg; e]).

Definition render_any (_ : jsvalue) : string := "{...}".

Definition fresh_world : world := mkWorld ∅ 1000 [].

Definition some_progress : ReadingProgress :=
  mkProgress "manga" "chapter" "1" 12 20 0.

End Storage.

(* ===================================================================== *)
(** ** The reader screen, continued: what a page item is told, and the
       phases of a session *)
(* ===================================================================== *)

Module Session.
Import Reader.

(** [renderPage] (lines 717-736): the two flags handed to a page item. *)
Definition renderPage_flags (visibleIndices : gset Z) (loadedBatchEnd : Z)
    (index : Z) : bool * bool :=
  let isVisible := bool_decide (index ∈ visibleIndices) in
  let shouldLoad := shouldLoadPage visibleIndices loadedBatchEnd index in
  (isVisible, shouldLoad).

(** [const actuallyLoad = shouldLoad || isVisible] (line 251). *)
Definition actuallyLoad (shouldLoad isVisible : bool) : bool :=
  shouldLoad || isVisible.

(** The guard of the restore effect (line 478). *)
Definition restore_guard (s : state) : bool :=
  negb (loading s) && (0 <? pageCount s) && negb (initialScrollDone s)
  && (0 <? savedStartPageRef s).

(** Fields that neither the visibility effect nor the viewability and
    end-of-list handlers write. *)
Record control_untouched (s s' : state) : Prop := {
  ctl_urls : allPageUrls s' = allPageUrls s;
  ctl_loading : loading s' = loading s;
  ctl_done : initialScrollDone s' = initialScrollDone s;
  ctl_saved : savedStartPageRef s' = savedStartPageRef s;
  ctl_timer : pendingRestore s' = pendingRestore s;
  ctl_retry : pendingRetry s' = pendingRetry s;
  ctl_scroll : scrollLog s' = scrollLog s;
  ctl_deps : restoreDeps s' = restoreDeps s
}.

(** Loaded with a saved page, restore timer armed, nothing scrolled yet. *)
Record armed (saved : Z) (s : state) : Prop := {
  armed_loading : loading s = false;
  armed_done : initialScrollDone s = false;
  armed_saved : savedStartPageRef s = saved;
  armed_timer : pendingRestore s = 1%nat;
  armed_retry : pendingRetry s = [];
  armed_scroll : scrollLog s = [];
  armed_deps : restoreDeps s = restore_deps_now s
}.

(** The saved page has been scrolled to; no timer is left. *)
Record scrolled_to (saved : Z) (s : state) : Prop := {
  scrolled_done : initialScrollDone s = true;
  scrolled_timer : pendingRestore s = 0%nat;
  scrolled_retry : pendingRetry s = [];
  scrolled_log : scrollLog s = [saved]
}.

(** Loaded without a saved page: no timer, no scroll command, and the
    boundary between the initial batch and the page count. *)
Record unsaved (s : state) : Prop := {
  unsaved_saved : savedStartPageRef s = 0;
  unsaved_timer : pendingRestore s = 0%nat;
  unsaved_retry : pendingRetry s = [];
  unsaved_scroll : scrollLog s = [];
  unsaved_upper : loadedBatchEnd s <= pageCount s;
  unsaved_lower : Z.min (pageCount s) INITIAL_BATCH_SIZE <= loadedBatchEnd s
}.

(** A session whose page list is empty. *)
Record idle (s : state) : Prop := {
  idle_urls : allPageUrls s = [];
  idle_timer : pendingRestore s = 0%nat;
  idle_retry : pendingRetry s = [];
  idle_scroll : scrollLog s = [];
  idle_prefetch : prefetchLog s = [];
  idle_batch : loadedBatchEnd s = INITIAL_BATCH_SIZE
}.

(** Whether the restore timer is among the events. *)
Definition is_restore_timer (e : event) : bool :=
  match e with RestoreTimerFires => true | _ => false end.

End Session.

(* ===================================================================== *)
(** ** Geometry: fit modes, chunk layout, page offsets, scroll tracking
       (LiteChapterReaderScreen.tsx).  Image sizes reported by the decoder
       are integers.  Pixel quantities, which the code computes in
       binary64, are exact rationals here; what is stated about them
       below is what rounding to nearest keeps as well: equalities
       between the results of one and the same computation, sums of
       integers, and order relations. *)
(* ===================================================================== *)

Module Geometry.
Import Chunks.

Local Open Scope Q_scope.

(** [a < b] and [a >= b] on numbers. *)
Definition Q_ltb (a b : Q) : bool := if Qlt_le_dec a b then true else false.

Definition Q_geb (a b : Q) : bool := if Qlt_le_dec a b then false else true.

Inductive ImageFitMode := contain | cover | none.

(** [cycleFitMode] (lines 689-697). *)
Definition cycleFitMode (prev : ImageFitMode) : ImageFitMode :=
  match prev with
  | contain => cover
  | cover => none
  | none => contain
  end.

Section Screen.

(** [Dimensions.get("window")] (line 39). *)
Variables SCREEN_WIDTH SCREEN_HEIGHT : Q.

(** [getContainerHeight] (lines 51-60). *)
Definition getContainerHeight (imgWidth imgHeight : Z)
    (fitMode : ImageFitMode) : Q :=
  match fitMode with
  | contain => (SCREEN_WIDTH / inject_Z imgWidth) * inject_Z imgHeight
  | cover => SCREEN_HEIGHT * (9 # 10)
  | none => inject_Z imgHeight
  end.

(** [fitMode === 'none' ? 1 : SCREEN_WIDTH / width] (lines 96, 280, 375). *)
Definition chunk_scale (fitMode : ImageFitMode) (originalWidth : Z) : Q :=
  match fitMode with
  | none => 1
  | _ => SCREEN_WIDTH / inject_Z originalWidth
  end.

(** What [onLoad] of a page item reports through [onImageLoad]
    (lines 365-385): nothing when the decoder reports a zero width or
    height, otherwise the height, the tall flag and the chunks. *)
Record load_report := mkReport {
  report_height : Q;
  report_tall : bool;
  report_chunks : list ChunkData
}.

Definition page_onLoad (fitMode : ImageFitMode) (width imgHeight : Z)
    : option load_report :=
  if (width =? 0)%Z || (imgHeight =? 0)%Z then None
  else
    let calculatedChunks := calculateChunks width imgHeight in
    if bool_decide (0 < length calculatedChunks)%nat then
      let scale := chunk_scale fitMode width in
      let totalHeight := inject_Z imgHeight * scale in
      Some (mkReport totalHeight true calculatedChunks)
    else
      let newHeight := getContainerHeight width imgHeight fitMode in
      Some (mkReport newHeight false []).

(** The [chunks.map] of a tall page (lines 279-303): each chunk with the
    [chunkOffsetY] it is given; [cumulativeChunkOffset] is threaded
    through the callback. *)
Fixpoint place_chunks (pageOffsetY scale cumulativeChunkOffset : Q)
    (chunks : list ChunkData) : list (ChunkData * Q) :=
  match chunks with
  | [] => []
  | chunk :: rest =>
      let chunkOffsetY := pageOffsetY + cumulativeChunkOffset in
      (chunk, chunkOffsetY)
      :: place_chunks pageOffsetY scale
           (cumulativeChunkOffset + inject_Z (chunkHeight chunk) * scale)
           rest
  end.

(** The value of [cumulativeChunkOffset] after the [map]. *)
Fixpoint cumulative_after (scale cumulativeChunkOffset : Q)
    (chunks : list ChunkData) : Q :=
  match chunks with
  | [] => cumulativeChunkOffset
  | chunk :: rest =>
      cumulative_after scale
        (cumulativeChunkOffset + inject_Z (chunkHeight chunk) * scale) rest
  end.

(** *** [TallImageChunk] (lines 90-223) *)

Record chunk_props := mkChunkProps {
  cp_uri : string;
  cp_chunk : ChunkData;
  cp_pageIndex : Z;
  cp_chunkOffsetY : Q;
  cp_scrollOffset : Q;
  cp_fitMode : ImageFitMode
}.

Definition scaledChunkHeight (p : chunk_props) : Q :=
  inject_Z (chunkHeight (cp_chunk p))
  * chunk_scale (cp_fitMode p) (originalWidth (cp_chunk p)).

Definition chunkTop (p : chunk_props) : Q := cp_chunkOffsetY p.

Definition chunkBottom (p : chunk_props) : Q :=
  cp_chunkOffsetY p + scaledChunkHeight p.

Definition viewportTop (p : chunk_props) : Q :=
  cp_scrollOffset p - SCREEN_HEIGHT.

Definition viewportBottom (p : chunk_props) : Q :=
  cp_scrollOffset p + SCREEN_HEIGHT * 2.

(** Lines 105-106. *)
Definition isChunkVisible (p : chunk_props) : bool :=
  Q_ltb (viewportTop p) (chunkBottom p)
  && Q_ltb (chunkTop p) (viewportBottom p).

Definition shouldLoadChunk (p : chunk_props) : bool :=
  Q_ltb (viewportTop p - SCREEN_HEIGHT) (chunkBottom p)
  && Q_ltb (chunkTop p) (viewportBottom p + SCREEN_HEIGHT).

(** *** Page offsets (lines 431, 610-612, 709-715, 738-745) *)

(** [pageHeightsRef.current.get(i) || SCREEN_WIDTH * 1.4]: a missing entry
    and a stored [0] both fall back to the estimate. *)
Definition height_or_estimate (pageHeights : gmap Z Q) (i : Z) : Q :=
  match pageHeights !! i with
  | Some h => if Qeq_bool h 0 then SCREEN_WIDTH * (14 # 10) else h
  | None => SCREEN_WIDTH * (14 # 10)
  end.

(** [for (let i = 0; i < index; i++) offset += ...], started at [i] with
    the running [offset]. *)
Fixpoint offset_loop (fuel : nat) (pageHeights : gmap Z Q) (index i : Z)
    (offset : Q) : Q :=
  match fuel with
  | O => offset
  | S fuel' =>
      if (i <? index)%Z then
        offset_loop fuel' pageHeights index (i + 1)%Z
          (offset + height_or_estimate pageHeights i)
      else offset
  end.

Definition getPageOffsetY (pageHeights : gmap Z Q) (index : Z) : Q :=
  offset_loop (Z.to_nat index) pageHeights index 0 0.

Record item_layout := mkLayout {
  layout_length : Q;
  layout_offset : Q;
  layout_index : Z
}.

Definition getItemLayout (pageHeights : gmap Z Q) (index : Z)
    : item_layout :=
  let height := height_or_estimate pageHeights index in
  let offset := offset_loop (Z.to_nat index) pageHeights index 0 0 in
  mkLayout height offset index.

(** [handleImageLoad] (lines 610-612). *)
Definition handleImageLoad (index : Z) (height : Q)
    (pageHeights : gmap Z Q) : gmap Z Q :=
  <[ index := height ]> pageHeights.

(** *** Scroll tracking: [handleScroll] (lines 644-661) *)

Record scroll_state := mkScroll {
  currentScrollOffsetRef : Q;
  lastScrollOffsetRef : Q;
  scrollOffset : Q;
  showHeader : bool
}.

Definition SCROLL_UPDATE_THRESHOLD : Q := 100.

Definition handleScroll (offsetY : Q) (s : scroll_state) : scroll_state :=
  let moved :=
    Q_geb (Qabs (offsetY - lastScrollOffsetRef s)) SCROLL_UPDATE_THRESHOLD in
  mkScroll offsetY
    (if moved then offsetY else lastScrollOffsetRef s)
    (if moved then offsetY else scrollOffset s)
    (if Q_ltb 50 offsetY
     then (if showHeader s then false else showHeader s)
     else (if negb (showHeader s) then true else showHeader s)).

(** [toggleHeader] (lines 669-671). *)
Definition toggleHeader (s : scroll_state) : scroll_state :=
  mkScroll (currentScrollOffsetRef s) (lastScrollOffsetRef s)
    (scrollOffset s) (negb (showHeader s)).

(** The refs and state before the first scroll event (lines 420, 425, 430,
    644). *)
Definition scroll_initial : scroll_state := mkScroll 0 0 0 true.

(** What reaches these two handlers: a scroll sample or a press. *)
Inductive scroll_event :=
| Scrolled (offsetY : Q)
| Pressed.

Definition scroll_step (s : scroll_state) (e : scroll_event)
    : scroll_state :=
  match e with
  | Scrolled offsetY => handleScroll offsetY s
  | Pressed => toggleHeader s
  end.

(** What the chunk windows read: the state lags the ref by less than the
    update threshold, and the two copies of the last offset agree. *)
Definition scroll_tracked (s : scroll_state) : Prop :=
  lastScrollOffsetRef s == scrollOffset s /\
  Qabs (currentScrollOffsetRef s - scrollOffset s) < SCROLL_UPDATE_THRESHOLD.

End Screen.

(** *** Volume-key scroll distance (lines 444-461; the same formula is
    [getScrollAmount] of useVolumeScroll.ts, lines 82-87) *)

Definition calculateScrollAmount (sensitivity : Q) : Q :=
  let minAmount := 100 in
  let maxAmount := 400 in
  let normalizedSensitivity := Qmax 10 (Qmin 100 sensitivity) in
  minAmount + ((normalizedSensitivity - 10) / 90) * (maxAmount - minAmount).

Definition getScrollAmount (sensitivity : Q) : Q :=
  let minAmount := 100 in
  let maxAmount := 400 in
  let normalizedSensitivity := Qmax 10 (Qmin 100 sensitivity) in
  minAmount + ((normalizedSensitivity - 10) / 90) * (maxAmount - minAmount).

(** The offset handed to [scrollToOffset] by [handleVolumeScrollUp] and
    [handleVolumeScrollDown]. *)
Definition handleVolumeScrollUp (volumeScrollSensitivity current : Q) : Q :=
  let scrollAmount := calculateScrollAmount volumeScrollSensitivity in
  Qmax 0 (current - scrollAmount).

Definition handleVolumeScrollDown (volumeScrollSensitivity current : Q) : Q :=
  let scrollAmount := calculateScrollAmount volumeScrollSensitivity in
  current + scrollAmount.

End Geometry.

(* ===================================================================== *)
(** ** Volume-key bridge, continued: the listener and its life cycle
       (src/hooks/useVolumeScroll.ts, lines 56-80) *)
(* ===================================================================== *)

Module VolumeSession.
Import VolumeScroll.

(** The local variable [subscription] of one run of the effect body that
    passed the guard [if (!enabled) return] (lines 56-80), and what
    became of it. *)
Inductive subscription :=
| Awaiting    (* [getVolume()] has not settled yet: [subscription] is null *)
| Listening   (* [addVolumeListener] returned: the listener is installed *)
| Removed     (* the cleanup called [subscription.remove()] *)
| Abandoned.  (* the [try] block threw: nothing was installed *)

(** The hook between two events: the two refs, the runs of the effect
    (oldest first), whether the cleanup of the latest run is still to be
    called, the 100 ms timers armed and not yet fired, and the commands
    issued so far. *)
Record hook := mkHook {
  hook_refs : refs;
  effects : list subscription;
  cleanup_pending : bool;
  handling_timers : nat;
  issued : list command
}.

Definition is_listening (e : subscription) : bool :=
  match e with Listening => true | _ => false end.

(** The cleanup returned by a run (lines 75-79):
    [if (subscription) subscription.remove()]. *)
Definition cleanup_of (e : subscription) : subscription :=
  match e with Listening => Removed | other => other end.

(** A commit at which [enabled] or [handleVolumeChange] changed: the
    cleanup of the previous run is called, if that run returned one, and
    the effect body runs again; with [enabled] false the body returns at
    its guard and returns no cleanup.  Unmounting is the case [false]. *)
Definition commit (enabled : bool) (h : hook) : hook :=
  let effects1 :=
    if cleanup_pending h
    then alter cleanup_of (pred (length (effects h))) (effects h)
    else effects h in
  if enabled
  then mkHook (hook_refs h) (effects1 ++ [Awaiting]) true
         (handling_timers h) (issued h)
  else mkHook (hook_refs h) effects1 false (handling_timers h) (issued h).

(** [getVolume()] of run [k] resolves (lines 63-68): the level is
    remembered and the listener installed, whether or not the cleanup of
    that run has been called in the meantime. *)
Definition volume_read (k : nat) (volume : float) (h : hook) : hook :=
  match effects h !! k with
  | Some Awaiting =>
      mkHook {| lastVolumeRef := Some volume;
                isHandlingRef := isHandlingRef (hook_refs h) |}
        (<[ k := Listening ]> (effects h)) (cleanup_pending h)
        (handling_timers h) (issued h)
  | _ => h
  end.

(** [getVolume()] of run [k] rejects: the [catch] block (lines 69-70)
    swallows the error. *)
Definition volume_read_failed (k : nat) (h : hook) : hook :=
  match effects h !! k with
  | Some Awaiting =>
      mkHook (hook_refs h) (<[ k := Abandoned ]> (effects h))
        (cleanup_pending h) (handling_timers h) (issued h)
  | _ => h
  end.

(** [getVolume()] of run [k] resolves and [addVolumeListener] throws:
    the level has been remembered, no listener is installed. *)
Definition listener_refused (k : nat) (volume : float) (h : hook) : hook :=
  match effects h !! k with
  | Some Awaiting =>
      mkHook {| lastVolumeRef := Some volume;
                isHandlingRef := isHandlingRef (hook_refs h) |}
        (<[ k := Abandoned ]> (effects h)) (cleanup_pending h)
        (handling_timers h) (issued h)
  | _ => h
  end.

(** A level reported by the system reaches every installed listener in
    turn.  A listener is the closure of a render that passed the guard,
    so it calls [handleVolumeChange] with [enabled] true; an invocation
    that issues commands arms one timer. *)
Fixpoint deliver (installed : list subscription) (volume : float) (r : refs)
    : refs * list command * nat :=
  match installed with
  | [] => (r, [], 0%nat)
  | e :: rest =>
      let '(r1, c1) :=
        if is_listening e then handleVolumeChange true volume r
        else (r, []) in
      let '(r2, c2, n2) := deliver rest volume r1 in
      (r2, c1 ++ c2, ((if bool_decide (c1 = []) then 0 else 1) + n2)%nat)
  end.

Definition volume_reported (volume : float) (h : hook) : hook :=
  let '(r, commands, armed) := deliver (effects h) volume (hook_refs h) in
  mkHook r (effects h) (cleanup_pending h) (handling_timers h + armed)
    (issued h ++ commands).

Definition handling_timer_fires (h : hook) : hook :=
  match handling_timers h with
  | O => h
  | S n =>
      mkHook (handling_timeout (hook_refs h)) (effects h)
        (cleanup_pending h) n (issued h)
  end.

Inductive hook_event :=
| Commit (enabled : bool)
| VolumeRead (k : nat) (volume : float)
| VolumeReadFailed (k : nat)
| ListenerRefused (k : nat) (volume : float)
| VolumeReported (volume : float)
| HandlingTimerFires.

Definition hook_step (h : hook) (e : hook_event) : hook :=
  match e with
  | Commit enabled => commit enabled h
  | VolumeRead k volume => volume_read k volume h
  | VolumeReadFailed k => volume_read_failed k h
  | ListenerRefused k volume => listener_refused k volume h
  | VolumeReported volume => volume_reported volume h
  | HandlingTimerFires => handling_timer_fires h
  end.

Definition hook_run (es : list hook_event) (h : hook) : hook :=
  foldl hook_step h es.

(** The hook before its first commit (lines 17-18). *)
Definition hook_initial : hook :=
  mkHook {| lastVolumeRef := None; isHandlingRef := false |} [] false 0 [].

(** No listener is installed and none can still be: every run of the
    effect has removed its listener or never got one. *)
Definition silent (h : hook) : Prop :=
  Forall (fun e => e = Removed \/ e = Abandoned) (effects h).

(** Events that do not run the effect body again with [enabled] true. *)
Definition keeps_disabled (e : hook_event) : Prop :=
  match e with Commit true => False | _ => True end.

(** Run [k] holds an installed listener that no cleanup will reach: its
    own cleanup has been called already, or a later run exists. *)
Definition leaked (k : nat) (h : hook) : Prop :=
  effects h !! k = Some Listening /\
  (cleanup_pending h = true -> (S k < length (effects h))%nat).

End VolumeSession.

(* ===================================================================== *)
(** ** Local store, continued (src/services/storage.ts, lines 54-222) *)
(* ===================================================================== *)

Module Store.
Import Storage.

(** [Manga] (services/mangadex). *)
Inductive MangaType := Manga_ | Manhwa | Manhua.

Record Manga := mkManga {
  id : string;
  title : string;
  description : string;
  status : string;
  year : option Z;
  type : MangaType;
  tags : list string;
  author : string;
  coverUrl : option string
}.

(** [BookmarkedManga extends Manga] (lines 12-14). *)
Record BookmarkedManga := mkBookmark {
  bm_manga : Manga;
  bookmarkedAt : Z
}.

(** [ReadingHistoryItem] (lines 16-21). *)
Record ReadingHistoryItem := mkHistoryItem {
  manga : Manga;
  lastReadAt : Z;
  lastChapterId : string;
  lastChapterNumber : string
}.

(** [AppSettings] (lines 32-41) and [Partial<AppSettings>]. *)
Inductive ReadingMode := vertical | horizontal.
Inductive ReaderType := standard | lite | html.
Inductive Theme := light | dark | auto.

Record AppSettings := mkSettings {
  readingMode : ReadingMode;
  readerType : ReaderType;
  theme : Theme;
  dataSaver : bool;
  chapterLanguages : list string;
  adultMode : bool;
  volumeScrollEnabled : bool;
  volumeScrollSensitivity : Z
}.

Record PartialSettings := mkPartial {
  p_readingMode : option ReadingMode;
  p_readerType : option ReaderType;
  p_theme : option Theme;
  p_dataSaver : option bool;
  p_chapterLanguages : option (list string);
  p_adultMode : option bool;
  p_volumeScrollEnabled : option bool;
  p_volumeScrollSensitivity : option Z
}.

(** Lines 43-52. *)
Definition defaultSettings : AppSettings :=
  {| readingMode := vertical;
     readerType := lite;
     theme := auto;
     dataSaver := true;
     chapterLanguages := ["en"; "ja"]%string;
     adultMode := false;
     volumeScrollEnabled := true;
     volumeScrollSensitivity := 50 |}.

(** [{ ...base, ...over }]: the keys present in [over] win. *)
Definition spread (base : AppSettings) (over : PartialSettings)
    : AppSettings :=
  {| readingMode := default (readingMode base) (p_readingMode over);
     readerType := default (readerType base) (p_readerType over);
     theme := default (theme base) (p_theme over);
     dataSaver := default (dataSaver base) (p_dataSaver over);
     chapterLanguages :=
       default (chapterLanguages base) (p_chapterLanguages over);
     adultMode := default (adultMode base) (p_adultMode over);
     volumeScrollEnabled :=
       default (volumeScrollEnabled base) (p_volumeScrollEnabled over);
     volumeScrollSensitivity :=
       default (volumeScrollSensitivity base)
               (p_volumeScrollSensitivity over) |}.

(** A settings object seen as the partial object with every key set: what
    a faithful [JSON.parse] returns for its serialisation. *)
Definition all_keys (a : AppSettings) : PartialSettings :=
  {| p_readingMode := Some (readingMode a);
     p_readerType := Some (readerType a);
     p_theme := Some (theme a);
     p_dataSaver := Some (dataSaver a);
     p_chapterLanguages := Some (chapterLanguages a);
     p_adultMode := Some (adultMode a);
     p_volumeScrollEnabled := Some (volumeScrollEnabled a);
     p_volumeScrollSensitivity := Some (volumeScrollSensitivity a) |}.

Definition KEYS_BOOKMARKS : string := "@mangareader_bookmarks".
Definition KEYS_READING_HISTORY : string := "@mangareader_history".
Definition KEYS_RECENT_SEARCHES : string := "@mangareader_searches".
Definition KEYS_SETTINGS : string := "@mangareader_settings".

(** [`@mangareader_read_${mangaId}`] *)
Definition read_chapters_key (mangaId : string) : string :=
  String.append "@mangareader_read_" mangaId.

(** *** The list transformations inside the writers *)

(** [addToHistory], lines 105-118: drop the manga's old entry, put the
    new one first, keep at most 50. *)
Definition history_with (history : list ReadingHistoryItem)
    (historyItem : ReadingHistoryItem) : list ReadingHistoryItem :=
  let history :=
    filter (fun h => id (manga h) <> id (manga historyItem)) history in
  let history := historyItem :: history in
  if (50 <? length history)%nat then take 50 history else history.

(** The ids of the stored bookmarks, in order. *)
Definition bookmark_ids (bookmarks : list BookmarkedManga) : list string :=
  (fun b => id (bm_manga b)) <$> bookmarks.

(** Two manga and a partial settings object to run the store on. *)
Definition manga_one : Manga :=
  mkManga "m1" "One" "d" "ongoing" None Manhwa [] "a" None.

Definition manga_two : Manga :=
  mkManga "m2" "Two" "d" "completed" (Some 2020) Manhua [] "b" None.

Definition only_volume_off : PartialSettings :=
  mkPartial None None None None None None (Some false) None.

(** Sixty manga with pairwise distinct ids, and a history holding one
    entry for each: more than the cap of [addToHistory]. *)
Definition manga_numbered (n : nat) : Manga :=
  mkManga (String (Ascii.ascii_of_nat (48 + n)) EmptyString) "t" "d"
    "ongoing" None Manhwa [] "a" None.

Definition long_history : list ReadingHistoryItem :=
  (fun n => mkHistoryItem (manga_numbered n) (Z.of_nat n) "c1" "1")
    <$> seq 0 60.

(** [toLowerCase] on the letters A to Z. *)
Definition ascii_lower (c : Ascii.ascii) : Ascii.ascii :=
  let n := Ascii.nat_of_ascii c in
  if ((65 <=? n) && (n <=? 90))%nat then Ascii.ascii_of_nat (n + 32) else c.

Fixpoint lower (s : string) : string :=
  match s with
  | EmptyString => EmptyString
  | String c rest => String (ascii_lower c) (lower rest)
  end.

(** Eleven recent searches, one of them the query of the example in
    another case: one more than the cap of [addRecentSearch]. *)
Definition long_searches : list string :=
  ["one piece"; "bleach"; "Naruto"; "a"; "b"; "c"; "d"; "e"; "f"; "g";
   "h"]%string.

Section Ops.

Context {World exn : Type}.

Variable AsyncStorage_getItem : string -> @io World exn (option string).
Variable AsyncStorage_setItem : string -> string -> @io World exn unit.
Variable AsyncStorage_removeItem : string -> @io World exn unit.
Variable Date_now : World -> Z * World.
Variable TypeError : exn.

(** [JSON.parse] and [JSON.stringify] at the types the store declares for
    each key; a parse either throws or yields a value of that type. *)
Variable parse_progress : string -> exn + jsvalue.
Variable parse_strings : string -> exn + list string.
Variable stringify_strings : list string -> string.
Variable parse_bookmarks : string -> exn + list BookmarkedManga.
Variable stringify_bookmarks : list BookmarkedManga -> string.
Variable parse_history : string -> exn + list ReadingHistoryItem.
Variable stringify_history : list ReadingHistoryItem -> string.
Variable parse_settings : string -> exn + PartialSettings.
Variable stringify_settings : AppSettings -> string.

(** [String.prototype.toLowerCase] *)
Variable toLowerCase : string -> string.

(** [data ? use(JSON.parse(data)) : fallback] *)
Definition parsed_or {A B} (parse : string -> exn + A) (use : A -> B)
    (fallback : B) (data : option string) : @io World exn B :=
  match data with
  | Some text =>
      if String.eqb text EmptyString then ret fallback
      else match parse text with
           | inl e => throw e
           | inr v => ret (use v)
           end
  | None => ret fallback
  end.

(** The shape shared by the readers:
    [try { const data = await getItem(key);
           return data ? JSON.parse(data) : fallback; }
     catch { return fallback; }] *)
Definition read_json {A B} (parse : string -> exn + A) (use : A -> B)
    (fallback : B) (key : string) : @io World exn B :=
  try_catch
    (bind (AsyncStorage_getItem key) (parsed_or parse use fallback))
    (fun _ => ret fallback).

Definition now : @io World exn Z :=
  fun w => let '(t, w') := Date_now w in (inr t, w').

(** [allProgress[mangaId] || null], for a [mangaId] that names no member
    a value inherits from its prototype and no property of a stored
    string (manga ids are UUIDs): on a record the entry stored under the
    key, if any; on another non-null value nothing; on [null] a
    [TypeError]. *)
Definition read_entry (allProgress : jsvalue) (key : string)
    : @io World exn (option ReadingProgress) :=
  match allProgress with
  | JRecord entries => ret (entries !! key)
  | JPrimitive => ret None
  | JNull => throw TypeError
  end.

(** Lines 127-137. *)
Definition getReadingProgress (mangaId : string)
    : @io World exn (option ReadingProgress) :=
  try_catch
    (bind (AsyncStorage_getItem KEYS_READING_PROGRESS) (fun data =>
     bind (parse_or_empty parse_progress data) (fun allProgress =>
     read_entry allProgress mangaId)))
    (fun _ => ret None).

(** Lines 160-168. *)
Definition getReadChapters (mangaId : string) : @io World exn (list string) :=
  read_json parse_strings (fun l => l) [] (read_chapters_key mangaId).

(** Lines 170-178. *)
Definition markChapterAsRead (mangaId chapterId : string)
    : @io World exn unit :=
  let key := read_chapters_key mangaId in
  bind (getReadChapters mangaId) (fun readChapters =>
    if bool_decide (chapterId ∈ readChapters) then ret tt
    else AsyncStorage_setItem key
           (stringify_strings (readChapters ++ [chapterId]))).

(** Lines 55-62. *)
Definition getBookmarks : @io World exn (list BookmarkedManga) :=
  read_json parse_bookmarks (fun l => l) [] KEYS_BOOKMARKS.

(** [bookmarks.some((b) => b.id === mangaId)] *)
Definition has_bookmark (bookmarks : list BookmarkedManga)
    (mangaId : string) : bool :=
  existsb (fun b => String.eqb (id (bm_manga b)) mangaId) bookmarks.

(** Lines 64-76. *)
Definition addBookmark (manga : Manga) : @io World exn unit :=
  bind getBookmarks (fun bookmarks =>
    let exists_ := has_bookmark bookmarks (id manga) in
    if negb exists_ then
      bind now (fun t =>
        let bookmarkedManga := mkBookmark manga t in
        AsyncStorage_setItem KEYS_BOOKMARKS
          (stringify_bookmarks (bookmarkedManga :: bookmarks)))
    else ret tt).

(** Lines 78-82. *)
Definition removeBookmark (mangaId : string) : @io World exn unit :=
  bind getBookmarks (fun bookmarks =>
    let filtered :=
      filter (fun b => id (bm_manga b) <> mangaId) bookmarks in
    AsyncStorage_setItem KEYS_BOOKMARKS (stringify_bookmarks filtered)).

(** Lines 84-87. *)
Definition isBookmarked (mangaId : string) : @io World exn bool :=
  bind getBookmarks (fun bookmarks => ret (has_bookmark bookmarks mangaId)).

(** Lines 89-96. *)
Definition getReadingHistory : @io World exn (list ReadingHistoryItem) :=
  read_json parse_history (fun l => l) [] KEYS_READING_HISTORY.

(** Lines 98-121. *)
Definition addToHistory (manga : Manga) (chapterId chapterNumber : string)
    : @io World exn unit :=
  bind getReadingHistory (fun history =>
  bind now (fun t =>
    let historyItem := mkHistoryItem manga t chapterId chapterNumber in
    AsyncStorage_setItem KEYS_READING_HISTORY
      (stringify_history (history_with history historyItem)))).

(** Lines 123-125. *)
Definition clearHistory : @io World exn unit :=
  AsyncStorage_removeItem KEYS_READING_HISTORY.

(** [getLastRead]: [history.length > 0 ? history[0] : null]. *)
Definition getLastRead : @io World exn (option ReadingHistoryItem) :=
  bind getReadingHistory (fun history => ret (head history)).

(** Lines 180-187. *)
Definition getRecentSearches : @io World exn (list string) :=
  read_json parse_strings (fun l => l) [] KEYS_RECENT_SEARCHES.

(** [addRecentSearch], lines 190-196: drop the entries equal to the query
    up to case, put the query first, keep at most 10. *)
Definition searches_with (searches : list string) (query : string)
    : list string :=
  let searches :=
    filter (fun s => toLowerCase s <> toLowerCase query) searches in
  let searches := query :: searches in
  if (10 <? length searches)%nat then take 10 searches else searches.

(** Lines 189-199. *)
Definition addRecentSearch (query : string) : @io World exn unit :=
  bind getRecentSearches (fun searches =>
    AsyncStorage_setItem KEYS_RECENT_SEARCHES
      (stringify_strings (searches_with searches query))).

(** [getSettings]:
    [data ? { ...defaultSettings, ...JSON.parse(data) } : defaultSettings],
    and [defaultSettings] when anything throws. *)
Definition getSettings : @io World exn AppSettings :=
  read_json parse_settings (spread defaultSettings) defaultSettings
    KEYS_SETTINGS.

(** [saveSettings]. *)
Definition saveSettings (settings : PartialSettings) : @io World exn unit :=
  bind getSettings (fun current =>
    let updated := spread current settings in
    AsyncStorage_setItem KEYS_SETTINGS (stringify_settings updated)).

End Ops.

(** *** A store that keeps what is written, on the concrete world *)

Definition mem_setItem (k v : string) : @io world string unit :=
  fun w => (inr tt, mkWorld (<[ k := v ]> (items w)) (clock w) (console w)).

Definition mem_removeItem (k : string) : @io world string unit :=
  fun w => (inr tt, mkWorld (delete k (items w)) (clock w) (console w)).

(** What a reader returns on the store that keeps what is written. *)
Definition read_back {A B} (parse : string -> string + A) (use : A -> B)
    (fallback : B) (key : string) (w : world) : B :=
  match items w !! key with
  | Some text =>
      if String.eqb text EmptyString then fallback
      else match parse text with
           | inr v => use v
           | inl _ => fallback
           end
  | None => fallback
  end.

(** What the progress key holds, read the way the store reads it. *)
Definition stored_progress (parse : string -> string + jsvalue) (w : world)
    : option (gmap string ReadingProgress) :=
  match items w !! KEYS_READING_PROGRESS with
  | None => Some ∅
  | Some text =>
      if String.eqb text EmptyString then Some ∅
      else match parse text with
           | inr (JRecord entries) => Some entries
           | _ => None
           end
  end.

(** [{ ...progress, updatedAt: t }] *)
Definition stamped_at (t : Z) (progress : ReadingProgress)
    : ReadingProgress :=
  mkProgress (mangaId progress) (chapterId progress)
    (chapterNumber progress) (page progress) (totalPages progress) t.

(** A codec that knows one value: enough to run a writer and read its
    result back. *)
Definition one_text : string := "{json}".

Definition say_one {A} (_ : A) : string := one_text.

Definition parse_one {A} (a : A) (text : string) : string + A :=
  if String.eqb text one_text then inr a else inl "SyntaxError"%string.

End Store.

(* ===================================================================== *)
(** * Properties *)
(* ===================================================================== *)

(** Expose the numeric constants to [lia]. *)
Ltac reader_consts :=
  change CHUNK_HEIGHT_PX with 190 in *;
  change TALL_IMAGE_THRESHOLD with 4 in *;
  change INITIAL_BATCH_SIZE with 5 in *;
  change LOAD_AHEAD_COUNT with 3 in *;
  change PRELOAD_AHEAD_COUNT with 5 in *.

(** A list of known length, as that many named elements. *)
Ltac explode_list urls :=
  repeat (destruct urls as [|? urls]; [discriminate|]);
  destruct urls; [|discriminate].

(** ** Arithmetic of the helpers *)

Lemma Math_max_with0_nonneg (l : list Z) : 0 <= Math_max_with0 l.
Proof. induction l as [|x l IH]; simpl; lia. Qed.


Lemma js_div_lt_iff (h t : Z) (w : positive) :
  (js_div h (Z.pos w) < inject_Z t)%Q <-> h < t * Z.pos w.
Proof.
  unfold js_div, Qdiv, Qlt, Qmult, Qinv, inject_Z; simpl.
  rewrite ?Pos.mul_1_l, ?Z.mul_1_r. reflexivity.
Qed.

Lemma js_div_ge_iff (h t : Z) (w : positive) :
  (inject_Z t <= js_div h (Z.pos w))%Q <-> t * Z.pos w <= h.
Proof.
  unfold js_div, Qdiv, Qle, Qmult, Qinv, inject_Z; simpl.
  rewrite ?Pos.mul_1_l, ?Z.mul_1_r. reflexivity.
Qed.

Lemma js_div_eq_iff (h t : Z) (w : positive) :
  (js_div h (Z.pos w) == inject_Z t)%Q <-> h = t * Z.pos w.
Proof.
  unfold js_div, Qdiv, Qeq, Qmult, Qinv, inject_Z; simpl.
  rewrite ?Pos.mul_1_l, ?Z.mul_1_r. reflexivity.
Qed.

(** [Math.ceil(h / d)] is the least multiple count of [d] covering [h]. *)
Lemma Math_ceil_js_div (h : Z) (d : positive) :
  Z.pos d * (Math_ceil (js_div h (Z.pos d)) - 1) < h
  <= Z.pos d * Math_ceil (js_div h (Z.pos d)).
Proof.
  unfold Math_ceil, Qceiling, Qfloor, js_div, Qdiv, Qmult, Qinv, Qopp,
    inject_Z; simpl.
  rewrite ?Pos.mul_1_l, ?Z.mul_1_r.
  pose proof (Z.div_mod (- h) (Z.pos d) ltac:(lia)) as Hdm.
  pose proof (Z.mod_pos_bound (- h) (Z.pos d) ltac:(lia)) as Hb.
  lia.
Qed.

(* ===================================================================== *)
(** ** Chunk planner *)
(* ===================================================================== *)

Module ChunkFacts.
Import Chunks.

Section Plan.
Variables imgWidth imgHeight chunkCount : Z.

Local Abbreviation planned := (planned imgWidth imgHeight chunkCount).

(** With [chunkCount - i] iterations left and as much fuel, the loop
    leaves through its exit test having pushed all of them. *)
Lemma chunk_loop_unfold (n : nat) :
  forall i acc,
    Z.of_nat n = chunkCount - i ->
    chunk_loop n imgWidth imgHeight chunkCount i acc = acc ++ planned n i.
Proof.
  induction n as [|n IH]; intros i acc Hn; simpl.
  - now rewrite app_nil_r.
  - destruct (Z.ltb_spec i chunkCount) as [_|Hge]; [|lia].
    rewrite IH by lia. now rewrite <- app_assoc.
Qed.

Lemma planned_length (n : nat) i : length (planned n i) = n.
Proof. revert i; induction n; intros; simpl; auto. Qed.

Lemma planned_contiguous (n : nat) :
  forall i,
    CHUNK_HEIGHT_PX * (i + Z.of_nat n - 1) < imgHeight ->
    contiguous_from (i * CHUNK_HEIGHT_PX) (planned n i).
Proof.
  change CHUNK_HEIGHT_PX with 190.
  induction n as [|n IH]; intros i Hlt; simpl; [exact I|].
  change CHUNK_HEIGHT_PX with 190.
  split; [reflexivity|]. split; [lia|].
  destruct n as [|m]; [exact I|].
  replace (i * 190 + Z.min 190 (imgHeight - i * 190))
    with ((i + 1) * 190) by lia.
  apply IH. lia.
Qed.

Lemma planned_sum (n : nat) :
  forall i,
    CHUNK_HEIGHT_PX * (i + Z.of_nat n) < imgHeight ->
    imgHeight <= CHUNK_HEIGHT_PX * (i + Z.of_nat (S n)) ->
    sum_heights (planned (S n) i) = imgHeight - i * CHUNK_HEIGHT_PX.
Proof.
  change CHUNK_HEIGHT_PX with 190.
  induction n as [|n IH]; intros i Hlo Hhi.
  - simpl. change CHUNK_HEIGHT_PX with 190. lia.
  - change (planned (S (S n)) i)
      with (chunk_at imgWidth imgHeight chunkCount i
            :: planned (S n) (i + 1)).
    change (sum_heights (?c :: ?r)) with (chunkHeight c + sum_heights r).
    rewrite IH by lia. simpl. change CHUNK_HEIGHT_PX with 190. lia.
Qed.

Lemma planned_full_but_last (n : nat) :
  forall i,
    CHUNK_HEIGHT_PX * (i + Z.of_nat n - 1) < imgHeight ->
    full_but_last (planned n i).
Proof.
  change CHUNK_HEIGHT_PX with 190.
  induction n as [|n IH]; intros i Hlt; [exact I|].
  destruct n as [|m].
  - simpl. change CHUNK_HEIGHT_PX with 190. lia.
  - change (planned (S (S m)) i)
      with (chunk_at imgWidth imgHeight chunkCount i
            :: planned (S m) (i + 1)).
    change (planned (S m) (i + 1))
      with (chunk_at imgWidth imgHeight chunkCount (i + 1)
            :: planned m (i + 1 + 1)) at 1.
    cbn [full_but_last]. split.
    + simpl. change CHUNK_HEIGHT_PX with 190. lia.
    + apply (IH (i + 1)). lia.
Qed.

End Plan.

(** For a tall image the planner returns exactly the planned chunks. *)
Lemma calculateChunks_tall (w h : Z) :
  0 < w -> 0 < h -> TALL_IMAGE_THRESHOLD * w <= h ->
  let chunkCount := Math_ceil (js_div h CHUNK_HEIGHT_PX) in
  0 < chunkCount /\
  CHUNK_HEIGHT_PX * (chunkCount - 1) < h <= CHUNK_HEIGHT_PX * chunkCount /\
  calculateChunks w h = planned w h chunkCount (Z.to_nat chunkCount) 0.
Proof.
  intros Hw Hh Htall chunkCount.
  pose proof (Math_ceil_js_div h 190) as Hc.
  change (Z.pos 190) with CHUNK_HEIGHT_PX in Hc. fold chunkCount in Hc.
  assert (0 < chunkCount) as Hpos
    by (change CHUNK_HEIGHT_PX with 190 in Hc; lia).
  split; [exact Hpos|]. split; [exact Hc|].
  unfold calculateChunks.
  destruct (Qlt_le_dec (js_div h w) (inject_Z TALL_IMAGE_THRESHOLD))
    as [Hlt|_].
  - destruct w as [|p|p]; try lia.
    pose proof (proj1 (js_div_lt_iff h TALL_IMAGE_THRESHOLD p) Hlt).
    reader_consts. lia.
  - fold chunkCount. rewrite chunk_loop_unfold by lia. reflexivity.
Qed.

Lemma calculateChunks_short (w h : Z) :
  0 < w -> h < TALL_IMAGE_THRESHOLD * w -> calculateChunks w h = [].
Proof.
  intros Hw Hlt. unfold calculateChunks.
  destruct (Qlt_le_dec (js_div h w) (inject_Z TALL_IMAGE_THRESHOLD))
    as [_|Hge]; [reflexivity|].
  destruct w as [|p|p]; try lia.
  pose proof (proj1 (js_div_ge_iff h TALL_IMAGE_THRESHOLD p) Hge).
  reader_consts. lia.
Qed.

(** C2.  For an intrinsic size with positive width and height: when the
    ratio height/width reaches the tall-image threshold the chunk list is
    non-empty, its ranges [startY, startY + chunkHeight) are non-empty,
    start at 0 and each begins where the previous one ends, the chunk
    heights add up to the image height exactly, and every chunk but the
    last has the full chunk height (the last at most that); when the ratio
    is below the threshold the chunk list is empty. *)
Theorem calculateChunks_tiles_image (w h : Z) :
  0 < w -> 0 < h ->
  ((inject_Z TALL_IMAGE_THRESHOLD <= js_div h w)%Q ->
     calculateChunks w h <> [] /\
     contiguous_from 0 (calculateChunks w h) /\
     sum_heights (calculateChunks w h) = h /\
     full_but_last (calculateChunks w h))
  /\
  ((js_div h w < inject_Z TALL_IMAGE_THRESHOLD)%Q ->
     calculateChunks w h = []).
Proof.
  intros Hw Hh. split.
  - intros Hge.
    assert (TALL_IMAGE_THRESHOLD * w <= h) as Htall.
    { destruct w as [|p|p]; try lia.
      exact (proj1 (js_div_ge_iff h TALL_IMAGE_THRESHOLD p) Hge). }
    destruct (calculateChunks_tall w h Hw Hh Htall) as (Hpos & Hc & ->).
    set (c := Math_ceil (js_div h CHUNK_HEIGHT_PX)) in *.
    destruct (Z.to_nat c) as [|n] eqn:En; [lia|].
    assert (Z.of_nat (S n) = c) as Hn by lia.
    split; [discriminate|]. split; [|split].
    + apply (planned_contiguous w h c (S n) 0). lia.
    + rewrite (planned_sum w h c n 0) by lia. lia.
    + apply planned_full_but_last. lia.
  - intros Hlt. apply calculateChunks_short; [exact Hw|].
    destruct w as [|p|p]; try lia.
    exact (proj1 (js_div_lt_iff h TALL_IMAGE_THRESHOLD p) Hlt).
Qed.

Lemma calculateChunks_tiles_image_witness :
  calculateChunks 100 500 <> [] /\
  contiguous_from 0 (calculateChunks 100 500) /\
  sum_heights (calculateChunks 100 500) = 500 /\
  full_but_last (calculateChunks 100 500).
Proof.
  apply (calculateChunks_tiles_image 100 500); [lia | lia |].
  vm_compute; discriminate.
Defined.

(** C4, as the code has it.  For an intrinsic size with positive width and
    height whose ratio height/width is exactly the threshold 4, the page
    is classified as tall and chunks are produced: the planner returns
    the empty list only for ratios strictly below the threshold. *)
Theorem ratio_at_threshold_is_tall (w h : Z) :
  0 < w -> 0 < h ->
  (js_div h w == inject_Z TALL_IMAGE_THRESHOLD)%Q ->
  isTallImage_after_load w h = true /\ calculateChunks w h <> [].
Proof.
  intros Hw Hh Heq.
  assert (calculateChunks w h <> []) as Hne.
  { assert (TALL_IMAGE_THRESHOLD * w <= h) as Htall.
    { destruct w as [|p|p]; try lia.
      pose proof (proj1 (js_div_eq_iff h TALL_IMAGE_THRESHOLD p) Heq).
      lia. }
    destruct (calculateChunks_tall w h Hw Hh Htall) as (Hpos & _ & ->).
    destruct (Z.to_nat (Math_ceil (js_div h CHUNK_HEIGHT_PX))) eqn:En;
      [lia | discriminate]. }
  split; [|exact Hne].
  unfold isTallImage_after_load. apply bool_decide_eq_true.
  destruct (calculateChunks w h); [congruence | simpl; lia].
Qed.

Lemma ratio_at_threshold_is_tall_witness :
  isTallImage_after_load 100 400 = true /\ calculateChunks 100 400 <> [].
Proof.
  apply (ratio_at_threshold_is_tall 100 400); [lia | lia |].
  vm_compute; reflexivity.
Defined.

(** C4, as the claim states it, fails at 100 x 400 (ratio exactly 4):
    three chunks are planned and the page is tall. *)
Lemma ratio_at_threshold_not_short :
  ~ (forall w h : Z,
       0 < w -> 0 < h ->
       (js_div h w == inject_Z 4)%Q ->
       isTallImage_after_load w h = false /\ calculateChunks w h = []).
Proof.
  intros H.
  destruct (H 100 400 ltac:(lia) ltac:(lia) ltac:(vm_compute; reflexivity))
    as [Htall _].
  vm_compute in Htall. discriminate.
Qed.

End ChunkFacts.

(* ===================================================================== *)
(** ** Eligibility window *)
(* ===================================================================== *)

Module EligibilityFacts.
Import Reader.

Lemma Math_max_with0_upper (l : list Z) (x : Z) :
  x ∈ l -> x <= Math_max_with0 l.
Proof.
  induction l as [|y l IH]; intros Hin.
  - inversion Hin.
  - apply elem_of_cons in Hin as [->|Hin]; simpl; [lia|].
    specialize (IH Hin). lia.
Qed.

Lemma Math_max_with0_attained (l : list Z) :
  Math_max_with0 l = 0 \/ Math_max_with0 l ∈ l.
Proof.
  induction l as [|y l IH]; simpl; [now left|].
  destruct (Z.max_spec y (Math_max_with0 l)) as [[_ ->]|[_ ->]].
  - destruct IH as [IH|IH]; [left; exact IH | right; now apply elem_of_cons; right].
  - right. apply elem_of_cons. now left.
Qed.

Lemma Math_min_with0_nonpos (l : list Z) : Math_min_with0 l <= 0.
Proof. induction l as [|x l IH]; simpl; lia. Qed.

Lemma Math_min_with0_lower (l : list Z) (x : Z) :
  x ∈ l -> Math_min_with0 l <= x.
Proof.
  induction l as [|y l IH]; intros Hin.
  - inversion Hin.
  - apply elem_of_cons in Hin as [->|Hin]; simpl; [lia|].
    specialize (IH Hin). lia.
Qed.

Lemma Math_min_with0_attained (l : list Z) :
  Math_min_with0 l = 0 \/ Math_min_with0 l ∈ l.
Proof.
  induction l as [|y l IH]; simpl; [now left|].
  destruct (Z.min_spec y (Math_min_with0 l)) as [[_ ->]|[_ ->]].
  - right. apply elem_of_cons. now left.
  - destruct IH as [IH|IH]; [left; exact IH | right; now apply elem_of_cons; right].
Qed.

(** Over non-negative indices the literal [0] decides the minimum. *)
Lemma Math_min_with0_of_nonneg (l : list Z) :
  (forall x, x ∈ l -> 0 <= x) -> Math_min_with0 l = 0.
Proof.
  intros Hnn. pose proof (Math_min_with0_nonpos l) as Hle.
  destruct (Math_min_with0_attained l) as [H0|Hin]; [exact H0|].
  specialize (Hnn _ Hin). lia.
Qed.

Lemma foldr_max_base (l : list Z) (b : Z) :
  foldr Z.max b l = Z.max b (foldr Z.max b l).
Proof. induction l as [|x l IH]; simpl; lia. Qed.

(** ... and it does not change the maximum of a non-empty set. *)
Lemma foldr_max_head_nonneg (l : list Z) (x : Z) :
  0 <= x -> foldr Z.max x l = Math_max_with0 (x :: l).
Proof.
  intros Hx. simpl. fold (Math_max_with0 l).
  pose proof (Math_max_with0_nonneg l) as Hnn. unfold Math_max_with0 in *.
  induction l as [|y l IH]; simpl in *; [lia|].
  pose proof (foldr_max_base l 0). pose proof (foldr_max_base l x).
  assert (0 <= foldr Z.max 0 l) by (clear; induction l; simpl; lia).
  specialize (IH ltac:(assumption)). lia.
Qed.

Lemma set_max_of_nonneg (visible : gset Z) :
  visible <> ∅ -> (forall x, x ∈ visible -> 0 <= x) ->
  set_max visible = Some (Math_max_with0 (elements visible)).
Proof.
  intros Hne Hnn. unfold set_max.
  destruct (elements visible) as [|x l] eqn:El.
  - apply elements_empty_inv in El. apply leibniz_equiv in El. contradiction.
  - f_equal. apply foldr_max_head_nonneg. apply Hnn.
    apply elem_of_elements. rewrite El. apply elem_of_cons. now left.
Qed.

(** C10.  [shouldLoadPage] computes its window bounds as the minimum and
    the maximum of the visible set together with the literal 0.  Hence, for
    a non-empty visible set of non-negative indices, the lower bound
    [minVisible - 2] excludes nothing: every index [i] with
    [0 <= i <= maxVisible + 3] is eligible, whatever the batch boundary and
    however far [i] lies below the smallest visible index. *)
Theorem shouldLoadPage_lower_bound_vacuous
    (visible : gset Z) (loadedBatchEnd i : Z) :
  visible <> ∅ ->
  (forall x, x ∈ visible -> 0 <= x) ->
  let minVisible := Math_min_with0 (elements visible) in
  let maxVisible := Math_max_with0 (elements visible) in
  (minVisible ∈ visible ∪ {[0]} /\
   forall x, x ∈ visible ∪ {[0]} -> minVisible <= x) /\
  (maxVisible ∈ visible ∪ {[0]} /\
   forall x, x ∈ visible ∪ {[0]} -> x <= maxVisible) /\
  minVisible = 0 /\
  set_max visible = Some maxVisible /\
  (0 <= i <= maxVisible + 3 ->
   shouldLoadPage visible loadedBatchEnd i = true).
Proof.
  intros Hne Hnn minVisible maxVisible.
  assert (minVisible = 0) as Hmin.
  { apply Math_min_with0_of_nonneg. intros x Hx. apply Hnn.
    now apply elem_of_elements. }
  repeat split.
  - destruct (Math_min_with0_attained (elements visible)) as [H0|Hin].
    + fold minVisible in H0. rewrite H0. set_solver.
    + apply elem_of_elements in Hin. fold minVisible in Hin. set_solver.
  - intros x Hx. apply elem_of_union in Hx as [Hx|Hx].
    + apply Math_min_with0_lower. now apply elem_of_elements.
    + apply elem_of_singleton in Hx. subst x. apply Math_min_with0_nonpos.
  - destruct (Math_max_with0_attained (elements visible)) as [H0|Hin].
    + fold maxVisible in H0. rewrite H0. set_solver.
    + apply elem_of_elements in Hin. fold maxVisible in Hin. set_solver.
  - intros x Hx. apply elem_of_union in Hx as [Hx|Hx].
    + apply Math_max_with0_upper. now apply elem_of_elements.
    + apply elem_of_singleton in Hx. subst x. apply Math_max_with0_nonneg.
  - exact Hmin.
  - now apply set_max_of_nonneg.
  - intros [Hlo Hhi]. unfold shouldLoadPage.
    destruct (i <? loadedBatchEnd); [reflexivity|].
    fold minVisible maxVisible. rewrite Hmin. reader_consts.
    apply andb_true_intro. split; apply Z.leb_le; lia.
Qed.

Lemma shouldLoadPage_lower_bound_vacuous_witness :
  set_max ({[10; 11]} : gset Z) = Some 11 /\
  shouldLoadPage {[10; 11]} 5 6 = true.
Proof.
  assert (({[10; 11]} : gset Z) <> ∅) as Hne by (vm_compute; discriminate).
  assert (forall x : Z, x ∈ ({[10; 11]} : gset Z) -> 0 <= x) as Hnn
    by (intros x Hx; set_unfold in Hx; lia).
  destruct (shouldLoadPage_lower_bound_vacuous {[10; 11]} 5 6 Hne Hnn)
    as (_ & _ & _ & Hmax & Hload).
  split; [exact Hmax|]. apply Hload. vm_compute. split; discriminate.
Defined.

(** C1 at visible = {10, 11}, loadedBatchEnd = 5, index 6.  This is the
    state the component renders with when, on twenty freshly loaded pages,
    the host list reports items 10 and 11 as viewable and the visibility
    effect has not run yet.  The rule of the specification, whose lower
    bound is (smallest visible index) - 2 = 8, rejects index 6;
    [shouldLoadPage] accepts it, because its [minVisible] is
    [Math.min(10, 11, 0) = 0]. *)
Theorem shouldLoadPage_ignores_smallest_visible :
  let s :=
    handle "chapter"
      (ViewableItemsChanged [mkToken true (Some 10); mkToken true (Some 11)])
      (run "chapter" [LoadResolved None twenty_pages; LoadFinally] mounted)
  in
  visibleIndices s = {[10; 11]} /\ loadedBatchEnd s = 5 /\
  eligible_spec (visibleIndices s) (loadedBatchEnd s) 6 = Some false /\
  shouldLoadPage (visibleIndices s) (loadedBatchEnd s) 6 = true /\
  Math_min_with0 (elements (visibleIndices s)) = 0.
Proof. vm_compute. repeat split; reflexivity. Qed.

End EligibilityFacts.

(* ===================================================================== *)
(** ** Loading a chapter: initial batch and seeded window *)
(* ===================================================================== *)

Module LoadFacts.
Import Reader.

(** C5, as the code has it.  When a sequence of 20 pages is loaded with no
    saved progress, the batch boundary is 5 (the initial batch size) and
    the visible-index window is seeded to exactly {0, 1}: the candidates
    -1, 0, 1 around the start page, clipped to the sequence.  This holds
    right after the load handler and after the commits that follow it. *)
Theorem load_without_progress (routeChapterId : string)
    (pageUrls : list string) :
  length pageUrls = 20%nat ->
  let s0 := handle routeChapterId (LoadResolved None pageUrls) mounted in
  let s1 := run routeChapterId [LoadResolved None pageUrls; LoadFinally]
                mounted in
  loadedBatchEnd s0 = INITIAL_BATCH_SIZE /\ visibleIndices s0 = {[0; 1]} /\
  loadedBatchEnd s1 = INITIAL_BATCH_SIZE /\ visibleIndices s1 = {[0; 1]}.
Proof.
  intros Hlen. explode_list pageUrls.
  vm_compute. repeat split; reflexivity.
Qed.

Lemma load_without_progress_witness :
  let s1 := run "chapter" [LoadResolved None twenty_pages; LoadFinally]
                mounted in
  loadedBatchEnd s1 = INITIAL_BATCH_SIZE /\ visibleIndices s1 = {[0; 1]}.
Proof.
  destruct (load_without_progress "chapter" twenty_pages eq_refl)
    as (_ & _ & Hb & Hv).
  split; [exact Hb | exact Hv].
Defined.

(** C5, as the claim states it, fails on twenty pages without saved
    progress: index 2 is not in the seeded window. *)
Lemma load_without_progress_window_not_012 :
  let s := run "chapter" [LoadResolved None twenty_pages; LoadFinally]
               mounted in
  ~ (loadedBatchEnd s = 5 /\ visibleIndices s = {[0; 1; 2]}).
Proof.
  intros s [_ Hv].
  assert (2 ∈ visibleIndices s) as Hin by (rewrite Hv; set_solver).
  revert Hin. apply (bool_decide_eq_false_1 (2 ∈ visibleIndices s)).
  vm_compute. reflexivity.
Qed.

End LoadFacts.

(* ===================================================================== *)
(** ** Batch boundary and scroll restore *)
(* ===================================================================== *)

Module BoundaryFacts.
Import Reader.

Ltac split_cases :=
  repeat match goal with
         | |- context [if ?b then _ else _] => destruct b
         | |- context [match ?x with _ => _ end] => destruct x
         end.

Lemma preloadImages_untouched (currentMax : Z) (s : state) :
  untouched s (preloadImages currentMax s) /\
  loadedBatchEnd (preloadImages currentMax s) = loadedBatchEnd s /\
  pendingRestore (preloadImages currentMax s) = pendingRestore s.
Proof.
  unfold preloadImages.
  destruct (preload_loop _ _ _ _ _ _) as [toPreload preloaded].
  destruct (bool_decide _); repeat split; reflexivity.
Qed.

(** The visibility effect never lowers the boundary. *)
Lemma visibility_effect_grows (s : state) :
  untouched s (visibility_effect s) /\
  loadedBatchEnd s <= loadedBatchEnd (visibility_effect s) /\
  pendingRestore (visibility_effect s) = pendingRestore s.
Proof.
  unfold visibility_effect.
  destruct (pageCount s =? 0); [repeat split; reflexivity || lia|].
  set (maxVisible := Math_max_with0 _).
  set (newBatchEnd := Z.min _ _).
  destruct (Z.ltb_spec (loadedBatchEnd s) newBatchEnd) as [Hlt|Hge].
  - destruct (preloadImages_untouched maxVisible
                (setLoadedBatchEnd newBatchEnd s)) as ([] & Hb & Hp).
    repeat split; try assumption. rewrite Hb. simpl. lia.
  - destruct (preloadImages_untouched maxVisible s) as ([] & Hb & Hp).
    repeat split; try assumption. rewrite Hb. lia.
Qed.











(** C3 on the session of twenty pages with saved progress at index 12.
    The load seeds the boundary to 16 and the commit that follows raises
    it to 17 (largest visible index 13, plus the look-ahead, plus one).
    The restore timer then assigns max(5, 12 + 3 + 1) = 16 without
    consulting the current value: the boundary drops from 17 to 16. *)
Theorem restore_lowers_batch_boundary :
  let loaded :=
    run "chapter"
        [LoadResolved (Some progress_at_12) twenty_pages; LoadFinally]
        mounted in
  loadedBatchEnd loaded = 17 /\
  pendingRestore loaded = 1%nat /\
  loadedBatchEnd (handle "chapter" RestoreTimerFires loaded) = 16 /\
  loadedBatchEnd (handle "chapter" RestoreTimerFires loaded)
    < loadedBatchEnd loaded.
Proof. vm_compute. repeat split; reflexivity. Qed.

End BoundaryFacts.

(* ===================================================================== *)
(** ** Prefetch scheduler *)
(* ===================================================================== *)

Module PrefetchFacts.
Import Reader.

(** Fuel beyond [PRELOAD_AHEAD_COUNT] iterations is never used: the loop
    always leaves through its own exit test. *)
Lemma preload_loop_fuel_enough (urls : list string) (currentMax : Z)
    (fuel : nat) :
  forall i toPreload preloaded,
    currentMax + PRELOAD_AHEAD_COUNT < i + Z.of_nat fuel ->
    preload_loop (S fuel) urls currentMax i toPreload preloaded
    = preload_loop fuel urls currentMax i toPreload preloaded.
Proof.
  induction fuel as [|fuel IH]; intros i acc seen Hfuel.
  - simpl. destruct (Z.leb_spec i (currentMax + PRELOAD_AHEAD_COUNT));
      [lia | reflexivity].
  - change (preload_loop (S (S fuel)) urls currentMax i acc seen)
      with (if (i <=? currentMax + PRELOAD_AHEAD_COUNT)
               && (i <? Z.of_nat (length urls))
            then if decide (i ∈ seen)
                 then preload_loop (S fuel) urls currentMax (i + 1) acc seen
                 else preload_loop (S fuel) urls currentMax (i + 1)
                        (acc ++ [(i, url_at urls i)]) ({[ i ]} ∪ seen)
            else (acc, seen)).
    rewrite !IH by lia. reflexivity.
Qed.

(** What one run of the loop adds: fresh, pairwise distinct indices from
    [i] up to the end of the window and of the page list. *)
Lemma preload_loop_adds (urls : list string) (currentMax : Z) (fuel : nat) :
  forall i toPreload preloaded toPreload' preloaded',
    preload_loop fuel urls currentMax i toPreload preloaded
    = (toPreload', preloaded') ->
    exists added : list (Z * string),
      toPreload' = toPreload ++ added /\
      preloaded' = list_to_set (added.*1) ∪ preloaded /\
      NoDup added.*1 /\
      Forall (fun '(j, u) =>
                i <= j <= currentMax + PRELOAD_AHEAD_COUNT /\
                j < Z.of_nat (length urls) /\
                (j ∉ preloaded) /\ u = url_at urls j) added.
Proof.
  induction fuel as [|fuel IH]; intros i acc seen acc' seen' Hrun;
    simpl in Hrun.
  - injection Hrun as Hacc Hseen. subst acc' seen'.
    exists []. rewrite app_nil_r.
    repeat split; [apply set_eq; intros x; rewrite elem_of_union, elem_of_list_to_set; simpl; rewrite elem_of_nil; tauto | constructor | constructor].
  - destruct ((i <=? currentMax + PRELOAD_AHEAD_COUNT)
              && (i <? Z.of_nat (length urls))) eqn:Hcond.
    + apply andb_true_iff in Hcond as [Hle Hlt].
      apply Z.leb_le in Hle. apply Z.ltb_lt in Hlt.
      destruct (decide (i ∈ seen)) as [Hin|Hnin].
      * destruct (IH _ _ _ _ _ Hrun) as (added & -> & -> & Hnd & Hall).
        exists added. repeat split; try assumption.
        eapply Forall_impl; [exact Hall|].
        intros [j u] (? & ? & ? & ?). repeat split; try lia; assumption.
      * destruct (IH _ _ _ _ _ Hrun) as (added & -> & -> & Hnd & Hall).
        exists ((i, url_at urls i) :: added).
        rewrite <- app_assoc. simpl.
        assert (i ∉ added.*1) as Hfresh.
        { intros Hin. apply list_elem_of_fmap in Hin as ([j u] & Hj & Hin).
          simpl in Hj. subst j.
          rewrite Forall_forall in Hall. specialize (Hall _ Hin).
          simpl in Hall. lia. }
        repeat split.
        -- apply set_eq. intros x. rewrite !elem_of_union. tauto.
        -- constructor; assumption.
        -- constructor; [simpl; repeat split; auto; lia|].
           eapply Forall_impl; [exact Hall|]. intros [j u] Hj. simpl in *.
           destruct Hj as (? & ? & Hns & ?).
           repeat split; try lia; try assumption.
           intros Hjs. apply Hns. apply elem_of_union. now right.
    + injection Hrun as Hacc Hseen. subst acc' seen'.
      exists []. rewrite app_nil_r.
      repeat split;
        [apply set_eq; intros x; rewrite elem_of_union, elem_of_list_to_set; simpl; rewrite elem_of_nil; tauto | constructor | constructor].
Qed.

Lemma preload_indices_snoc (log : list prefetch_call) (c : prefetch_call) :
  preload_indices (log ++ [c])
  = preload_indices log ++ (if is_preload c then call_indices c else []).
Proof.
  unfold preload_indices. rewrite filter_app, map_app, concat_app.
  f_equal. destruct (is_preload c) eqn:Hc.
  - rewrite filter_cons_True by exact Hc. simpl. now rewrite app_nil_r.
  - rewrite filter_cons_False by (rewrite Hc; discriminate). reflexivity.
Qed.

Lemma preloadImages_inv (urls : list string) (currentMax : Z) (s : state) :
  allPageUrls s = urls -> 0 <= currentMax ->
  prefetch_inv urls s -> prefetch_inv urls (preloadImages currentMax s).
Proof.
  intros Hurls Hcm [Hw Hnd Hseen]. unfold preloadImages.
  destruct (preload_loop _ _ _ _ _ _) as [toPreload preloaded] eqn:Hrun.
  apply preload_loop_adds in Hrun
    as (added & Hadd & -> & Hnd' & Hall).
  simpl in Hadd. subst toPreload. rewrite Hurls in Hall.
  destruct (bool_decide _).
  - split; simpl.
    + apply Forall_app. split; [exact Hw|]. constructor; [|constructor].
      unfold call_in_window. simpl.
      eapply Forall_impl; [exact Hall|]. intros [j u] (? & ? & ? & ->).
      repeat split; try (reader_consts; lia).
      unfold url_at.
      destruct (lookup_lt_is_Some_2 urls (Z.to_nat j) ltac:(lia))
        as [x ->].
      reflexivity.
    + rewrite preload_indices_snoc. simpl. unfold call_indices. simpl.
      apply NoDup_app. repeat split; try assumption.
      intros j Hj Hj'. specialize (Hseen _ Hj).
      apply list_elem_of_fmap in Hj' as ([j' u] & -> & Hin).
      rewrite Forall_forall in Hall. specialize (Hall _ Hin).
      simpl in *. tauto.
    + intros j. rewrite preload_indices_snoc. simpl. unfold call_indices.
      simpl. intros Hj. apply elem_of_app in Hj as [Hj|Hj].
      * apply elem_of_union. right. exact (Hseen _ Hj).
      * apply elem_of_union. left. now apply elem_of_list_to_set.
  - split; simpl; try assumption.
    intros j Hj. apply elem_of_union. right. exact (Hseen _ Hj).
Qed.

Lemma visibility_effect_inv (urls : list string) (s : state) :
  allPageUrls s = urls ->
  prefetch_inv urls s -> prefetch_inv urls (visibility_effect s).
Proof.
  intros Hurls Hinv. unfold visibility_effect.
  destruct (pageCount s =? 0); [exact Hinv|].
  apply preloadImages_inv.
  - destruct (_ <? _); simpl; exact Hurls.
  - apply Math_max_with0_nonneg.
  - destruct (_ <? _); [|exact Hinv].
    destruct Hinv. split; simpl; assumption.
Qed.

Lemma log_untouched_inv (urls : list string) (s s' : state) :
  log_untouched s s' -> prefetch_inv urls s -> prefetch_inv urls s'.
Proof.
  intros [Hu Hs Hl] [Hw Hnd Hseen].
  split; rewrite ?Hl, ?Hs; assumption.
Qed.

Lemma session_handler_log_untouched (routeChapterId : string) (e : event)
    (s : state) :
  session_event e -> log_untouched s (handle routeChapterId e s).
Proof.
  destruct e; simpl; try contradiction; intros _.
  - split; reflexivity.
  - unfold onViewableItemsChanged. destruct (bool_decide _).
    + destruct (_ !! _); split; reflexivity.
    + split; reflexivity.
  - unfold onEndReached. destruct (_ <? _); split; reflexivity.
  - destruct (pendingRestore s); split; reflexivity.
  - split; reflexivity.
  - unfold retry_timeout. destruct (pendingRetry s); split; reflexivity.
Qed.

Lemma run_effects_inv (urls : list string) (s : state) :
  allPageUrls s = urls ->
  prefetch_inv urls s ->
  allPageUrls (run_effects s) = urls /\ prefetch_inv urls (run_effects s).
Proof.
  intros Hurls Hinv. unfold run_effects.
  set (s1 := if decide (restore_deps_now s = restoreDeps s) then s
             else restore_effect (setRestoreDeps (restore_deps_now s) s)).
  assert (log_untouched s s1) as Hs1.
  { subst s1. destruct (decide _); [split; reflexivity|].
    unfold restore_effect. destruct (_ && _); split; reflexivity. }
  clearbody s1.
  assert (allPageUrls s1 = urls) as Hurls1
    by (destruct Hs1; congruence).
  pose proof (log_untouched_inv urls s s1 Hs1 Hinv) as Hinv1.
  destruct (decide _); [split; assumption|].
  split.
  - destruct (BoundaryFacts.visibility_effect_grows
                (setVisibilityDeps (visibility_deps_now s1) s1))
      as ([Hu] & _). rewrite Hu. exact Hurls1.
  - apply visibility_effect_inv; [exact Hurls1|].
    destruct Hinv1. split; simpl; assumption.
Qed.

Lemma session_step_inv (routeChapterId : string) (urls : list string)
    (s : state) (e : event) :
  session_event e ->
  allPageUrls s = urls -> prefetch_inv urls s ->
  allPageUrls (step routeChapterId s e) = urls /\
  prefetch_inv urls (step routeChapterId s e).
Proof.
  intros He Hurls Hinv. unfold step.
  pose proof (session_handler_log_untouched routeChapterId e s He) as Hh.
  apply run_effects_inv.
  - destruct Hh; congruence.
  - eapply log_untouched_inv; eassumption.
Qed.

Lemma session_run_inv (routeChapterId : string) (urls : list string)
    (es : list event) :
  forall s,
    Forall session_event es ->
    allPageUrls s = urls -> prefetch_inv urls s ->
    prefetch_inv urls (run routeChapterId es s).
Proof.
  induction es as [|e es IH]; intros s Hes Hurls Hinv; [exact Hinv|].
  inversion Hes; subst. simpl.
  destruct (session_step_inv routeChapterId (allPageUrls s) s e)
    as [Hu Hi]; try assumption; try reflexivity.
  apply IH; assumption.
Qed.

(** The load itself: the page list is installed and one initial call is
    logged, which is not a scheduler call. *)
Lemma load_step_inv (routeChapterId : string)
    (saved : option ReadingProgress) (urls : list string) :
  allPageUrls (step routeChapterId mounted (LoadResolved saved urls)) = urls
  /\ prefetch_inv urls
       (step routeChapterId mounted (LoadResolved saved urls)).
Proof.
  unfold step. apply run_effects_inv.
  - simpl. unfold loadChapter_resolved.
    destruct (0 <? Z.of_nat (length urls)) eqn:Hlen; simpl.
    + reflexivity.
    + destruct urls; [reflexivity|]. simpl in Hlen. discriminate.
  - simpl. unfold loadChapter_resolved.
    destruct saved as [p|]; [destruct (String.eqb _ _)|];
      (destruct (0 <? Z.of_nat (length urls)); split; simpl;
       [ constructor; [exact I | constructor]
       | constructor
       | intros i Hi; inversion Hi
       | constructor
       | constructor
       | intros i Hi; inversion Hi ]).
Qed.

(** What one call of [preloadImages] adds to the log. *)
Lemma preloadImages_scheduled (currentMax : Z) (s : state) :
  0 <= currentMax ->
  exists new,
    prefetchLog (preloadImages currentMax s) = prefetchLog s ++ new /\
    Forall (scheduled_at currentMax (allPageUrls s)) new /\
    visibleIndices (preloadImages currentMax s) = visibleIndices s.
Proof.
  intros Hcm. unfold preloadImages.
  destruct (preload_loop _ _ _ _ _ _) as [toPreload preloaded] eqn:Hrun.
  apply preload_loop_adds in Hrun as (added & Hadd & _ & _ & Hall).
  simpl in Hadd. subst toPreload.
  destruct (bool_decide_reflect (0 < length added)%nat) as [Hlen|Hlen].
  - exists [mkCall (PreloadAhead currentMax) added].
    split; [reflexivity|]. split; [|reflexivity].
    constructor; [|constructor].
    split; [reflexivity|]. split.
    + simpl. intros ->. simpl in Hlen. lia.
    + simpl. eapply Forall_impl; [exact Hall|].
      intros [j u] (? & ? & ? & ->).
      repeat split; try (reader_consts; lia).
      unfold url_at.
      destruct (lookup_lt_is_Some_2 (allPageUrls s) (Z.to_nat j)
                  ltac:(lia)) as [x ->].
      reflexivity.
  - exists []. rewrite app_nil_r.
    split; [reflexivity|]. split; [constructor | reflexivity].
Qed.

Lemma visibility_effect_scheduled (s : state) :
  exists new,
    prefetchLog (visibility_effect s) = prefetchLog s ++ new /\
    Forall (scheduled_at (max_visible s) (allPageUrls s)) new /\
    visibleIndices (visibility_effect s) = visibleIndices s.
Proof.
  unfold visibility_effect.
  destruct (pageCount s =? 0).
  { exists []. rewrite app_nil_r.
    split; [reflexivity|]. split; [constructor | reflexivity]. }
  fold (max_visible s).
  assert (0 <= max_visible s) as Hnn by apply Math_max_with0_nonneg.
  destruct (_ <? _).
  - destruct (preloadImages_scheduled (max_visible s)
                (setLoadedBatchEnd
                   (Z.min (pageCount s)
                      (Z.max (loadedBatchEnd s)
                         (max_visible s + LOAD_AHEAD_COUNT + 1))) s) Hnn)
      as (new & Hlog & Hall & Hv).
    exists new. repeat split; assumption.
  - destruct (preloadImages_scheduled (max_visible s) s Hnn)
      as (new & Hlog & Hall & Hv).
    exists new. repeat split; assumption.
Qed.

(** A commit adds scheduler calls only, made for the largest visible
    index of the state it renders. *)
Lemma run_effects_scheduled (s : state) :
  exists new,
    prefetchLog (run_effects s) = prefetchLog s ++ new /\
    Forall (scheduled_at (max_visible s) (allPageUrls s)) new /\
    visibleIndices (run_effects s) = visibleIndices s.
Proof.
  unfold run_effects.
  set (s1 := if decide (restore_deps_now s = restoreDeps s) then s
             else restore_effect (setRestoreDeps (restore_deps_now s) s)).
  assert (prefetchLog s1 = prefetchLog s /\
          allPageUrls s1 = allPageUrls s /\
          visibleIndices s1 = visibleIndices s) as (Hl & Hu & Hv).
  { subst s1. destruct (decide _); [repeat split; reflexivity|].
    unfold restore_effect. destruct (_ && _); repeat split; reflexivity. }
  clearbody s1.
  destruct (decide _).
  - exists []. rewrite app_nil_r.
    split; [exact Hl|]. split; [constructor | exact Hv].
  - destruct (visibility_effect_scheduled
                (setVisibilityDeps (visibility_deps_now s1) s1))
      as (new & Hlog & Hall & Hv').
    exists new. simpl in Hlog, Hall, Hv'.
    unfold max_visible in Hall. simpl in Hall.
    split; [congruence|]. split; [|congruence].
    unfold max_visible. rewrite <- Hv, <- Hu. exact Hall.
Qed.

Lemma session_run_urls (routeChapterId : string) (urls : list string)
    (es : list event) :
  forall s,
    Forall session_event es ->
    allPageUrls s = urls -> prefetch_inv urls s ->
    allPageUrls (run routeChapterId es s) = urls.
Proof.
  induction es as [|e es IH]; intros s Hes Hurls Hinv; [exact Hurls|].
  inversion Hes; subst. simpl.
  destruct (session_step_inv routeChapterId (allPageUrls s) s e)
    as [Hu Hi]; try assumption; try reflexivity.
  apply IH; assumption.
Qed.

(** The indices of [pageUrls.slice(0, Math.min(3, pageUrls.length))]. *)
Lemma first_pages_initial (urls : list string) :
  (first_pages urls).*1 = seqZ 0 (Z.min 3 (Z.of_nat (length urls))) /\
  Forall (fun '(i, u) => urls !! Z.to_nat i = Some u) (first_pages urls).
Proof.
  unfold first_pages.
  set (k := Z.to_nat (Z.min 3 (Z.of_nat (length urls)))).
  assert (length (take k urls) = k) as Hlen
    by (rewrite length_take; subst k; lia).
  split.
  - apply list_eq. intros i.
    rewrite list_lookup_fmap, list_lookup_imap.
    destruct (take k urls !! i) as [u|] eqn:Hi; simpl.
    + apply lookup_lt_Some in Hi. rewrite Hlen in Hi.
      symmetry. rewrite lookup_seqZ. split; subst k; lia.
    + apply lookup_ge_None in Hi. rewrite Hlen in Hi.
      symmetry. apply lookup_seqZ_ge. subst k. lia.
  - apply Forall_forall. intros [i u] Hin.
    apply elem_of_lookup_imap in Hin as (n & v & Heq & Hn).
    injection Heq as -> ->.
    rewrite Nat2Z.id. rewrite lookup_take_Some in Hn. tauto.
Qed.

(** C7, as the code has it.  A session starts with the load of a page
    list and continues with any sequence of viewability, end-of-list,
    timer and scroll-failure events (no reload).  The load issues one
    initial prefetch of the first min(3, N) sources (none for an empty
    list); every other call is made by the scheduler ([preloadImages]).
    Each commit, that of the load included, adds scheduler calls only,
    and each of them asks only for indices in
    (maxVisible, maxVisible + 5] that lie inside the page list, with the
    url stored at that index, where maxVisible is [Math.max] of 0 and the
    indices visible at that commit: the largest visible index whenever
    the visible set is non-empty and holds no negative index.  Over the
    whole session the scheduler asks for each index at most once, and
    every index it asked for is in the seen-set. *)
Theorem scheduler_prefetch_window_and_dedup (routeChapterId : string)
    (saved : option ReadingProgress) (pageUrls : list string)
    (es : list event) :
  Forall session_event es ->
  let loaded := step routeChapterId mounted (LoadResolved saved pageUrls) in
  let s := run routeChapterId (LoadResolved saved pageUrls :: es) mounted in
  (exists initial scheduled,
     prefetchLog loaded = initial ++ scheduled /\
     initial_prefetch pageUrls initial /\
     Forall (scheduled_at (max_visible loaded) pageUrls) scheduled) /\
  (forall e, session_event e ->
     let s' := step routeChapterId s e in
     exists new,
       prefetchLog s' = prefetchLog s ++ new /\
       Forall (scheduled_at (max_visible s') pageUrls) new) /\
  (forall st : state,
     visibleIndices st <> ∅ ->
     (forall i, i ∈ visibleIndices st -> 0 <= i) ->
     set_max (visibleIndices st) = Some (max_visible st)) /\
  Forall (call_in_window pageUrls) (prefetchLog s) /\
  NoDup (preload_indices (prefetchLog s)) /\
  (forall i, i ∈ preload_indices (prefetchLog s) -> i ∈ preloadedRef s).
Proof.
  intros Hes loaded s. subst s. simpl. fold loaded.
  destruct (load_step_inv routeChapterId saved pageUrls) as [Hu Hi].
  fold loaded in Hu, Hi.
  pose proof (session_run_urls routeChapterId pageUrls es _ Hes Hu Hi)
    as Hurls.
  destruct (session_run_inv routeChapterId pageUrls es _ Hes Hu Hi)
    as [Hw Hnd Hseen].
  split; [|split; [|split; [|repeat split; assumption]]].
  - subst loaded. unfold step.
    set (h := handle routeChapterId (LoadResolved saved pageUrls) mounted).
    destruct (run_effects_scheduled h) as (new & Hlog & Hall & Hv).
    assert (allPageUrls h = pageUrls /\
            initial_prefetch pageUrls (prefetchLog h)) as [Hhu Hinit].
    { subst h. simpl. unfold loadChapter_resolved, initial_prefetch.
      destruct (first_pages_initial pageUrls) as [Hidx Hsrc].
      destruct (Z.ltb_spec 0 (Z.of_nat (length pageUrls))) as [Hpos|Hzero].
      - destruct saved as [p|]; [destruct (String.eqb _ _)|];
          (split; [reflexivity|]; split; [lia|]; intros _;
           exists (first_pages pageUrls); repeat split; assumption).
      - destruct pageUrls; [|simpl in Hzero; lia].
        destruct saved as [p|]; [destruct (String.eqb _ _)|];
          (split; [reflexivity|]; split; [reflexivity|simpl; lia]). }
    exists (prefetchLog h), new.
    split; [exact Hlog|]. split; [exact Hinit|].
    unfold max_visible. rewrite Hv. rewrite <- Hhu. exact Hall.
  - intros e He. simpl.
    set (s := run routeChapterId es loaded) in *.
    unfold step.
    pose proof (session_handler_log_untouched routeChapterId e s He)
      as [Hhu _ Hhl].
    destruct (run_effects_scheduled (handle routeChapterId e s))
      as (new & Hlog & Hall & Hv).
    exists new. split; [congruence|].
    unfold max_visible. rewrite Hv.
    rewrite <- Hurls, <- Hhu. exact Hall.
  - intros st Hne Hnn. unfold max_visible.
    apply EligibilityFacts.set_max_of_nonneg; assumption.
Qed.

Lemma scheduler_prefetch_window_and_dedup_witness :
  let s :=
    run "chapter"
        [LoadResolved None twenty_pages;
         ViewableItemsChanged [mkToken true (Some 3); mkToken true (Some 4)];
         EndReached]
        mounted in
  Forall (call_in_window twenty_pages) (prefetchLog s) /\
  NoDup (preload_indices (prefetchLog s)) /\
  (forall i, i ∈ preload_indices (prefetchLog s) -> i ∈ preloadedRef s).
Proof.
  destruct (scheduler_prefetch_window_and_dedup "chapter" None twenty_pages
              [ViewableItemsChanged
                 [mkToken true (Some 3); mkToken true (Some 4)];
               EndReached]) as (_ & _ & _ & Hwindow & Hnodup & Hseen).
  - repeat constructor.
  - split; [exact Hwindow|]. split; [exact Hnodup | exact Hseen].
Defined.

(** C7, as the claim states it, fails on twenty pages without saved
    progress.  The load prefetches indices 0, 1, 2 without recording them
    in the seen-set; the commit that follows calls the scheduler with
    largest visible index 1, which asks for 2, 3, 4, 5, 6.  Index 2 is
    requested twice, and indices 0 and 1 are not above the largest
    visible index. *)
Lemma initial_prefetch_bypasses_seen_set :
  let s := run "chapter" [LoadResolved None twenty_pages] mounted in
  Math_max_with0 (elements (visibleIndices s)) = 1 /\
  prefetched_indices s = [0; 1; 2; 2; 3; 4; 5; 6] /\
  ~ NoDup (prefetched_indices s) /\
  ~ Forall (fun i => 1 < i <= 1 + PRELOAD_AHEAD_COUNT) (prefetched_indices s).
Proof.
  intros s.
  assert (prefetched_indices s = [0; 1; 2; 2; 3; 4; 5; 6]) as Hlog
    by (vm_compute; reflexivity).
  rewrite Hlog. split; [|split; [|split]].
  - vm_compute. reflexivity.
  - reflexivity.
  - intros Hnd.
    inversion Hnd as [|? ? _ Hnd1]. inversion Hnd1 as [|? ? _ Hnd2].
    inversion Hnd2 as [|? ? Hin _]. apply Hin. left.
  - intros Hall. inversion Hall as [|? ? H0 _]. lia.
Qed.

End PrefetchFacts.

(* ===================================================================== *)
(** ** Volume-key bridge *)
(* ===================================================================== *)

Module VolumeFacts.
Import VolumeScroll.

(** A change above the noise threshold: one scroll command, then the
    hardware level is put back, and the handler locks itself. *)
Lemma handleVolumeChange_fires (newVolume lastVolume : float) (r : refs) :
  isHandlingRef r = false ->
  lastVolumeRef r = Some lastVolume ->
  (NOISE_THRESHOLD <? PrimFloat.abs (newVolume - lastVolume))%float = true ->
  handleVolumeChange true newVolume r
  = ({| lastVolumeRef := Some lastVolume; isHandlingRef := true |},
     [ if (0 <? newVolume - lastVolume)%float then ScrollDown else ScrollUp;
       SetVolume lastVolume ]).
Proof.
  intros Hh Hl Hd. unfold handleVolumeChange.
  rewrite Hh, Hl. simpl. rewrite Hd. reflexivity.
Qed.

(** A change within the noise threshold only updates the last-known
    level. *)
Lemma handleVolumeChange_noise (enabled : bool) (newVolume lastVolume : float)
    (r : refs) :
  lastVolumeRef r = Some lastVolume ->
  (NOISE_THRESHOLD <? PrimFloat.abs (newVolume - lastVolume))%float = false ->
  snd (handleVolumeChange enabled newVolume r) = [].
Proof.
  intros Hl Hd. unfold handleVolumeChange.
  destruct (negb enabled || isHandlingRef r); [reflexivity|].
  rewrite Hl, Hd. reflexivity.
Qed.

(** C8.  With volume scrolling enabled, no handling in progress and the
    last-known level 0.50, a change to 0.45 makes the handler fire exactly
    one scroll command, scroll-up, and in the same invocation set the
    hardware volume back to 0.50 (the last-known level stays 0.50 and the
    handler locks itself).  In general a delta whose absolute value exceeds
    the noise threshold 0.001 fires exactly one scroll command followed by
    the reset to the last-known level, and a delta whose absolute value
    does not exceed the threshold fires no command at all. *)
Theorem volume_change_scrolls_once_and_resets :
  handleVolumeChange true vol_0_45
    {| lastVolumeRef := Some vol_0_50; isHandlingRef := false |}
  = ({| lastVolumeRef := Some vol_0_50; isHandlingRef := true |},
     [ScrollUp; SetVolume vol_0_50])
  /\
  (forall (newVolume lastVolume : float) (r : refs),
     isHandlingRef r = false ->
     lastVolumeRef r = Some lastVolume ->
     (NOISE_THRESHOLD <? PrimFloat.abs (newVolume - lastVolume))%float = true ->
     exists c,
       snd (handleVolumeChange true newVolume r) = [c; SetVolume lastVolume]
       /\ is_scroll c = true)
  /\
  (forall (enabled : bool) (newVolume lastVolume : float) (r : refs),
     lastVolumeRef r = Some lastVolume ->
     (NOISE_THRESHOLD <? PrimFloat.abs (newVolume - lastVolume))%float = false ->
     snd (handleVolumeChange enabled newVolume r) = []).
Proof.
  split; [|split].
  - apply handleVolumeChange_fires; reflexivity.
  - intros newVolume lastVolume r Hh Hl Hd.
    rewrite (handleVolumeChange_fires newVolume lastVolume r Hh Hl Hd).
    eexists. split; [reflexivity|].
    destruct (0 <? newVolume - lastVolume)%float; reflexivity.
  - intros. eapply handleVolumeChange_noise; eassumption.
Qed.

Lemma volume_change_scrolls_once_and_resets_witness :
  (exists c,
     snd (handleVolumeChange true vol_0_45
            {| lastVolumeRef := Some vol_0_50; isHandlingRef := false |})
     = [c; SetVolume vol_0_50] /\ is_scroll c = true)
  /\
  snd (handleVolumeChange true vol_0_50_jitter
         {| lastVolumeRef := Some vol_0_50; isHandlingRef := false |}) = [].
Proof.
  destruct volume_change_scrolls_once_and_resets as (_ & Hfire & Hnoise).
  split.
  - apply Hfire; reflexivity.
  - apply (Hnoise true vol_0_50_jitter vol_0_50); reflexivity.
Defined.

End VolumeFacts.

(* ===================================================================== *)
(** ** Progress store *)
(* ===================================================================== *)

Module StorageFacts.
Import Storage.

Section Swallow.
Context {World exn : Type}.
Variable AsyncStorage_getItem : string -> @io World exn (option string).
Variable AsyncStorage_setItem : string -> string -> @io World exn unit.
Variable JSON_parse : string -> exn + jsvalue.
Variable JSON_stringify : jsvalue -> string.
Variable Date_now : World -> Z * World.
Variable console_error : string -> exn -> World -> World.
Variable TypeError : exn.

Local Abbreviation save :=
  (saveReadingProgress AsyncStorage_getItem AsyncStorage_setItem
     JSON_parse JSON_stringify Date_now console_error TypeError).
Local Abbreviation body :=
  (save_body AsyncStorage_getItem AsyncStorage_setItem
     JSON_parse JSON_stringify Date_now TypeError).

(** [try]/[catch] with a handler that returns turns every outcome of the
    body into a return. *)
Lemma save_outcome (progress : ReadingProgress) (w : World) :
  match body progress w with
  | (inl e, w') =>
      save progress w
      = (inr tt,
         console_error "Failed to save reading progress:" e w')
  | (inr u, w') => save progress w = (inr u, w')
  end.
Proof.
  unfold saveReadingProgress, try_catch, save_handler.
  destruct (body progress w) as [[e|u] w']; reflexivity.
Qed.

(** C9.  For every progress value and every behaviour of the storage,
    the parser, the clock and the console, [saveReadingProgress] returns
    normally.  When the read, the parse, the property write or the store
    write throws, the failure is handed to [console.error] and nothing
    else happens; when nothing throws, the world is the one the body
    left. *)
Theorem saveReadingProgress_never_throws (progress : ReadingProgress)
    (w : World) :
  fst (save progress w) = inr tt /\
  (forall e w',
     body progress w = (inl e, w') ->
     snd (save progress w)
     = console_error "Failed to save reading progress:" e w') /\
  (forall w',
     body progress w = (inr tt, w') -> snd (save progress w) = w').
Proof.
  pose proof (save_outcome progress w) as Hout.
  destruct (body progress w) as [[e|[]] w0] eqn:Hbody; rewrite Hout.
  - split; [reflexivity|]. split.
    + intros e' w' Heq. injection Heq as -> ->. reflexivity.
    + intros w' Heq. discriminate.
  - split; [reflexivity|]. split.
    + intros e' w' Heq. discriminate.
    + intros w' Heq. injection Heq as ->. reflexivity.
Qed.

End Swallow.

(** A store whose write fails, run on a concrete world: the call returns
    and the console holds the message and the error. *)
Lemma saveReadingProgress_never_throws_witness :
  saveReadingProgress mem_getItem failing_setItem no_parse render_any tick
    log_error "TypeError" some_progress fresh_world
  = (inr tt,
     mkWorld ∅ 1001 ["Failed to save reading progress:"; "QuotaExceeded"]).
Proof.
  pose proof (saveReadingProgress_never_throws mem_getItem failing_setItem
                no_parse render_any tick log_error "TypeError"%string
                some_progress fresh_world) as (Hret & Hlog & _).
  rewrite (surjective_pairing (saveReadingProgress _ _ _ _ _ _ _ _ _)).
  rewrite Hret.
  rewrite (Hlog "QuotaExceeded"%string (mkWorld ∅ 1001 [])) by reflexivity.
  reflexivity.
Defined.

End StorageFacts.

(* ===================================================================== *)
(** ** Eligibility and the batch boundary, continued *)
(* ===================================================================== *)

Module WindowFacts.
Import Reader Session.

(** Every visible page is eligible, whatever the batch boundary; the
    [|| isVisible] of [actuallyLoad] therefore never changes the flag
    computed by [shouldLoadPage]. *)
Theorem visible_page_is_eligible (visible : gset Z) (loadedBatchEnd i : Z) :
  (i ∈ visible -> shouldLoadPage visible loadedBatchEnd i = true) /\
  actuallyLoad (snd (renderPage_flags visible loadedBatchEnd i))
               (fst (renderPage_flags visible loadedBatchEnd i))
  = shouldLoadPage visible loadedBatchEnd i.
Proof.
  assert (i ∈ visible -> shouldLoadPage visible loadedBatchEnd i = true)
    as Hvis.
  { intros Hin. unfold shouldLoadPage.
    destruct (i <? loadedBatchEnd); [reflexivity|].
    apply elem_of_elements in Hin.
    pose proof (EligibilityFacts.Math_min_with0_lower _ _ Hin).
    pose proof (EligibilityFacts.Math_max_with0_upper _ _ Hin).
    reader_consts. apply andb_true_intro. split; apply Z.leb_le; lia. }
  split; [exact Hvis|].
  unfold renderPage_flags, actuallyLoad. simpl.
  destruct (bool_decide_reflect (i ∈ visible)) as [Hin|_].
  - rewrite (Hvis Hin). reflexivity.
  - apply orb_false_r.
Qed.

Lemma visible_page_is_eligible_witness :
  shouldLoadPage {[7; 8]} 0 8 = true.
Proof.
  apply (visible_page_is_eligible {[7; 8]} 0 8).
  apply elem_of_union. right. apply elem_of_singleton. reflexivity.
Defined.

Lemma preloadImages_keeps_window (currentMax : Z) (s : state) :
  visibleIndices (preloadImages currentMax s) = visibleIndices s /\
  loadedBatchEnd (preloadImages currentMax s) = loadedBatchEnd s /\
  allPageUrls (preloadImages currentMax s) = allPageUrls s.
Proof.
  unfold preloadImages.
  destruct (preload_loop _ _ _ _ _ _) as [toPreload preloaded].
  destruct (bool_decide _); repeat split; reflexivity.
Qed.

(** The boundary the visibility effect installs. *)
Lemma visibility_effect_boundary (s : state) :
  pageCount s <> 0 ->
  visibleIndices (visibility_effect s) = visibleIndices s /\
  loadedBatchEnd (visibility_effect s)
  = Z.max (loadedBatchEnd s)
          (Z.min (pageCount s)
                 (Math_max_with0 (elements (visibleIndices s))
                  + LOAD_AHEAD_COUNT + 1)).
Proof.
  intros HN. unfold visibility_effect.
  destruct (Z.eqb_spec (pageCount s) 0) as [|_]; [contradiction|].
  set (maxVisible := Math_max_with0 (elements (visibleIndices s))).
  destruct (Z.ltb_spec (loadedBatchEnd s)
              (Z.min (pageCount s)
                 (Z.max (loadedBatchEnd s)
                    (maxVisible + LOAD_AHEAD_COUNT + 1)))) as [Hlt|Hge].
  - destruct (preloadImages_keeps_window maxVisible
                (setLoadedBatchEnd
                   (Z.min (pageCount s)
                      (Z.max (loadedBatchEnd s)
                         (maxVisible + LOAD_AHEAD_COUNT + 1))) s))
      as (-> & -> & _).
    simpl. split; [reflexivity | lia].
  - destruct (preloadImages_keeps_window maxVisible s) as (-> & -> & _).
    split; [reflexivity | lia].
Qed.

(** What the visibility effect leaves behind on a non-empty page list:
    the boundary covers the look-ahead window as far as the list goes, it
    is not pushed past the end of the list, and from then on a page of the
    list is eligible exactly when it lies below the boundary (the window
    test of [shouldLoadPage] adds nothing). *)
Theorem visibility_effect_covers_window (s : state) :
  pageCount s <> 0 ->
  let s' := visibility_effect s in
  let maxVisible := Math_max_with0 (elements (visibleIndices s)) in
  visibleIndices s' = visibleIndices s /\
  Z.min (pageCount s) (maxVisible + LOAD_AHEAD_COUNT + 1)
    <= loadedBatchEnd s' /\
  loadedBatchEnd s' <= Z.max (loadedBatchEnd s) (pageCount s) /\
  (forall i, 0 <= i < pageCount s ->
     shouldLoadPage (visibleIndices s') (loadedBatchEnd s') i
     = (i <? loadedBatchEnd s')).
Proof.
  intros HN s' maxVisible.
  destruct (visibility_effect_boundary s HN) as [Hv Hb].
  fold s' maxVisible in Hv, Hb.
  split; [exact Hv|]. split; [lia|]. split; [lia|].
  intros i Hi. unfold shouldLoadPage.
  destruct (Z.ltb_spec i (loadedBatchEnd s')) as [_|Hge]; [reflexivity|].
  rewrite Hv. fold maxVisible. reader_consts.
  apply andb_false_intro2. apply Z.leb_gt. lia.
Qed.

Lemma visibility_effect_covers_window_witness :
  let s := handle "chapter"
             (ViewableItemsChanged
                [mkToken true (Some 10); mkToken true (Some 11)])
             (run "chapter" [LoadResolved None twenty_pages; LoadFinally]
                  mounted) in
  loadedBatchEnd (visibility_effect s) = 15 /\
  shouldLoadPage (visibleIndices (visibility_effect s))
                 (loadedBatchEnd (visibility_effect s)) 15 = false.
Proof.
  intros s.
  destruct (visibility_effect_covers_window s) as (_ & _ & _ & Hiff).
  - vm_compute. discriminate.
  - split; [vm_compute; reflexivity|].
    rewrite Hiff by (vm_compute; split; [discriminate | reflexivity]).
    vm_compute. reflexivity.
Defined.

Lemma onEndReached_step (s : state) :
  loadedBatchEnd s <= pageCount s ->
  pageCount (onEndReached s) = pageCount s /\
  loadedBatchEnd (onEndReached s)
  = Z.min (pageCount s) (loadedBatchEnd s + LOAD_AHEAD_COUNT).
Proof.
  intros Hle. unfold onEndReached.
  destruct (Z.ltb_spec (loadedBatchEnd s) (pageCount s)) as [Hlt|Hge];
    split; try reflexivity. reader_consts. lia.
Qed.

(** End-of-list events raise the boundary by the look-ahead count each,
    never past the page count: after [k] of them it is
    [min(N, boundary + 3k)], so it reaches the page count once
    [3k >= N - boundary] and stays there. *)
Theorem onEndReached_reaches_page_count (s : state) (k : nat) :
  loadedBatchEnd s <= pageCount s ->
  loadedBatchEnd (Nat.iter k onEndReached s)
  = Z.min (pageCount s) (loadedBatchEnd s + LOAD_AHEAD_COUNT * Z.of_nat k)
  /\
  (pageCount s <= loadedBatchEnd s + LOAD_AHEAD_COUNT * Z.of_nat k ->
   loadedBatchEnd (Nat.iter k onEndReached s) = pageCount s).
Proof.
  intros Hle.
  assert (pageCount (Nat.iter k onEndReached s) = pageCount s /\
          loadedBatchEnd (Nat.iter k onEndReached s)
          = Z.min (pageCount s)
                  (loadedBatchEnd s + LOAD_AHEAD_COUNT * Z.of_nat k))
    as [_ Hk].
  { induction k as [|k [IHn IHb]].
    - simpl. split; [reflexivity|]. reader_consts. lia.
    - change (Nat.iter (S k) onEndReached s)
        with (onEndReached (Nat.iter k onEndReached s)).
      destruct (onEndReached_step (Nat.iter k onEndReached s)) as [Hn Hb].
      { rewrite IHn, IHb. lia. }
      rewrite Hn, Hb, IHn, IHb. split; [reflexivity|].
      reader_consts. lia. }
  split; [exact Hk|]. intros Hfar. rewrite Hk. lia.
Qed.

Lemma onEndReached_reaches_page_count_witness :
  let s := run "chapter" [LoadResolved None twenty_pages; LoadFinally]
               mounted in
  loadedBatchEnd (Nat.iter 5 onEndReached s) = 20.
Proof.
  intros s.
  destruct (onEndReached_reaches_page_count s 5) as [_ Hfar].
  - vm_compute. discriminate.
  - rewrite Hfar; [reflexivity|]. vm_compute. discriminate.
Defined.

(** A viewability event without any viewable item changes nothing, so the
    visible set is never replaced by the empty set; otherwise the visible
    set becomes exactly the reported indices and the current page is one
    of them. *)
Theorem onViewableItemsChanged_window (items : list ViewToken) (s : state) :
  (viewable_indices items = [] -> onViewableItemsChanged items s = s) /\
  (viewable_indices items <> [] ->
   let s' := onViewableItemsChanged items s in
   visibleIndices s' = list_to_set (viewable_indices items) /\
   visibleIndices s' <> ∅ /\
   currentPage s' ∈ visibleIndices s').
Proof.
  unfold onViewableItemsChanged. split.
  - intros ->. reflexivity.
  - intros Hne. destruct (viewable_indices items) as [|x l] eqn:Hl;
      [contradiction|]. clear Hne.
    assert (Set_of (x :: l) <> ∅) as Hnempty.
    { intros Hempty. assert (x ∈ Set_of (x :: l)) as Hx.
      { apply elem_of_list_to_set. left. }
      rewrite Hempty in Hx. now apply not_elem_of_empty in Hx. }
    assert (0 < size (Set_of (x :: l)))%nat as Hsize.
    { destruct (size (Set_of (x :: l))) eqn:Hs; [|lia].
      apply size_empty_inv in Hs. apply leibniz_equiv in Hs.
      contradiction. }
    rewrite (bool_decide_eq_true_2 _ Hsize).
    assert (length (x :: l) / 2 < length (x :: l))%nat as Hmid.
    { apply Nat.div_lt; simpl; lia. }
    destruct (lookup_lt_is_Some_2 _ _ Hmid) as [c Hc]. rewrite Hc.
    simpl. repeat split; try assumption.
    apply elem_of_list_to_set. eapply list_elem_of_lookup_2. exact Hc.
Qed.

Lemma onViewableItemsChanged_window_witness :
  let s' := onViewableItemsChanged
              [mkToken true (Some 4); mkToken false (Some 5);
               mkToken true (Some 6); mkToken true None] mounted in
  visibleIndices s' = list_to_set [4; 6] /\
  visibleIndices s' <> ∅ /\
  currentPage s' ∈ visibleIndices s'.
Proof.
  apply (onViewableItemsChanged_window
           [mkToken true (Some 4); mkToken false (Some 5);
            mkToken true (Some 6); mkToken true None] mounted).
  vm_compute. discriminate.
Defined.

End WindowFacts.

(* ===================================================================== *)
(** ** Prefetch scheduler, continued *)
(* ===================================================================== *)

Module PreloadFacts.
Import Reader.

(** The loop only adds to the seen-set, and it marks every index of its
    range that is inside the window and the page list. *)
Lemma preload_loop_marks (urls : list string) (currentMax : Z) (fuel : nat) :
  forall i toPreload preloaded toPreload' preloaded',
    preload_loop fuel urls currentMax i toPreload preloaded
    = (toPreload', preloaded') ->
    preloaded ⊆ preloaded' /\
    forall j, i <= j < i + Z.of_nat fuel ->
              j <= currentMax + PRELOAD_AHEAD_COUNT ->
              j < Z.of_nat (length urls) ->
              j ∈ preloaded'.
Proof.
  induction fuel as [|fuel IH]; intros i acc seen acc' seen' Hrun;
    simpl in Hrun.
  - injection Hrun as Hacc Hseen. subst. split; [reflexivity|].
    intros j Hj. lia.
  - destruct ((i <=? currentMax + PRELOAD_AHEAD_COUNT)
              && (i <? Z.of_nat (length urls))) eqn:Hcond.
    + destruct (decide (i ∈ seen)) as [Hin|Hnin];
        destruct (IH _ _ _ _ _ Hrun) as [Hsub Hall].
      * split; [exact Hsub|]. intros j Hj Hw Hn.
        destruct (Z.eq_dec j i) as [->|Hne]; [now apply Hsub|].
        apply Hall; lia.
      * split.
        -- intros x Hx. apply Hsub. apply elem_of_union. now right.
        -- intros j Hj Hw Hn.
           destruct (Z.eq_dec j i) as [->|Hne].
           ++ apply Hsub. apply elem_of_union. left.
              now apply elem_of_singleton.
           ++ apply Hall; lia.
    + injection Hrun as Hacc Hseen. subst. split; [reflexivity|].
      intros j Hj Hw Hn.
      apply andb_false_iff in Hcond as [Hc|Hc].
      * apply Z.leb_gt in Hc. lia.
      * apply Z.ltb_ge in Hc. lia.
Qed.

(** When the whole range is already seen the loop changes nothing. *)
Lemma preload_loop_nothing_new (urls : list string) (currentMax : Z)
    (fuel : nat) :
  forall i toPreload preloaded,
    (forall j, i <= j -> j <= currentMax + PRELOAD_AHEAD_COUNT ->
               j < Z.of_nat (length urls) -> j ∈ preloaded) ->
    preload_loop fuel urls currentMax i toPreload preloaded
    = (toPreload, preloaded).
Proof.
  induction fuel as [|fuel IH]; intros i acc seen Hseen; simpl;
    [reflexivity|].
  destruct ((i <=? currentMax + PRELOAD_AHEAD_COUNT)
            && (i <? Z.of_nat (length urls))) eqn:Hcond; [|reflexivity].
  apply andb_true_iff in Hcond as [Hle Hlt].
  apply Z.leb_le in Hle. apply Z.ltb_lt in Hlt.
  destruct (decide (i ∈ seen)) as [_|Hnin].
  - apply IH. intros j Hj. apply Hseen. lia.
  - exfalso. apply Hnin. apply Hseen; lia.
Qed.

(** After [preloadImages(currentMax)] every index of
    (currentMax, currentMax + 5] inside the page list is in the seen-set,
    earlier entries of the seen-set are kept, and calling it again with
    the same argument changes nothing: no second request is issued. *)
Theorem preloadImages_marks_window_once (currentMax : Z) (s : state) :
  let s' := preloadImages currentMax s in
  (forall j, currentMax < j <= currentMax + PRELOAD_AHEAD_COUNT ->
             j < pageCount s -> j ∈ preloadedRef s') /\
  preloadedRef s ⊆ preloadedRef s' /\
  preloadImages currentMax s' = s'.
Proof.
  intros s'.
  assert (allPageUrls s' = allPageUrls s) as Hurls
    by apply WindowFacts.preloadImages_keeps_window.
  assert ((forall j, currentMax < j <= currentMax + PRELOAD_AHEAD_COUNT ->
                     j < pageCount s -> j ∈ preloadedRef s') /\
          preloadedRef s ⊆ preloadedRef s') as [Hall Hsub].
  { subst s'. unfold preloadImages.
    destruct (preload_loop _ _ _ _ _ _) as [toPreload preloaded] eqn:Hrun.
    apply preload_loop_marks in Hrun as [Hsub Hall].
    assert (preloadedRef
              (if bool_decide (0 < length toPreload)%nat
               then Image_prefetch
                      (mkCall (PreloadAhead currentMax) toPreload)
                      (setPreloadedRef preloaded s)
               else setPreloadedRef preloaded s) = preloaded) as ->
      by (destruct (bool_decide _); reflexivity).
    split; [|exact Hsub].
    intros j Hj Hn. apply Hall; [reader_consts; lia | lia | exact Hn]. }
  split; [exact Hall|]. split; [exact Hsub|].
  unfold preloadImages at 1. rewrite Hurls.
  rewrite preload_loop_nothing_new.
  - simpl. subst s'. unfold preloadImages.
    destruct (preload_loop _ _ _ _ _ _) as [toPreload preloaded].
    destruct (bool_decide _); reflexivity.
  - intros j Hj Hw Hn. apply Hall; [lia | exact Hn].
Qed.

End PreloadFacts.

(* ===================================================================== *)
(** ** Phases of a session *)
(* ===================================================================== *)

Module SessionFacts.
Import Reader Session.

Lemma preloadImages_control (currentMax : Z) (s : state) :
  control_untouched s (preloadImages currentMax s).
Proof.
  unfold preloadImages.
  destruct (preload_loop _ _ _ _ _ _) as [toPreload preloaded].
  destruct (bool_decide _); split; reflexivity.
Qed.

Lemma visibility_effect_control (s : state) :
  control_untouched s (visibility_effect s).
Proof.
  unfold visibility_effect.
  destruct (pageCount s =? 0); [split; reflexivity|].
  destruct (_ <? _).
  - destruct (preloadImages_control
                (Math_max_with0 (elements (visibleIndices s)))
                (setLoadedBatchEnd
                   (Z.min (pageCount s)
                      (Z.max (loadedBatchEnd s)
                         (Math_max_with0 (elements (visibleIndices s))
                          + LOAD_AHEAD_COUNT + 1))) s)).
    split; assumption.
  - apply preloadImages_control.
Qed.

(** One commit, as far as the restore machinery is concerned: the effect
    runs exactly when its dependencies changed and arms one timer exactly
    when its guard holds. *)
Lemma run_effects_restore (s : state) :
  let s' := run_effects s in
  allPageUrls s' = allPageUrls s /\
  loading s' = loading s /\
  initialScrollDone s' = initialScrollDone s /\
  savedStartPageRef s' = savedStartPageRef s /\
  pendingRetry s' = pendingRetry s /\
  scrollLog s' = scrollLog s /\
  restoreDeps s' = restore_deps_now s /\
  pendingRestore s'
  = (if decide (restore_deps_now s = restoreDeps s) then pendingRestore s
     else if restore_guard s then S (pendingRestore s)
          else pendingRestore s).
Proof.
  unfold run_effects.
  set (s1 := if decide (restore_deps_now s = restoreDeps s) then s
             else restore_effect (setRestoreDeps (restore_deps_now s) s)).
  assert (allPageUrls s1 = allPageUrls s /\
          loading s1 = loading s /\
          initialScrollDone s1 = initialScrollDone s /\
          savedStartPageRef s1 = savedStartPageRef s /\
          pendingRetry s1 = pendingRetry s /\
          scrollLog s1 = scrollLog s /\
          restoreDeps s1 = restore_deps_now s /\
          pendingRestore s1
          = (if decide (restore_deps_now s = restoreDeps s)
             then pendingRestore s
             else if restore_guard s then S (pendingRestore s)
                  else pendingRestore s))
    as (H1 & H2 & H3 & H4 & H5 & H6 & H7 & H8).
  { subst s1. destruct (decide _) as [Heq|Hne].
    - repeat split; try reflexivity. symmetry. exact Heq.
    - unfold restore_effect, restore_guard. simpl.
      change (pageCount (setRestoreDeps (restore_deps_now s) s))
        with (pageCount s).
      destruct (_ && _); repeat split; reflexivity. }
  clearbody s1.
  destruct (decide (visibility_deps_now s1 = visibilityDeps s1)).
  - repeat split; assumption.
  - destruct (visibility_effect_control
                (setVisibilityDeps (visibility_deps_now s1) s1))
      as [G1 G2 G3 G4 G5 G6 G7 G8].
    simpl in *. repeat split; congruence.
Qed.

(** Handlers of the quiet events other than the restore timer. *)
Lemma quiet_handler_control (routeChapterId : string) (e : event)
    (s : state) :
  quiet_event e -> is_restore_timer e = false ->
  loading s = false -> pendingRetry s = [] ->
  control_untouched s (handle routeChapterId e s).
Proof.
  intros Hq Ht Hl Hr.
  destruct e; simpl in Hq, Ht; try contradiction; try discriminate; simpl.
  - split; simpl; try reflexivity. congruence.
  - unfold onViewableItemsChanged. destruct (bool_decide _).
    + destruct (_ !! _); split; reflexivity.
    + split; reflexivity.
  - unfold onEndReached. destruct (_ <? _); split; reflexivity.
  - unfold retry_timeout. rewrite Hr. split; reflexivity.
Qed.

Lemma armed_step (routeChapterId : string) (saved : Z) (s : state)
    (e : event) :
  quiet_event e -> armed saved s ->
  if is_restore_timer e
  then scrolled_to saved (step routeChapterId s e)
  else armed saved (step routeChapterId s e).
Proof.
  intros Hq [Hl Hd Hs Ht Hr Hlog Hdeps]. unfold step.
  destruct (is_restore_timer e) eqn:He.
  - destruct e; try discriminate. simpl. rewrite Ht.
    destruct (run_effects_restore (restore_timeout (setPendingRestore 0 s)))
      as (_ & _ & G3 & _ & G5 & G6 & _ & G8).
    split.
    + rewrite G3. reflexivity.
    + rewrite G8. destruct (decide _); [reflexivity|].
      unfold restore_guard. simpl. rewrite !andb_false_r. reflexivity.
    + rewrite G5. simpl. exact Hr.
    + rewrite G6. simpl. rewrite Hlog, Hs. reflexivity.
  - destruct (quiet_handler_control routeChapterId e s Hq He Hl Hr)
      as [C1 C2 C3 C4 C5 C6 C7 C8].
    destruct (run_effects_restore (handle routeChapterId e s))
      as (G1 & G2 & G3 & G4 & G5 & G6 & G7 & G8).
    assert (restore_deps_now (handle routeChapterId e s)
            = restoreDeps (handle routeChapterId e s)) as Hsame.
    { rewrite C8, Hdeps. unfold restore_deps_now. congruence. }
    split; try congruence.
    + rewrite G8. destruct (decide _); [congruence | contradiction].
    + rewrite G7. unfold restore_deps_now. congruence.
Qed.

Lemma scrolled_step (routeChapterId : string) (saved : Z) (s : state)
    (e : event) :
  quiet_event e -> scrolled_to saved s ->
  scrolled_to saved (step routeChapterId s e).
Proof.
  intros Hq [Hd Ht Hr Hlog]. unfold step.
  assert (initialScrollDone (handle routeChapterId e s) = true /\
          pendingRestore (handle routeChapterId e s) = 0%nat /\
          pendingRetry (handle routeChapterId e s) = [] /\
          scrollLog (handle routeChapterId e s) = [saved])
    as (H1 & H2 & H3 & H4).
  { destruct e; simpl in Hq; try contradiction; simpl.
    - repeat split; assumption.
    - unfold onViewableItemsChanged. destruct (bool_decide _).
      + destruct (_ !! _); repeat split; assumption.
      + repeat split; assumption.
    - unfold onEndReached. destruct (_ <? _); repeat split; assumption.
    - rewrite Ht. repeat split; assumption.
    - unfold retry_timeout. rewrite Hr. repeat split; assumption. }
  destruct (run_effects_restore (handle routeChapterId e s))
    as (_ & _ & G3 & _ & G5 & G6 & _ & G8).
  split; try congruence.
  rewrite G8. destruct (decide _); [exact H2|].
  unfold restore_guard. rewrite H1. simpl.
  rewrite ?andb_false_r. simpl. exact H2.
Qed.

Lemma scrolled_run (routeChapterId : string) (saved : Z) (es : list event) :
  forall s, Forall quiet_event es -> scrolled_to saved s ->
            scrolled_to saved (run routeChapterId es s).
Proof.
  induction es as [|e es IH]; intros s Hq Hs; [exact Hs|].
  inversion Hq; subst. simpl. apply IH; [assumption|].
  now apply scrolled_step.
Qed.

Lemma armed_run (routeChapterId : string) (saved : Z) (es : list event) :
  forall s, Forall quiet_event es -> armed saved s ->
            if existsb is_restore_timer es
            then scrolled_to saved (run routeChapterId es s)
            else armed saved (run routeChapterId es s).
Proof.
  induction es as [|e es IH]; intros s Hq Ha; [exact Ha|].
  inversion Hq as [|? ? He Hes]; subst. simpl.
  pose proof (armed_step routeChapterId saved s e He Ha) as Hstep.
  destruct (is_restore_timer e); simpl.
  - now apply scrolled_run.
  - now apply IH.
Qed.

(** The state after a successful load of a non-empty page list. *)
Lemma loaded_state (routeChapterId : string)
    (savedProgress : option ReadingProgress) (pageUrls : list string) :
  pageUrls <> [] ->
  let start := match savedProgress with
               | Some p => if String.eqb (chapterId p) routeChapterId
                           then page p else 0
               | None => 0
               end in
  let s := run routeChapterId
             [LoadResolved savedProgress pageUrls; LoadFinally] mounted in
  allPageUrls s = pageUrls /\ loading s = false /\
  initialScrollDone s = false /\ savedStartPageRef s = start /\
  pendingRetry s = [] /\ scrollLog s = [] /\
  restoreDeps s = restore_deps_now s /\
  pendingRestore s = (if 0 <? start then 1%nat else 0%nat).
Proof.
  intros Hne start s.
  set (s1 := handle routeChapterId (LoadResolved savedProgress pageUrls)
               mounted).
  assert (0 < Z.of_nat (length pageUrls)) as Hlen
    by (destruct pageUrls; [contradiction | simpl; lia]).
  assert (allPageUrls s1 = pageUrls /\ loading s1 = true /\
          initialScrollDone s1 = false /\ savedStartPageRef s1 = start /\
          pendingRetry s1 = [] /\ scrollLog s1 = [] /\
          restoreDeps s1 = (true, 0%nat, false) /\
          pendingRestore s1 = 0%nat)
    as (A1 & A2 & A3 & A4 & A5 & A6 & A7 & A8).
  { subst s1 start. simpl. unfold loadChapter_resolved.
    destruct (Z.ltb_spec 0 (Z.of_nat (length pageUrls))) as [_|]; [|lia].
    destruct savedProgress as [p|]; [destruct (String.eqb _ _)|];
      repeat split; reflexivity. }
  set (s2 := run_effects s1).
  destruct (run_effects_restore s1)
    as (B1 & B2 & B3 & B4 & B5 & B6 & B7 & B8).
  fold s2 in B1, B2, B3, B4, B5, B6, B7, B8.
  assert (pendingRestore s2 = 0%nat) as B8'.
  { rewrite B8. destruct (decide _); [exact A8|].
    unfold restore_guard. rewrite A2. simpl. exact A8. }
  set (s3 := handle routeChapterId LoadFinally s2).
  assert (s = run_effects s3) as -> by reflexivity.
  destruct (run_effects_restore s3)
    as (C1 & C2 & C3 & C4 & C5 & C6 & C7 & C8).
  subst s3. simpl in *.
  repeat split; try congruence.
  - rewrite C7. unfold restore_deps_now. simpl. congruence.
  - rewrite C8. unfold restore_deps_now, restore_guard, pageCount. simpl.
    rewrite B7, B1, B3, B4, A1, A3, A4, B8'. unfold restore_deps_now.
    rewrite A1, A2, A3.
    destruct (decide ((false, length pageUrls, false)
                      = (true, length pageUrls, false))) as [Heq|_];
      [inversion Heq|].
    destruct (Z.ltb_spec 0 (Z.of_nat (length pageUrls))) as [_|]; [|lia].
    reflexivity.
Qed.

(** The saved position is restored at most once per load, and only to the
    saved page.  A non-empty page list is loaded with saved progress of
    this chapter at a page [p > 0].  Over every continuation by
    viewability, end-of-list and timer events (no reload, no scroll
    failure), the scroll commands issued are: none as long as the restore
    timer has not fired, and exactly one scroll-to-index(p) from then
    on. *)
Theorem saved_page_restored_once (routeChapterId : string)
    (saved : ReadingProgress) (pageUrls : list string) (es : list event) :
  pageUrls <> [] ->
  chapterId saved = routeChapterId ->
  0 < page saved ->
  Forall quiet_event es ->
  let loaded :=
    run routeChapterId [LoadResolved (Some saved) pageUrls; LoadFinally]
        mounted in
  scrollLog (run routeChapterId es loaded)
  = (if existsb is_restore_timer es then [page saved] else []).
Proof.
  intros Hne Hc Hp Hq loaded.
  destruct (loaded_state routeChapterId (Some saved) pageUrls Hne)
    as (A1 & A2 & A3 & A4 & A5 & A6 & A7 & A8).
  fold loaded in A1, A2, A3, A4, A5, A6, A7, A8.
  rewrite Hc, String.eqb_refl in A4, A8.
  destruct (Z.ltb_spec 0 (page saved)) as [_|]; [|lia].
  assert (armed (page saved) loaded) as Harmed by (split; assumption).
  pose proof (armed_run routeChapterId (page saved) es loaded Hq Harmed)
    as Hrun.
  destruct (existsb is_restore_timer es); destruct Hrun; assumption.
Qed.

Lemma saved_page_restored_once_witness :
  scrollLog
    (run "chapter"
       [ViewableItemsChanged [mkToken true (Some 0)]; RestoreTimerFires;
        EndReached; RestoreTimerFires]
       (run "chapter"
          [LoadResolved (Some progress_at_12) twenty_pages; LoadFinally]
          mounted))
  = [12].
Proof.
  apply (saved_page_restored_once "chapter" progress_at_12 twenty_pages
           [ViewableItemsChanged [mkToken true (Some 0)]; RestoreTimerFires;
            EndReached; RestoreTimerFires]).
  - discriminate.
  - reflexivity.
  - reflexivity.
  - repeat constructor.
Defined.

(** A commit keeps the boundary between its old value and the larger of
    that value and the page count. *)
Lemma run_effects_boundary (s : state) :
  loadedBatchEnd s <= loadedBatchEnd (run_effects s)
  <= Z.max (loadedBatchEnd s) (pageCount s).
Proof.
  unfold run_effects.
  set (s1 := if decide (restore_deps_now s = restoreDeps s) then s
             else restore_effect (setRestoreDeps (restore_deps_now s) s)).
  assert (loadedBatchEnd s1 = loadedBatchEnd s /\ pageCount s1 = pageCount s)
    as [Hb Hn].
  { subst s1. destruct (decide _); [split; reflexivity|].
    unfold restore_effect. destruct (_ && _); split; reflexivity. }
  clearbody s1. rewrite <- Hb, <- Hn.
  destruct (decide _); [lia|].
  set (s2 := setVisibilityDeps (visibility_deps_now s1) s1).
  change (loadedBatchEnd s1) with (loadedBatchEnd s2).
  change (pageCount s1) with (pageCount s2).
  destruct (Z.eq_dec (pageCount s2) 0) as [H0|HN].
  - unfold visibility_effect. rewrite H0. simpl. lia.
  - destruct (WindowFacts.visibility_effect_boundary s2 HN) as [_ ->]. lia.
Qed.

Lemma unsaved_step (routeChapterId : string) (s : state) (e : event) :
  quiet_event e -> unsaved s ->
  unsaved (step routeChapterId s e) /\
  pageCount (step routeChapterId s e) = pageCount s.
Proof.
  intros Hq [Hs Ht Hr Hlog Hup Hlo]. unfold step.
  assert (savedStartPageRef (handle routeChapterId e s) = 0 /\
          pendingRestore (handle routeChapterId e s) = 0%nat /\
          pendingRetry (handle routeChapterId e s) = [] /\
          scrollLog (handle routeChapterId e s) = [] /\
          pageCount (handle routeChapterId e s) = pageCount s /\
          loadedBatchEnd s <= loadedBatchEnd (handle routeChapterId e s)
          <= pageCount s)
    as (H1 & H2 & H3 & H4 & H5 & H6).
  { destruct e; simpl in Hq; try contradiction; simpl.
    - repeat split; try assumption; lia.
    - unfold onViewableItemsChanged. destruct (bool_decide _).
      + destruct (_ !! _); repeat split; try assumption; simpl; lia.
      + repeat split; try assumption; lia.
    - unfold onEndReached.
      destruct (Z.ltb_spec (loadedBatchEnd s) (pageCount s));
        repeat split; try assumption; simpl; reader_consts; lia.
    - rewrite Ht. repeat split; try assumption; lia.
    - unfold retry_timeout. rewrite Hr. repeat split; try assumption; lia. }
  destruct (run_effects_restore (handle routeChapterId e s))
    as (G1 & _ & _ & G4 & G5 & G6 & _ & G8).
  pose proof (run_effects_boundary (handle routeChapterId e s)) as Hb.
  assert (pageCount (run_effects (handle routeChapterId e s)) = pageCount s)
    as Hn by (unfold pageCount in *; rewrite G1; exact H5).
  split; [|exact Hn].
  split; try congruence.
  - rewrite G8. destruct (decide _); [exact H2|].
    unfold restore_guard. rewrite H1. simpl.
    rewrite ?andb_false_r. exact H2.
  - rewrite Hn. lia.
  - rewrite Hn. lia.
Qed.

Lemma unsaved_run (routeChapterId : string) (es : list event) :
  forall s, Forall quiet_event es -> unsaved s ->
            unsaved (run routeChapterId es s) /\
            pageCount (run routeChapterId es s) = pageCount s.
Proof.
  induction es as [|e es IH]; intros s Hq Hs; [split; [exact Hs | reflexivity]|].
  inversion Hq; subst. simpl.
  destruct (unsaved_step routeChapterId s e) as [Hu Hn]; try assumption.
  destruct (IH _ ltac:(assumption) Hu) as [Hu' Hn'].
  split; [exact Hu' | congruence].
Qed.

(** Without a saved page nothing is ever scrolled to and the boundary
    stays inside the list.  A non-empty page list is loaded with no saved
    progress.  Over every continuation by viewability, end-of-list and
    timer events (no reload, no scroll failure): no scroll command is
    issued, no restore timer is armed, and the batch boundary stays
    between min(N, 5) and the page count N. *)
Theorem unsaved_session_stays_in_list (routeChapterId : string)
    (pageUrls : list string) (es : list event) :
  pageUrls <> [] ->
  Forall quiet_event es ->
  let s := run routeChapterId es
             (run routeChapterId [LoadResolved None pageUrls; LoadFinally]
                  mounted) in
  scrollLog s = [] /\ pendingRestore s = 0%nat /\
  Z.min (Z.of_nat (length pageUrls)) INITIAL_BATCH_SIZE <= loadedBatchEnd s
  <= Z.of_nat (length pageUrls).
Proof.
  intros Hne Hq.
  set (loaded := run routeChapterId [LoadResolved None pageUrls; LoadFinally]
                     mounted).
  destruct (loaded_state routeChapterId None pageUrls Hne)
    as (A1 & A2 & A3 & A4 & A5 & A6 & A7 & A8).
  fold loaded in A1, A2, A3, A4, A5, A6, A7, A8. simpl in A4, A8.
  assert (0 < Z.of_nat (length pageUrls)) as Hlen
    by (destruct pageUrls; [contradiction | simpl; lia]).
  assert (Z.min (Z.of_nat (length pageUrls)) INITIAL_BATCH_SIZE
          <= loadedBatchEnd loaded <= Z.of_nat (length pageUrls)) as Hb.
  { subst loaded. simpl. unfold step. simpl.
    set (s1 := loadChapter_resolved routeChapterId None pageUrls mounted).
    assert (loadedBatchEnd s1
            = Z.min (Z.of_nat (length pageUrls)) INITIAL_BATCH_SIZE /\
            pageCount s1 = Z.of_nat (length pageUrls)) as [Hb1 Hn1].
    { subst s1. unfold loadChapter_resolved.
      destruct (Z.ltb_spec 0 (Z.of_nat (length pageUrls))) as [_|]; [|lia].
      simpl. split; [|reflexivity]. reader_consts. lia. }
    pose proof (run_effects_boundary s1) as Hr1.
    destruct (run_effects_restore s1) as (G1 & _).
    set (s2 := run_effects s1) in *.
    pose proof (run_effects_boundary (loadChapter_finally s2)) as Hr2.
    change (loadedBatchEnd (loadChapter_finally s2))
      with (loadedBatchEnd s2) in Hr2.
    change (pageCount (loadChapter_finally s2)) with (pageCount s2) in Hr2.
    assert (pageCount s2 = Z.of_nat (length pageUrls)) as Hn2
      by (unfold pageCount in *; rewrite G1; exact Hn1).
    lia. }
  assert (pageCount loaded = Z.of_nat (length pageUrls)) as Hn
    by (unfold pageCount; rewrite A1; reflexivity).
  assert (unsaved loaded) as Hu.
  { split; try assumption; rewrite ?Hn; lia. }
  destruct (unsaved_run routeChapterId es loaded Hq Hu) as [[] Hn'].
  rewrite Hn', Hn in *. repeat split; assumption || lia.
Qed.

Lemma unsaved_session_stays_in_list_witness :
  let s := run "chapter"
             [ViewableItemsChanged [mkToken true (Some 18)]; EndReached;
              RestoreTimerFires]
             (run "chapter" [LoadResolved None twenty_pages; LoadFinally]
                  mounted) in
  scrollLog s = [] /\ pendingRestore s = 0%nat /\
  Z.min (Z.of_nat (length twenty_pages)) INITIAL_BATCH_SIZE
  <= loadedBatchEnd s <= Z.of_nat (length twenty_pages).
Proof.
  apply (unsaved_session_stays_in_list "chapter" twenty_pages
           [ViewableItemsChanged [mkToken true (Some 18)]; EndReached;
            RestoreTimerFires]).
  - discriminate.
  - repeat constructor.
Defined.

Lemma idle_step (routeChapterId : string) (s : state) (e : event) :
  quiet_event e -> idle s -> idle (step routeChapterId s e).
Proof.
  intros Hq [Hu Ht Hr Hlog Hpf Hb]. unfold step.
  assert (idle (handle routeChapterId e s)) as [H1 H2 H3 H4 H5 H6].
  { destruct e; simpl in Hq; try contradiction; simpl.
    - split; assumption.
    - unfold onViewableItemsChanged. destruct (bool_decide _).
      + destruct (_ !! _); split; assumption.
      + split; assumption.
    - unfold onEndReached, pageCount. rewrite Hu, Hb. simpl.
      split; assumption.
    - rewrite Ht. split; assumption.
    - unfold retry_timeout. rewrite Hr. split; assumption. }
  set (h := handle routeChapterId e s) in *.
  unfold run_effects.
  set (s1 := if decide (restore_deps_now h = restoreDeps h) then h
             else restore_effect (setRestoreDeps (restore_deps_now h) h)).
  assert (idle s1) as [I1 I2 I3 I4 I5 I6].
  { subst s1. destruct (decide _); [split; assumption|].
    unfold restore_effect, pageCount. simpl. rewrite H1. simpl.
    rewrite andb_false_r. simpl. split; assumption. }
  clearbody s1.
  destruct (decide _); [split; assumption|].
  unfold visibility_effect, pageCount. simpl. rewrite I1. simpl.
  split; assumption.
Qed.

(** An empty chapter fetches nothing.  When the page source yields no
    page (or the load fails before any page list is installed), then over
    every continuation by viewability, end-of-list and timer events the
    page list stays empty, no prefetch and no scroll command is issued,
    and the batch boundary stays at its initial value, even if a saved
    page was read from the progress store. *)
Theorem empty_chapter_fetches_nothing (routeChapterId : string)
    (e0 : event) (es : list event) :
  (exists saved, e0 = LoadResolved saved []) \/ e0 = LoadFailed ->
  Forall quiet_event es ->
  let s := run routeChapterId (e0 :: es) mounted in
  allPageUrls s = [] /\ prefetchLog s = [] /\ scrollLog s = [] /\
  loadedBatchEnd s = INITIAL_BATCH_SIZE.
Proof.
  intros He0 Hq s.
  assert (idle (step routeChapterId mounted e0)) as Hidle.
  { assert (idle (handle routeChapterId e0 mounted)) as [H1 H2 H3 H4 H5 H6].
    { destruct He0 as [[saved ->]| ->]; simpl.
      - unfold loadChapter_resolved. simpl.
        destruct saved as [p|]; [destruct (String.eqb _ _)|];
          split; reflexivity.
      - split; reflexivity. }
    unfold step. set (h := handle routeChapterId e0 mounted) in *.
    unfold run_effects.
    set (s1 := if decide (restore_deps_now h = restoreDeps h) then h
               else restore_effect (setRestoreDeps (restore_deps_now h) h)).
    assert (idle s1) as [I1 I2 I3 I4 I5 I6].
    { subst s1. destruct (decide _); [split; assumption|].
      unfold restore_effect, pageCount. simpl. rewrite H1. simpl.
      rewrite andb_false_r. simpl. split; assumption. }
    clearbody s1.
    destruct (decide _); [split; assumption|].
    unfold visibility_effect, pageCount. simpl. rewrite I1. simpl.
    split; assumption. }
  assert (idle s) as [].
  { subst s. simpl. revert Hidle Hq.
    generalize (step routeChapterId mounted e0).
    induction es as [|e es IH]; intros s0 Hidle Hq; [exact Hidle|].
    inversion Hq; subst. simpl. apply IH; [|assumption].
    now apply idle_step. }
  repeat split; assumption.
Qed.

Lemma empty_chapter_fetches_nothing_witness :
  let s := run "chapter"
             [LoadResolved (Some progress_at_12) []; LoadFinally;
              ViewableItemsChanged [mkToken true (Some 0)]; EndReached]
             mounted in
  allPageUrls s = [] /\ prefetchLog s = [] /\ scrollLog s = [] /\
  loadedBatchEnd s = INITIAL_BATCH_SIZE.
Proof.
  apply (empty_chapter_fetches_nothing "chapter"
           (LoadResolved (Some progress_at_12) [])
           [LoadFinally; ViewableItemsChanged [mkToken true (Some 0)];
            EndReached]).
  - left. eexists. reflexivity.
  - repeat constructor.
Defined.

End SessionFacts.

(* ===================================================================== *)
(** ** Chunks of a tall page: metadata and placement *)
(* ===================================================================== *)

Module ChunkLayoutFacts.
Import Chunks Geometry.

Lemma planned_lookup (w h c : Z) (n : nat) :
  forall i k x,
    planned w h c n i !! k = Some x ->
    x = chunk_at w h c (i + Z.of_nat k) /\ (k < n)%nat.
Proof.
  induction n as [|n IH]; intros i k x Hk; simpl in Hk; [discriminate|].
  destruct k as [|k]; simpl in Hk.
  - injection Hk as <-. split; [f_equal; lia | lia].
  - destruct (IH _ _ _ Hk) as [-> Hlt]. split; [f_equal; lia | lia].
Qed.

(** Every chunk of a tall image carries its own position, the number of
    chunks, the image size and the source row it starts at, and its
    height is between 1 and the chunk height constant; the number of
    chunks is [ceil(h / 190)]. *)
Theorem chunk_metadata_consistent (w h : Z) :
  0 < w -> 0 < h -> TALL_IMAGE_THRESHOLD * w <= h ->
  Z.of_nat (length (calculateChunks w h))
  = Math_ceil (js_div h CHUNK_HEIGHT_PX) /\
  forall (k : nat) (c : ChunkData),
    calculateChunks w h !! k = Some c ->
    chunkIndex c = Z.of_nat k /\
    totalChunks c = Z.of_nat (length (calculateChunks w h)) /\
    startY c = Z.of_nat k * CHUNK_HEIGHT_PX /\
    originalWidth c = w /\ originalHeight c = h /\
    0 < chunkHeight c <= CHUNK_HEIGHT_PX.
Proof.
  intros Hw Hh Htall.
  destruct (ChunkFacts.calculateChunks_tall w h Hw Hh Htall)
    as (Hpos & Hc & ->).
  set (c := Math_ceil (js_div h CHUNK_HEIGHT_PX)) in *.
  rewrite ChunkFacts.planned_length.
  split; [lia|].
  intros k x Hk. apply planned_lookup in Hk as [-> Hlt].
  simpl. reader_consts. repeat split; lia.
Qed.

Lemma chunk_metadata_consistent_witness :
  Z.of_nat (length (calculateChunks 100 500))
  = Math_ceil (js_div 500 CHUNK_HEIGHT_PX) /\
  chunkIndex (mkChunk 2 3 380 120 100 500) = Z.of_nat 2 /\
  totalChunks (mkChunk 2 3 380 120 100 500)
  = Z.of_nat (length (calculateChunks 100 500)) /\
  startY (mkChunk 2 3 380 120 100 500) = Z.of_nat 2 * CHUNK_HEIGHT_PX /\
  originalWidth (mkChunk 2 3 380 120 100 500) = 100 /\
  originalHeight (mkChunk 2 3 380 120 100 500) = 500 /\
  0 < chunkHeight (mkChunk 2 3 380 120 100 500) <= CHUNK_HEIGHT_PX.
Proof.
  assert (0 < 100) as Hw by lia.
  assert (0 < 500) as Hh by lia.
  assert (TALL_IMAGE_THRESHOLD * 100 <= 500) as Htall
    by (vm_compute; discriminate).
  destruct (chunk_metadata_consistent 100 500 Hw Hh Htall) as [Hlen Hall].
  split; [exact Hlen|].
  apply (Hall 2%nat). reflexivity.
Defined.

Local Open Scope Q_scope.

Lemma place_chunks_at_source_rows (pageOffsetY scale : Q)
    (cs : list ChunkData) :
  forall (y : Z) (cumulative : Q),
    contiguous_from y cs ->
    cumulative == inject_Z y * scale ->
    Forall (fun '(c, chunkOffsetY) =>
              chunkOffsetY == pageOffsetY + inject_Z (startY c) * scale)
           (place_chunks pageOffsetY scale cumulative cs).
Proof.
  induction cs as [|c cs IH]; intros y cum Hcont Hcum; simpl;
    [constructor|].
  destruct Hcont as (Hy & _ & Hrest).
  constructor.
  - rewrite Hy, Hcum. reflexivity.
  - apply (IH (y + chunkHeight c)%Z); [exact Hrest|].
    rewrite Hcum, inject_Z_plus. ring.
Qed.

Lemma cumulative_after_sum (scale : Q) (cs : list ChunkData) :
  forall cumulative,
    cumulative_after scale cumulative cs
    == cumulative + inject_Z (sum_heights cs) * scale.
Proof.
  induction cs as [|c cs IH]; intros cum; simpl.
  - change (inject_Z 0) with 0. ring.
  - rewrite IH.
    change (sum_heights (c :: cs))
      with (chunkHeight c + sum_heights cs)%Z.
    rewrite inject_Z_plus. ring.
Qed.

Lemma page_onLoad_tall (SCREEN_WIDTH SCREEN_HEIGHT : Q)
    (fitMode : ImageFitMode) (w h : Z) :
  (0 < w)%Z -> (0 < h)%Z -> (TALL_IMAGE_THRESHOLD * w <= h)%Z ->
  page_onLoad SCREEN_WIDTH SCREEN_HEIGHT fitMode w h
  = Some (mkReport (inject_Z h * chunk_scale SCREEN_WIDTH fitMode w) true
                   (calculateChunks w h)).
Proof.
  intros Hw Hh Htall.
  destruct (ChunkFacts.calculateChunks_tall w h Hw Hh Htall)
    as (Hpos & _ & Hplan).
  unfold page_onLoad.
  destruct (Z.eqb_spec w 0) as [|_]; [lia|].
  destruct (Z.eqb_spec h 0) as [|_]; [lia|]. simpl.
  rewrite bool_decide_eq_true_2; [reflexivity|].
  rewrite Hplan.
  destruct (Z.to_nat (Math_ceil (js_div h CHUNK_HEIGHT_PX))) eqn:En;
    [lia | simpl; lia].
Qed.

Lemma chunk_scale_nonneg (SCREEN_WIDTH : Q) (fitMode : ImageFitMode)
    (w : Z) :
  0 <= SCREEN_WIDTH -> (0 < w)%Z -> 0 <= chunk_scale SCREEN_WIDTH fitMode w.
Proof.
  intros HW Hw.
  assert (0 <= SCREEN_WIDTH / inject_Z w) as Hdiv.
  { apply Qle_shift_div_l.
    - change 0 with (inject_Z 0). rewrite <- Zlt_Qlt. exact Hw.
    - rewrite Qmult_0_l. exact HW. }
  destruct fitMode; simpl; try exact Hdiv. discriminate.
Qed.

(** The chunks are placed in the order of the plan, none above the top of
    the page, and none above the chunk before it. *)
Lemma place_chunks_ordered (pageOffsetY scale : Q) (cs : list ChunkData) :
  0 <= scale ->
  forall (y : Z) (cumulative : Q),
    contiguous_from y cs ->
    (place_chunks pageOffsetY scale cumulative cs).*1 = cs /\
    Forall (fun chunkOffsetY => pageOffsetY + cumulative <= chunkOffsetY)
           (place_chunks pageOffsetY scale cumulative cs).*2 /\
    (forall (k : nat) (above below : Q),
       (place_chunks pageOffsetY scale cumulative cs).*2 !! k = Some above ->
       (place_chunks pageOffsetY scale cumulative cs).*2 !! S k
       = Some below ->
       above <= below).
Proof.
  intros Hscale. induction cs as [|c cs IH]; intros y cum Hcont.
  - split; [reflexivity|]. split; [constructor|]. intros k a b Hk.
    destruct k; discriminate.
  - destruct Hcont as (_ & Hpos & Hrest).
    cbn [place_chunks]. rewrite !fmap_cons. cbn [fst snd].
    assert (0 <= inject_Z (chunkHeight c) * scale) as Hstep.
    { apply Qmult_le_0_compat; [|exact Hscale].
      change 0 with (inject_Z 0). rewrite <- Zle_Qle. lia. }
    set (step := inject_Z (chunkHeight c) * scale) in *.
    destruct (IH _ (cum + step) Hrest) as (Hfst & Hlow & Hsorted).
    set (rest := place_chunks pageOffsetY scale (cum + step) cs) in *.
    split; [rewrite Hfst; reflexivity|]. split.
    + constructor; [apply Qle_refl|].
      eapply Forall_impl; [exact Hlow|]. intros off Hoff. simpl in Hoff.
      lra.
    + intros k a b Ha Hb. destruct k as [|k].
      * injection Ha as <-.
        rewrite Forall_lookup in Hlow.
        specialize (Hlow 0%nat b Hb). simpl in Hlow. lra.
      * exact (Hsorted k a b Ha Hb).
Qed.

(** How a tall page is laid out.  For a tall image, [onLoad] reports the
    height [imgHeight * scale], the tall flag and the planned chunks.  The
    chunk list rendered from them holds the chunks in plan order, the
    first at the page's own offset, and no chunk starts above the top of
    the page or above the chunk before it.  In the fit mode 'none', where
    nothing is scaled, each chunk starts at [pageOffsetY + startY] and the
    running offset after the last chunk is the image height. *)
Theorem tall_page_layout (SCREEN_WIDTH SCREEN_HEIGHT pageOffsetY : Q)
    (fitMode : ImageFitMode) (w h : Z) :
  (0 < w)%Z -> (0 < h)%Z -> (TALL_IMAGE_THRESHOLD * w <= h)%Z ->
  0 <= SCREEN_WIDTH ->
  let chunks := calculateChunks w h in
  let scale := chunk_scale SCREEN_WIDTH fitMode w in
  let placed := place_chunks pageOffsetY scale 0 chunks in
  page_onLoad SCREEN_WIDTH SCREEN_HEIGHT fitMode w h
  = Some (mkReport (inject_Z h * scale) true chunks) /\
  placed.*1 = chunks /\
  (exists rest, placed.*2 = (pageOffsetY + 0) :: rest) /\
  Forall (fun chunkOffsetY => pageOffsetY <= chunkOffsetY) placed.*2 /\
  (forall (k : nat) (above below : Q),
     placed.*2 !! k = Some above -> placed.*2 !! S k = Some below ->
     above <= below) /\
  (fitMode = none ->
   Forall (fun '(c, chunkOffsetY) =>
             chunkOffsetY == pageOffsetY + inject_Z (startY c)) placed /\
   cumulative_after scale 0 chunks == inject_Z h).
Proof.
  intros Hw Hh Htall HW chunks scale placed.
  destruct (ChunkFacts.calculateChunks_tall w h Hw Hh Htall)
    as (Hpos & Hc & Hplan).
  set (c := Math_ceil (js_div h CHUNK_HEIGHT_PX)) in *.
  destruct (Z.to_nat c) as [|n] eqn:En; [lia|].
  assert (Z.of_nat (S n) = c) as Hn by lia.
  assert (contiguous_from 0 chunks) as Hcont.
  { subst chunks. rewrite Hplan.
    apply (ChunkFacts.planned_contiguous w h c (S n) 0). lia. }
  assert (sum_heights chunks = h) as Hsum.
  { subst chunks. rewrite Hplan.
    rewrite (ChunkFacts.planned_sum w h c n 0) by lia. lia. }
  assert (0 <= scale) as Hscale by now apply chunk_scale_nonneg.
  destruct (place_chunks_ordered pageOffsetY scale chunks Hscale 0%Z 0 Hcont)
    as (Hfst & Hlow & Hsorted).
  fold placed in Hfst, Hlow, Hsorted.
  split; [now apply page_onLoad_tall|].
  split; [exact Hfst|]. split.
  { subst placed. destruct chunks as [|c0 cs] eqn:Hcs.
    - subst chunks. rewrite Hplan in Hcs. discriminate.
    - simpl. eexists. reflexivity. }
  split.
  { eapply Forall_impl; [exact Hlow|]. intros off Hoff. simpl in Hoff.
    lra. }
  split; [exact Hsorted|].
  intros Hmode. subst scale. rewrite Hmode. simpl. split.
  - subst placed. rewrite Hmode. simpl.
    pose proof (place_chunks_at_source_rows pageOffsetY 1 chunks 0%Z 0
                  Hcont) as Hrows.
    eapply Forall_impl; [apply Hrows; reflexivity|].
    intros [c0 off] Hoff. simpl in *. rewrite Hoff. ring.
  - rewrite cumulative_after_sum, Hsum. ring.
Qed.

Lemma tall_page_layout_witness :
  let placed :=
    place_chunks 0 (chunk_scale 360 contain 100) 0 (calculateChunks 100 500)
  in
  placed.*1 = calculateChunks 100 500 /\
  Forall (fun chunkOffsetY => 0 <= chunkOffsetY) placed.*2.
Proof.
  intros placed.
  destruct (tall_page_layout 360 640 0 contain 100 500)
    as (_ & Hfst & _ & Hlow & _).
  - reflexivity.
  - reflexivity.
  - vm_compute. discriminate.
  - vm_compute. discriminate.
  - split; [exact Hfst | exact Hlow].
Defined.

(** What a loaded page reports.  A zero width or height reports nothing.
    Otherwise, in the contain and none modes the reported height is
    [getContainerHeight] of the image whether or not the page is tall, and
    the tall flag is set exactly when height/width reaches the
    threshold. *)
Theorem page_onLoad_reports_container_height
    (SCREEN_WIDTH SCREEN_HEIGHT : Q) (fitMode : ImageFitMode) (w h : Z) :
  (page_onLoad SCREEN_WIDTH SCREEN_HEIGHT fitMode 0 h = None /\
   page_onLoad SCREEN_WIDTH SCREEN_HEIGHT fitMode w 0 = None) /\
  ((0 < w)%Z -> (0 < h)%Z -> fitMode <> cover ->
   exists r,
     page_onLoad SCREEN_WIDTH SCREEN_HEIGHT fitMode w h = Some r /\
     report_height r
     == getContainerHeight SCREEN_WIDTH SCREEN_HEIGHT w h fitMode /\
     report_tall r = (TALL_IMAGE_THRESHOLD * w <=? h)%Z /\
     report_chunks r = calculateChunks w h).
Proof.
  split.
  - split; unfold page_onLoad; simpl; [reflexivity|].
    destruct (w =? 0)%Z; reflexivity.
  - intros Hw Hh Hmode.
    destruct (Z.leb_spec (TALL_IMAGE_THRESHOLD * w) h) as [Htall|Hshort].
    + pose proof (page_onLoad_tall SCREEN_WIDTH SCREEN_HEIGHT
                    fitMode w h Hw Hh Htall) as Hload.
      eexists. split; [exact Hload|]. simpl.
      split; [|split; reflexivity].
      destruct fitMode; simpl; try contradiction; try ring.
    + unfold page_onLoad.
      destruct (Z.eqb_spec w 0) as [|_]; [lia|].
      destruct (Z.eqb_spec h 0) as [|_]; [lia|]. simpl.
      rewrite (ChunkFacts.calculateChunks_short w h Hw Hshort). simpl.
      eexists. split; [reflexivity|]. simpl.
      repeat split; reflexivity.
Qed.

Lemma page_onLoad_reports_container_height_witness :
  exists r,
    page_onLoad 360 640 contain 100 300 = Some r /\
    report_height r == getContainerHeight 360 640 100 300 contain /\
    report_tall r = false /\ report_chunks r = [].
Proof.
  destruct (page_onLoad_reports_container_height 360 640 contain 100 300)
    as [_ Hload].
  destruct Hload as (r & Hr & Hh & Ht & Hc);
    [reflexivity | reflexivity | discriminate |].
  exists r. repeat split; assumption.
Defined.

End ChunkLayoutFacts.

(* ===================================================================== *)
(** ** Chunk windows, page offsets, scroll tracking, scroll distance *)
(* ===================================================================== *)

Module GeometryFacts.
Import Chunks Geometry.

Local Open Scope Q_scope.

Lemma Q_ltb_lt (a b : Q) : Q_ltb a b = true <-> a < b.
Proof.
  unfold Q_ltb. destruct (Qlt_le_dec a b) as [Hlt|Hle].
  - split; [intros _; exact Hlt | reflexivity].
  - split; [discriminate | intros Hlt; lra].
Qed.

(** A chunk that counts as visible (and gets high priority) is always
    loaded: the load window contains the visibility window. *)
Theorem visible_chunk_is_loaded (SCREEN_WIDTH SCREEN_HEIGHT : Q)
    (p : chunk_props) :
  0 <= SCREEN_HEIGHT ->
  isChunkVisible SCREEN_WIDTH SCREEN_HEIGHT p = true ->
  shouldLoadChunk SCREEN_WIDTH SCREEN_HEIGHT p = true.
Proof.
  intros HH Hvis. unfold isChunkVisible, shouldLoadChunk in *.
  apply andb_true_iff in Hvis as [Ht Hb].
  apply Q_ltb_lt in Ht. apply Q_ltb_lt in Hb.
  apply andb_true_intro. split; apply Q_ltb_lt; lra.
Qed.

Lemma visible_chunk_is_loaded_witness :
  shouldLoadChunk 360 640
    (mkChunkProps "u" (mkChunk 0 3 0 190 100 500) 0 0 100 contain) = true.
Proof.
  apply (visible_chunk_is_loaded 360 640); vm_compute;
    reflexivity || discriminate.
Defined.

(** *** Page offsets *)

Section Offsets.
Variable SCREEN_WIDTH : Q.

Local Abbreviation height := (height_or_estimate SCREEN_WIDTH).
Local Abbreviation loop := (offset_loop SCREEN_WIDTH).

Lemma offset_loop_from (m : gmap Z Q) (index : Z) (fuel : nat) :
  forall i offset, loop fuel m index i offset == offset + loop fuel m index i 0.
Proof.
  induction fuel as [|fuel IH]; intros i offset; simpl; [ring|].
  destruct (i <? index)%Z; [|ring].
  rewrite (IH _ (offset + height m i)), (IH _ (0 + height m i)). ring.
Qed.

(** One more page: the loop over [index + 1] pages is the loop over
    [index] pages plus the height of page [index]. *)
Lemma offset_loop_next (m : gmap Z Q) (fuel : nat) :
  forall i index,
    (Z.of_nat fuel = index - i)%Z ->
    loop (S fuel) m (index + 1) i 0
    == loop fuel m index i 0 + height m index.
Proof.
  induction fuel as [|fuel IH]; intros i index Hn.
  - simpl. destruct (Z.ltb_spec i (index + 1)) as [_|]; [|lia].
    assert (i = index) as -> by lia. ring.
  - change (loop (S (S fuel)) m (index + 1) i 0)
      with (if (i <? index + 1)%Z
            then loop (S fuel) m (index + 1) (i + 1) (0 + height m i)
            else 0).
    change (loop (S fuel) m index i 0)
      with (if (i <? index)%Z
            then loop fuel m index (i + 1) (0 + height m i)
            else 0).
    destruct (Z.ltb_spec i (index + 1)) as [_|]; [|lia].
    destruct (Z.ltb_spec i index) as [_|]; [|lia].
    rewrite (offset_loop_from m (index + 1) (S fuel)),
            (offset_loop_from m index fuel).
    rewrite IH by lia. ring.
Qed.

(** Offsets are the running sum of the heights: the offset of page 0 (or
    of any index below it) is 0, each later offset is the previous one
    plus the previous page's length, and the layout handed to the host
    list carries the same offset as [getPageOffsetY]. *)
Theorem page_offsets_are_running_sums (m : gmap Z Q) (index : Z) :
  ((index <= 0)%Z -> getPageOffsetY SCREEN_WIDTH m index = 0) /\
  layout_offset (getItemLayout SCREEN_WIDTH m index)
  = getPageOffsetY SCREEN_WIDTH m index /\
  ((0 <= index)%Z ->
   layout_offset (getItemLayout SCREEN_WIDTH m (index + 1))
   == layout_offset (getItemLayout SCREEN_WIDTH m index)
      + layout_length (getItemLayout SCREEN_WIDTH m index)).
Proof.
  split; [|split].
  - intros Hle. unfold getPageOffsetY.
    replace (Z.to_nat index) with 0%nat by lia. reflexivity.
  - reflexivity.
  - intros Hge. unfold getItemLayout. simpl.
    replace (Z.to_nat (index + 1)) with (S (Z.to_nat index)) by lia.
    apply offset_loop_next. lia.
Qed.

Lemma height_after_load (m : gmap Z Q) (k j : Z) (h : Q) :
  j <> k ->
  height (handleImageLoad k h m) j = height m j.
Proof.
  intros Hne. unfold height_or_estimate, handleImageLoad.
  rewrite lookup_insert_ne by congruence. reflexivity.
Qed.

Lemma offset_loop_after_load (m : gmap Z Q) (k : Z) (h : Q) (index : Z)
    (fuel : nat) :
  forall i,
    (Z.of_nat fuel = index - i)%Z ->
    loop fuel (handleImageLoad k h m) index i 0
    == loop fuel m index i 0
       + (if ((i <=? k) && (k <? index))%Z
          then height (handleImageLoad k h m) k - height m k
          else 0).
Proof.
  induction fuel as [|fuel IH]; intros i Hn.
  - simpl. destruct (Z.leb_spec i k), (Z.ltb_spec k index); simpl;
      try ring. lia.
  - simpl. destruct (Z.ltb_spec i index) as [_|]; [|lia].
    rewrite (offset_loop_from (handleImageLoad k h m)),
            (offset_loop_from m).
    rewrite IH by lia.
    destruct (Z.eq_dec i k) as [->|Hne].
    + destruct (Z.leb_spec k k) as [_|]; [|lia].
      destruct (Z.ltb_spec k index) as [_|]; [|lia].
      destruct (Z.leb_spec (k + 1) k) as [|_]; [lia|]. simpl. ring.
    + rewrite (height_after_load m k i h Hne).
      destruct (Z.leb_spec i k), (Z.leb_spec (i + 1) k),
               (Z.ltb_spec k index); simpl; try ring; lia.
Qed.

(** Recording the height of page [k] never moves the pages up to [k],
    and moves the later pages the way the height went.  The heights of
    the other pages are unchanged, a non-zero recorded height is the one
    used for page [k], the offsets of the pages up to and including [k]
    are unchanged, and the offset of every page is at least what it was
    when page [k] did not get shorter, at most what it was when page [k]
    did not get taller. *)
Theorem handleImageLoad_shifts_later_pages (m : gmap Z Q) (k : Z) (h : Q)
    (index : Z) :
  let m' := handleImageLoad k h m in
  (forall j, j <> k -> height m' j = height m j) /\
  (~ h == 0 -> height m' k = h) /\
  ((index <= k)%Z ->
   getPageOffsetY SCREEN_WIDTH m' index == getPageOffsetY SCREEN_WIDTH m index)
  /\
  (height m k <= height m' k ->
   getPageOffsetY SCREEN_WIDTH m index <= getPageOffsetY SCREEN_WIDTH m' index)
  /\
  (height m' k <= height m k ->
   getPageOffsetY SCREEN_WIDTH m' index <= getPageOffsetY SCREEN_WIDTH m index).
Proof.
  intros m'.
  assert ((0 < index)%Z ->
          getPageOffsetY SCREEN_WIDTH m' index
          == getPageOffsetY SCREEN_WIDTH m index
             + (if ((0 <=? k) && (k <? index))%Z
                then height m' k - height m k else 0)) as Hshift.
  { intros Hpos. unfold getPageOffsetY. subst m'.
    apply offset_loop_after_load. lia. }
  assert ((index <= 0)%Z ->
          getPageOffsetY SCREEN_WIDTH m' index = 0 /\
          getPageOffsetY SCREEN_WIDTH m index = 0) as Hzero.
  { intros Hle. unfold getPageOffsetY.
    replace (Z.to_nat index) with 0%nat by lia. split; reflexivity. }
  split; [|split; [|split; [|split]]].
  - intros j Hne. now apply height_after_load.
  - intros Hnz. unfold height_or_estimate. subst m'.
    unfold handleImageLoad. rewrite lookup_insert_eq.
    destruct (Qeq_bool h 0) eqn:Hz; [|reflexivity].
    apply Qeq_bool_iff in Hz. contradiction.
  - intros Hle.
    destruct (Z.le_gt_cases index 0) as [H0|Hpos].
    + destruct (Hzero H0) as [-> ->]. reflexivity.
    + rewrite Hshift by lia.
      destruct (Z.leb_spec 0 k), (Z.ltb_spec k index); simpl;
        try ring; lia.
  - intros Hup.
    destruct (Z.le_gt_cases index 0) as [H0|Hpos].
    + destruct (Hzero H0) as [-> ->]. apply Qle_refl.
    + rewrite Hshift by lia.
      destruct ((0 <=? k) && (k <? index))%Z; lra.
  - intros Hdown.
    destruct (Z.le_gt_cases index 0) as [H0|Hpos].
    + destruct (Hzero H0) as [-> ->]. apply Qle_refl.
    + rewrite Hshift by lia.
      destruct ((0 <=? k) && (k <? index))%Z; lra.
Qed.

End Offsets.

Lemma handleImageLoad_shifts_later_pages_witness :
  getPageOffsetY 360 ∅ 3 <= getPageOffsetY 360 (handleImageLoad 1 800 ∅) 3.
Proof.
  destruct (handleImageLoad_shifts_later_pages 360 ∅ 1 800 3)
    as (_ & _ & _ & Hup & _).
  apply Hup. vm_compute. discriminate.
Defined.

Lemma page_offsets_are_running_sums_witness :
  layout_offset (getItemLayout 360 (handleImageLoad 1 800 ∅) (1 + 1))
  == layout_offset (getItemLayout 360 (handleImageLoad 1 800 ∅) 1)
     + layout_length (getItemLayout 360 (handleImageLoad 1 800 ∅) 1).
Proof.
  apply (page_offsets_are_running_sums 360 (handleImageLoad 1 800 ∅) 1).
  lia.
Defined.

End GeometryFacts.

(* ===================================================================== *)
(** ** Scroll tracking and the volume-key scroll distance *)
(* ===================================================================== *)

Module ScrollFacts.
Import Geometry.

Local Open Scope Q_scope.

Lemma Q_geb_false (a b : Q) : Q_geb a b = false <-> a < b.
Proof.
  unfold Q_geb. destruct (Qlt_le_dec a b) as [Hlt|Hle].
  - split; [intros _; exact Hlt | reflexivity].
  - split; [discriminate | intros Hlt; lra].
Qed.

Lemma handleScroll_tracked (offsetY : Q) (s : scroll_state) :
  lastScrollOffsetRef s == scrollOffset s ->
  scroll_tracked (handleScroll offsetY s).
Proof.
  intros Hlast. unfold scroll_tracked, handleScroll.
  cbn [lastScrollOffsetRef scrollOffset currentScrollOffsetRef].
  destruct (Q_geb (Qabs (offsetY - lastScrollOffsetRef s))
                  SCROLL_UPDATE_THRESHOLD) eqn:Hmoved.
  - split; [reflexivity|].
    assert (offsetY - offsetY == 0) as -> by ring.
    vm_compute. reflexivity.
  - split; [exact Hlast|].
    apply Q_geb_false in Hmoved. rewrite <- Hlast. exact Hmoved.
Qed.

(** The scroll offset the chunk windows are computed from never lags the
    real offset by 100 px or more.  From the initial state, over every
    sequence of scroll samples and presses, the two copies of the
    last-published offset agree and differ from the latest sample by less
    than the update threshold; and right after a scroll sample the header
    is shown exactly when the offset is at most 50. *)
Theorem scroll_offset_lags_by_less_than_threshold (es : list scroll_event) :
  scroll_tracked (foldl scroll_step scroll_initial es) /\
  (forall offsetY,
     let s := foldl scroll_step scroll_initial (es ++ [Scrolled offsetY]) in
     currentScrollOffsetRef s = offsetY /\
     showHeader s = negb (Q_ltb 50 offsetY)).
Proof.
  assert (forall s, scroll_tracked s ->
                    scroll_tracked (foldl scroll_step s es)) as Hrun.
  { induction es as [|e es IH]; intros s Hs; [exact Hs|].
    simpl. apply IH. destruct e; simpl.
    - apply handleScroll_tracked. apply Hs.
    - exact Hs. }
  split.
  - apply Hrun. split; [reflexivity|]. vm_compute. reflexivity.
  - intros offsetY. rewrite foldl_app. simpl. split; [reflexivity|].
    destruct (Q_ltb 50 offsetY);
      destruct (showHeader (foldl scroll_step scroll_initial es));
      reflexivity.
Qed.

Lemma normalized_sensitivity_range (sensitivity : Q) :
  10 <= Qmax 10 (Qmin 100 sensitivity) <= 100.
Proof.
  destruct (Q.max_spec 10 (Qmin 100 sensitivity)) as [[? ->]|[? ->]];
    destruct (Q.min_spec 100 sensitivity) as [[? Hm]|[? Hm]];
    rewrite ?Hm in *; lra.
Qed.

Lemma normalized_sensitivity_monotone (s1 s2 : Q) :
  s1 <= s2 -> Qmax 10 (Qmin 100 s1) <= Qmax 10 (Qmin 100 s2).
Proof.
  intros Hle.
  apply Q.max_le_compat_l. apply Q.min_le_compat_l. exact Hle.
Qed.

Lemma scroll_amount_linear (n : Q) :
  100 + (n - 10) / 90 * (400 - 100) == n * (10 # 3) + (200 # 3).
Proof. field. Qed.

(** The volume-key scroll distance stays between 100 and 400 px, grows
    with the sensitivity, is 100 at sensitivity 10 and below and 400 at
    100 and above, and is the same in the screen and in the hook.  A
    scroll-up never targets a negative offset; a scroll-down moves
    forward by that distance. *)
Theorem scroll_amount_range (sensitivity current : Q) :
  (100 <= calculateScrollAmount sensitivity <= 400) /\
  (forall s2, sensitivity <= s2 ->
     calculateScrollAmount sensitivity <= calculateScrollAmount s2) /\
  (sensitivity <= 10 -> calculateScrollAmount sensitivity == 100) /\
  (100 <= sensitivity -> calculateScrollAmount sensitivity == 400) /\
  getScrollAmount sensitivity = calculateScrollAmount sensitivity /\
  0 <= handleVolumeScrollUp sensitivity current /\
  handleVolumeScrollDown sensitivity current
  == current + calculateScrollAmount sensitivity.
Proof.
  pose proof (normalized_sensitivity_range sensitivity) as Hn.
  assert (forall s, calculateScrollAmount s
                    == Qmax 10 (Qmin 100 s) * (10 # 3) + (200 # 3)) as Hlin
    by (intros s; unfold calculateScrollAmount; apply scroll_amount_linear).
  split; [|split; [|split; [|split; [|split; [|split]]]]].
  - rewrite Hlin. lra.
  - intros s2 Hle. rewrite !Hlin.
    pose proof (normalized_sensitivity_monotone sensitivity s2 Hle). lra.
  - intros Hlow. rewrite Hlin.
    assert (Qmax 10 (Qmin 100 sensitivity) == 10) as ->; [|lra].
    rewrite Q.min_r by lra. apply Q.max_l. exact Hlow.
  - intros Hhigh. rewrite Hlin.
    assert (Qmax 10 (Qmin 100 sensitivity) == 100) as ->; [|lra].
    rewrite Q.min_l by lra. apply Q.max_r. lra.
  - reflexivity.
  - unfold handleVolumeScrollUp. apply Q.le_max_l.
  - reflexivity.
Qed.

Lemma scroll_amount_range_witness :
  calculateScrollAmount 5 == 100 /\ calculateScrollAmount 250 == 400.
Proof.
  split.
  - apply (scroll_amount_range 5 0). lra.
  - apply (scroll_amount_range 250 0). lra.
Defined.

End ScrollFacts.

(* ===================================================================== *)
(** ** Volume-key bridge, continued *)
(* ===================================================================== *)

Module VolumeLockFacts.
Import VolumeScroll VolumeSession.

(** While the handler is locked, a report changes nothing, however many
    listeners it reaches. *)
Lemma deliver_locked (installed : list subscription) (volume : float)
    (r : refs) :
  isHandlingRef r = true -> deliver installed volume r = (r, [], 0%nat).
Proof.
  intros Hlock. induction installed as [|e rest IH]; [reflexivity|].
  cbn [deliver].
  assert ((if is_listening e then handleVolumeChange true volume r
           else (r, [])) = (r, [])) as ->.
  { destruct (is_listening e); [|reflexivity].
    unfold handleVolumeChange. rewrite Hlock. reflexivity. }
  rewrite IH. reflexivity.
Qed.

(** The first installed listener fires and locks; the others see the
    lock. *)
Lemma deliver_fires (installed : list subscription)
    (newVolume lastVolume : float) :
  Exists (fun e => e = Listening) installed ->
  (NOISE_THRESHOLD <? PrimFloat.abs (newVolume - lastVolume))%float = true ->
  deliver installed newVolume
    {| lastVolumeRef := Some lastVolume; isHandlingRef := false |}
  = ({| lastVolumeRef := Some lastVolume; isHandlingRef := true |},
     [ if (0 <? newVolume - lastVolume)%float then ScrollDown else ScrollUp;
       SetVolume lastVolume ], 1%nat).
Proof.
  intros Hsome Hd. induction installed as [|e rest IH].
  - inversion Hsome.
  - cbn [deliver]. destruct (is_listening e) eqn:He.
    + rewrite (VolumeFacts.handleVolumeChange_fires newVolume lastVolume)
        by (reflexivity || exact Hd).
      rewrite deliver_locked by reflexivity.
      rewrite bool_decide_eq_false_2 by discriminate. reflexivity.
    + rewrite IH.
      * rewrite bool_decide_eq_true_2 by reflexivity. reflexivity.
      * inversion Hsome as [? ? Hhead|? ? Htail]; [|exact Htail].
        subst e. discriminate.
Qed.

(** Nothing is delivered where no listener is installed. *)
Lemma deliver_silent (installed : list subscription) (volume : float)
    (r : refs) :
  Forall (fun e => e = Removed \/ e = Abandoned) installed ->
  deliver installed volume r = (r, [], 0%nat).
Proof.
  induction 1 as [|e rest He _ IH]; [reflexivity|].
  destruct He as [-> | ->]; cbn [deliver is_listening]; rewrite IH;
    reflexivity.
Qed.

Lemma locked_reports (levels : list float) :
  forall h,
    isHandlingRef (hook_refs h) = true ->
    hook_run (map VolumeReported levels) h
    = mkHook (hook_refs h) (effects h) (cleanup_pending h)
        (handling_timers h) (issued h).
Proof.
  induction levels as [|v levels IH]; intros h Hlock.
  - destruct h; reflexivity.
  - change (hook_run (map VolumeReported (v :: levels)) h)
      with (hook_run (map VolumeReported levels) (volume_reported v h)).
    assert (volume_reported v h
            = mkHook (hook_refs h) (effects h) (cleanup_pending h)
                (handling_timers h) (issued h)) as Hstep.
    { unfold volume_reported. rewrite deliver_locked by exact Hlock.
      rewrite Nat.add_0_r, app_nil_r. reflexivity. }
    rewrite Hstep. rewrite IH by exact Hlock. reflexivity.
Qed.

Lemma silent_step (h : hook) (e : hook_event) :
  keeps_disabled e -> silent h ->
  silent (hook_step h e) /\ issued (hook_step h e) = issued h.
Proof.
  unfold silent. intros He Hs. destruct e as [[|]| | | | |]; simpl in *.
  - contradiction.
  - unfold commit. split; [|destruct (cleanup_pending h); reflexivity].
    destruct (cleanup_pending h); simpl; [|exact Hs].
    apply Forall_alter; [exact Hs|].
    intros e _ [-> | ->]; [left | right]; reflexivity.
  - unfold volume_read.
    destruct (effects h !! k) as [e|] eqn:Hk; [|split; [exact Hs|reflexivity]].
    rewrite Forall_lookup in Hs. pose proof (Hs _ _ Hk) as [-> | ->];
      (split; [apply Forall_lookup; exact Hs | reflexivity]).
  - unfold volume_read_failed.
    destruct (effects h !! k) as [e|] eqn:Hk; [|split; [exact Hs|reflexivity]].
    rewrite Forall_lookup in Hs. pose proof (Hs _ _ Hk) as [-> | ->];
      (split; [apply Forall_lookup; exact Hs | reflexivity]).
  - unfold listener_refused.
    destruct (effects h !! k) as [e|] eqn:Hk; [|split; [exact Hs|reflexivity]].
    rewrite Forall_lookup in Hs. pose proof (Hs _ _ Hk) as [-> | ->];
      (split; [apply Forall_lookup; exact Hs | reflexivity]).
  - unfold volume_reported. rewrite deliver_silent by exact Hs.
    simpl. split; [exact Hs | apply app_nil_r].
  - unfold handling_timer_fires.
    destruct (handling_timers h); split; try exact Hs; reflexivity.
Qed.

Lemma silent_run (es : list hook_event) :
  forall h,
    Forall keeps_disabled es -> silent h ->
    issued (hook_run es h) = issued h.
Proof.
  induction es as [|e es IH]; intros h Hes Hs; [reflexivity|].
  inversion Hes; subst.
  destruct (silent_step h e) as [Hs' Hi]; [assumption..|].
  change (hook_run (e :: es) h) with (hook_run es (hook_step h e)).
  rewrite IH by assumption. exact Hi.
Qed.

Lemma leaked_step (k : nat) (h : hook) (e : hook_event) :
  leaked k h -> leaked k (hook_step h e).
Proof.
  intros [Hk Hlast].
  pose proof (lookup_lt_Some _ _ _ Hk) as Hlt.
  destruct e as [enabled| j v | j | j v | v |]; simpl.
  - unfold commit, leaked.
    assert ((if cleanup_pending h
             then alter cleanup_of (pred (length (effects h))) (effects h)
             else effects h) !! k = Some Listening /\
            length (if cleanup_pending h
                    then alter cleanup_of (pred (length (effects h)))
                           (effects h)
                    else effects h) = length (effects h)) as [Hk1 Hlen1].
    { destruct (cleanup_pending h).
      - specialize (Hlast eq_refl).
        rewrite list_lookup_alter_ne by lia.
        rewrite length_alter. split; [exact Hk | reflexivity].
      - split; [exact Hk | reflexivity]. }
    destruct enabled; simpl.
    + split.
      * rewrite lookup_app_l by lia. exact Hk1.
      * intros _. rewrite length_app. simpl. lia.
    + split; [exact Hk1 | discriminate].
  - unfold volume_read.
    destruct (effects h !! j) as [[| | |]|] eqn:Hj;
      try (split; assumption).
    split; simpl.
    + rewrite list_lookup_insert_ne by (intros ->; congruence). exact Hk.
    + rewrite length_insert. exact Hlast.
  - unfold volume_read_failed.
    destruct (effects h !! j) as [[| | |]|] eqn:Hj;
      try (split; assumption).
    split; simpl.
    + rewrite list_lookup_insert_ne by (intros ->; congruence). exact Hk.
    + rewrite length_insert. exact Hlast.
  - unfold listener_refused.
    destruct (effects h !! j) as [[| | |]|] eqn:Hj;
      try (split; assumption).
    split; simpl.
    + rewrite list_lookup_insert_ne by (intros ->; congruence). exact Hk.
    + rewrite length_insert. exact Hlast.
  - unfold volume_reported.
    destruct (deliver _ _ _) as [[r c] n]. split; assumption.
  - unfold handling_timer_fires.
    destruct (handling_timers h); split; assumption.
Qed.

Lemma leaked_run (k : nat) (es : list hook_event) :
  forall h, leaked k h -> leaked k (hook_run es h).
Proof.
  induction es as [|e es IH]; intros h Hl; [exact Hl|].
  change (hook_run (e :: es) h) with (hook_run es (hook_step h e)).
  apply IH. now apply leaked_step.
Qed.

(** One press, one scroll, and what disabling does.
    (1) With at least one listener installed, a level that differs from
    the remembered one by more than the noise threshold issues one scroll
    command and the reset to the remembered level, once, however many
    listeners are installed, and arms one timer; every level reported
    before the 100 ms timer runs is ignored: no further command, the
    remembered level stays the pre-change one.  When the timer has run, a
    report within the noise threshold of the remembered level (the echo
    of the reset) issues no command and becomes the remembered level.
    (2) A cleanup that finds the listener installed removes it: when
    every earlier run is without listener, no later event short of
    enabling the hook again makes it issue a command.
    (3) A cleanup that runs while [getVolume()] is still pending removes
    nothing: when that read resolves the listener is installed all the
    same, no later event removes it, and a change above the threshold
    still issues its scroll command. *)
Theorem volume_lock_window (newVolume lastVolume : float)
    (levels : list float) (h : hook) (stale : list subscription)
    (es : list hook_event) :
  (NOISE_THRESHOLD <? PrimFloat.abs (newVolume - lastVolume))%float = true ->
  (Exists (fun e => e = Listening) (effects h) ->
   hook_refs h = {| lastVolumeRef := Some lastVolume;
                    isHandlingRef := false |} ->
   let fired := hook_step h (VolumeReported newVolume) in
   let locked := hook_run (map VolumeReported levels) fired in
   issued fired
   = issued h ++ [ if (0 <? newVolume - lastVolume)%float
                   then ScrollDown else ScrollUp;
                   SetVolume lastVolume ] /\
   handling_timers fired = S (handling_timers h) /\
   issued locked = issued fired /\
   hook_refs locked = {| lastVolumeRef := Some lastVolume;
                         isHandlingRef := true |} /\
   (forall echo,
      (NOISE_THRESHOLD <? PrimFloat.abs (echo - lastVolume))%float = false ->
      handleVolumeChange true echo
        (hook_refs (hook_step locked HandlingTimerFires))
      = ({| lastVolumeRef := Some echo; isHandlingRef := false |}, []))) /\
  (effects h = stale ++ [Listening] -> cleanup_pending h = true ->
   Forall (fun e => e = Removed \/ e = Abandoned) stale ->
   Forall keeps_disabled es ->
   issued (hook_run es (hook_step h (Commit false))) = issued h) /\
  (effects h = stale ++ [Awaiting] -> cleanup_pending h = true ->
   let k := length stale in
   let late :=
     hook_run [Commit false; VolumeRead k lastVolume] h in
   let later := hook_run es late in
   effects late !! k = Some Listening /\
   effects later !! k = Some Listening /\
   (isHandlingRef (hook_refs h) = false ->
    issued (hook_step late (VolumeReported newVolume))
    = issued h ++ [ if (0 <? newVolume - lastVolume)%float
                    then ScrollDown else ScrollUp;
                    SetVolume lastVolume ])).
Proof.
  intros Hd. split; [|split].
  - intros Hsome Hrefs fired locked.
    assert (fired = mkHook {| lastVolumeRef := Some lastVolume;
                              isHandlingRef := true |}
                      (effects h) (cleanup_pending h)
                      (handling_timers h + 1)
                      (issued h ++ [ if (0 <? newVolume - lastVolume)%float
                                     then ScrollDown else ScrollUp;
                                     SetVolume lastVolume ])) as Hfired.
    { subst fired. simpl. unfold volume_reported.
      rewrite Hrefs, (deliver_fires _ newVolume lastVolume Hsome Hd).
      reflexivity. }
    assert (locked = fired) as Hlocked.
    { subst locked. rewrite locked_reports by (rewrite Hfired; reflexivity).
      rewrite Hfired. reflexivity. }
    rewrite Hlocked, Hfired. simpl.
    split; [reflexivity|]. split; [lia|]. split; [reflexivity|].
    split; [reflexivity|].
    intros echo Hecho. unfold handling_timer_fires. simpl.
    replace (handling_timers h + 1)%nat with (S (handling_timers h)) by lia.
    simpl. unfold handleVolumeChange, handling_timeout. simpl.
    rewrite Hecho. reflexivity.
  - intros Heff Hpending Hstale Hes.
    assert (silent (hook_step h (Commit false))) as Hsilent.
    { unfold silent. simpl. unfold commit. rewrite Hpending. simpl.
      rewrite Heff, length_app. simpl.
      replace (pred (length stale + 1)) with (length stale + 0)%nat by lia.
      rewrite alter_app_r. simpl.
      apply Forall_app. split; [exact Hstale|].
      constructor; [left; reflexivity | constructor]. }
    rewrite (silent_run es _ Hes Hsilent). reflexivity.
  - intros Heff Hpending k late later.
    assert (late = mkHook {| lastVolumeRef := Some lastVolume;
                             isHandlingRef := isHandlingRef (hook_refs h) |}
                     (stale ++ [Listening]) false (handling_timers h)
                     (issued h)) as Hlate.
    { subst late k. unfold hook_run. simpl. unfold commit.
      rewrite Hpending. simpl. rewrite Heff, length_app. simpl.
      replace (pred (length stale + 1)) with (length stale + 0)%nat by lia.
      rewrite alter_app_r. simpl.
      unfold volume_read. simpl.
      replace (length stale) with (length stale + 0)%nat at 1 by lia.
      rewrite lookup_app_r by lia.
      replace (length stale + 0 - length stale)%nat with 0%nat by lia.
      simpl.
      replace (length stale) with (length stale + 0)%nat at 1 by lia.
      rewrite insert_app_r. reflexivity. }
    assert (leaked k late) as Hleak.
    { rewrite Hlate. split; simpl; [|discriminate].
      subst k. rewrite lookup_app_r by lia.
      replace (length stale - length stale)%nat with 0%nat by lia.
      reflexivity. }
    split; [exact (proj1 Hleak)|].
    split; [exact (proj1 (leaked_run k es late Hleak))|].
    intros Hfree. rewrite Hlate. simpl. unfold volume_reported. simpl.
    rewrite Hfree.
    rewrite (deliver_fires _ newVolume lastVolume) by
      (try exact Hd; apply Exists_app; right; constructor; reflexivity).
    reflexivity.
Qed.

Lemma volume_lock_window_witness :
  let installed :=
    hook_run [Commit true; VolumeRead 0 vol_0_50] hook_initial in
  issued (hook_run (map VolumeReported
                        [vol_0_45; vol_0_50; vol_0_50_jitter; vol_0_45])
            installed)
  = [ScrollUp; SetVolume vol_0_50].
Proof.
  intros installed.
  destruct (volume_lock_window vol_0_45 vol_0_50
              [vol_0_50; vol_0_50_jitter; vol_0_45] installed [] [])
    as [Hlock _]; [reflexivity|].
  destruct Hlock as (Hfired & _ & Hlocked & _).
  - repeat constructor.
  - reflexivity.
  - exact (eq_trans Hlocked Hfired).
Defined.

End VolumeLockFacts.

(* ===================================================================== *)
(** ** Local store, continued *)
(* ===================================================================== *)

Module StoreFacts.
Import Storage Store.

Lemma read_json_mem {A B} (parse : string -> string + A) (use : A -> B)
    (fallback : B) (key : string) (w : world) :
  read_json mem_getItem parse use fallback key w
  = (inr (read_back parse use fallback key w), w).
Proof.
  unfold read_json, try_catch, bind, mem_getItem, parsed_or, read_back, ret,
    throw.
  destruct (items w !! key) as [text|]; [|reflexivity].
  destruct (String.eqb text EmptyString); [reflexivity|].
  destruct (parse text); reflexivity.
Qed.

Section Readers.
Context {World exn : Type}.
Variable AsyncStorage_getItem : string -> @io World exn (option string).
Variable TypeError : exn.
Variable parse_progress : string -> exn + jsvalue.

(** Reading the progress of a manga never fails: whatever the store, the
    parser and the stored value do, the call returns; a failing read, an
    unparsable text and a stored [null] give "no progress"; a stored
    record that holds an entry for the manga gives that entry. *)
Theorem getReadingProgress_never_throws (mangaId : string) (w : World) :
  (exists r, fst (getReadingProgress AsyncStorage_getItem TypeError
                    parse_progress mangaId w) = inr r) /\
  (forall e w',
     AsyncStorage_getItem KEYS_READING_PROGRESS w = (inl e, w') ->
     getReadingProgress AsyncStorage_getItem TypeError parse_progress
       mangaId w = (inr None, w')) /\
  (forall text w',
     AsyncStorage_getItem KEYS_READING_PROGRESS w = (inr (Some text), w') ->
     text <> EmptyString ->
     (forall e, parse_progress text = inl e ->
        getReadingProgress AsyncStorage_getItem TypeError parse_progress
          mangaId w = (inr None, w')) /\
     (parse_progress text = inr JNull ->
      getReadingProgress AsyncStorage_getItem TypeError parse_progress
        mangaId w = (inr None, w')) /\
     (forall entries progress,
        parse_progress text = inr (JRecord entries) ->
        entries !! mangaId = Some progress ->
        getReadingProgress AsyncStorage_getItem TypeError parse_progress
          mangaId w = (inr (Some progress), w'))).
Proof.
  unfold getReadingProgress, try_catch, bind, parse_or_empty, read_entry,
    ret, throw.
  destruct (AsyncStorage_getItem KEYS_READING_PROGRESS w)
    as [[e|[text|]] w0] eqn:Hget.
  - split; [eexists; reflexivity|].
    split; [intros ? ? [= <- <-]; reflexivity|].
    intros; discriminate.
  - split.
    { destruct (String.eqb text EmptyString); [eexists; reflexivity|].
      destruct (parse_progress text) as [?|[| |?]]; eexists; reflexivity. }
    split; [intros; discriminate|].
    intros text' w' [= <- <-] Hne.
    destruct (String.eqb_spec text EmptyString) as [|_]; [contradiction|].
    split; [|split].
    + intros e ->. reflexivity.
    + intros ->. reflexivity.
    + intros entries progress -> Hown. simpl. rewrite Hown. reflexivity.
  - split; [eexists; reflexivity|].
    split; intros; discriminate.
Qed.

End Readers.

(** Save, then read: on a store that keeps what is written, with a stored
    text that parses to a record of entries (or nothing stored yet), and
    provided the text written parses back to the value serialised, the
    progress saved for a manga is what [getReadingProgress] returns for
    it, stamped with the time of the save; the entries of the other manga
    are returned as before; nothing is logged. *)
Theorem saved_progress_is_read_back
    (parse : string -> string + jsvalue) (stringify : jsvalue -> string)
    (progress : ReadingProgress) (w : world)
    (entries : gmap string ReadingProgress) :
  stored_progress parse w = Some entries ->
  let entry := stamped_at (clock w) progress in
  let written := JRecord (<[ mangaId progress := entry ]> entries) in
  parse (stringify written) = inr written ->
  stringify written <> EmptyString ->
  let w1 := snd (saveReadingProgress mem_getItem mem_setItem parse
                   stringify tick log_error "TypeError" progress w) in
  console w1 = console w /\
  fst (getReadingProgress mem_getItem "TypeError" parse
         (mangaId progress) w1) = inr (Some entry) /\
  (forall other, other <> mangaId progress ->
     fst (getReadingProgress mem_getItem "TypeError" parse other w1)
     = inr (entries !! other)).
Proof.
  intros Hstored entry written Hcodec Hne w1.
  assert (w1 = mkWorld (<[ KEYS_READING_PROGRESS := stringify written ]>
                          (items w)) (clock w + 1) (console w)) as Hw1.
  { subst w1. unfold saveReadingProgress, try_catch, save_body, bind,
      mem_getItem, parse_or_empty, stamped, tick, assign_entry, mem_setItem,
      ret, throw.
    unfold stored_progress in Hstored.
    destruct (items w !! KEYS_READING_PROGRESS) as [text|].
    - destruct (String.eqb text EmptyString).
      + injection Hstored as <-. reflexivity.
      + destruct (parse text) as [?|[| |m]]; try discriminate.
        injection Hstored as <-. reflexivity.
    - injection Hstored as <-. reflexivity. }
  assert (forall key,
            fst (getReadingProgress mem_getItem "TypeError"%string parse
                   key w1)
            = inr (<[ mangaId progress := entry ]> entries !! key)) as Hget.
  { intros key. rewrite Hw1.
    unfold getReadingProgress, try_catch, bind, mem_getItem, parse_or_empty,
      read_entry, ret, throw. simpl.
    rewrite lookup_insert_eq.
    destruct (String.eqb_spec (stringify written) EmptyString) as [|_];
      [contradiction|].
    rewrite Hcodec. reflexivity. }
  split; [rewrite Hw1; reflexivity|]. split.
  - rewrite Hget, lookup_insert_eq. reflexivity.
  - intros other Hother. rewrite Hget, lookup_insert_ne by congruence.
    reflexivity.
Qed.

Lemma saved_progress_is_read_back_witness :
  let written :=
    JRecord {[ "manga"%string := stamped_at 1000 some_progress ]} in
  fst (getReadingProgress mem_getItem "TypeError" (parse_one written)
         "manga"
         (snd (saveReadingProgress mem_getItem mem_setItem
                 (parse_one written) say_one tick log_error "TypeError"
                 some_progress fresh_world)))
  = inr (Some (stamped_at 1000 some_progress)).
Proof.
  intros written.
  apply (saved_progress_is_read_back (parse_one written) say_one
           some_progress fresh_world ∅).
  - reflexivity.
  - reflexivity.
  - discriminate.
Defined.

(** *** Capped, most-recent-first lists *)

Section Capped.
Context {A : Type} (P : A -> Prop) `{!forall x, Decision (P x)}.

(** Put [x] first, keep the old entries that satisfy [P], cut to [S n]:
    the shape of [addToHistory] and [addRecentSearch]. *)
Lemma capped_first (n : nat) (x : A) (l : list A) :
  let fresh := x :: filter P l in
  let kept := if (S n <? length fresh)%nat then take (S n) fresh
              else fresh in
  kept = x :: take n (filter P l) /\
  (length kept <= S n)%nat /\
  head kept = Some x /\
  tail kept `sublist_of` l /\
  (forall y, y ∈ tail kept -> P y) /\
  ((length l < S n)%nat -> kept = fresh).
Proof.
  intros fresh kept.
  assert (kept = x :: take n (filter P l)) as ->.
  { subst kept fresh. destruct (Nat.ltb_spec (S n) (length (x :: filter P l)))
      as [Hlong|Hshort]; [reflexivity|].
    simpl in Hshort. rewrite take_ge by lia. reflexivity. }
  assert (take n (filter P l) `sublist_of` filter P l) as Hsub
    by apply sublist_take.
  split; [reflexivity|].
  split; [simpl; rewrite length_take; lia|].
  split; [reflexivity|]. split; [|split].
  - simpl. etransitivity; [exact Hsub | apply sublist_filter].
  - simpl. intros y Hy. eapply elem_of_sublist in Hy; [|exact Hsub].
    apply list_elem_of_filter in Hy. tauto.
  - intros Hlen. subst fresh. f_equal. apply take_ge.
    pose proof (length_filter P l). lia.
Qed.

End Capped.

Section Writers.
Variable parse_history : string -> string + list ReadingHistoryItem.
Variable stringify_history : list ReadingHistoryItem -> string.
Variable parse_strings : string -> string + list string.
Variable stringify_strings : list string -> string.
Variable toLowerCase : string -> string.

(** The reading history is most-recent-first, holds a manga at most once
    more than before, and never more than 50 entries.  On a store that
    keeps what is written, [addToHistory] always succeeds and writes the
    new entry (stamped with the current time) followed by the old entries
    of the other manga, all of them and in their old order, cut after 50
    entries in total: the first 49 old entries of other manga are kept,
    and nothing but the manga's own old entry is lost while the history
    has fewer than 50 entries; if no manga occurred twice before, none
    does afterwards. *)
Theorem addToHistory_recent_first_capped (m : Manga)
    (chapterId chapterNumber : string) (w : world)
    (history : list ReadingHistoryItem) :
  getReadingHistory mem_getItem parse_history w = (inr history, w) ->
  let item := mkHistoryItem m (clock w) chapterId chapterNumber in
  let others := filter (fun h => id (manga h) <> id m) history in
  exists written : list ReadingHistoryItem,
    addToHistory mem_getItem mem_setItem tick parse_history
      stringify_history m chapterId chapterNumber w
    = (inr tt,
       mkWorld (<[ KEYS_READING_HISTORY := stringify_history written ]>
                  (items w)) (clock w + 1) (console w)) /\
    written = item :: take 49 others /\
    ((length history < 50)%nat -> written = item :: others) /\
    (length written <= 50)%nat /\
    head written = Some item /\
    tail written `sublist_of` history /\
    (forall h, h ∈ tail written -> id (manga h) <> id m) /\
    (NoDup ((fun h => id (manga h)) <$> history) ->
     NoDup ((fun h => id (manga h)) <$> written)).
Proof.
  intros Hread item others. exists (history_with history item).
  split.
  { unfold addToHistory, bind. rewrite Hread. unfold now, tick, mem_setItem.
    reflexivity. }
  destruct (capped_first (fun h => id (manga h) <> id (manga item)) 49 item
              history) as (Hexact & Hlen & Hhead & Hsub & Hall & Hshort).
  fold (history_with history item) in Hexact, Hlen, Hhead, Hsub, Hall, Hshort.
  split; [exact Hexact|]. split; [exact Hshort|].
  split; [exact Hlen|]. split; [exact Hhead|]. split; [exact Hsub|].
  split; [exact Hall|].
  intros Hnd.
  destruct (history_with history item) as [|h0 rest] eqn:Hw;
    [constructor|].
  simpl in Hhead, Hsub, Hall. injection Hhead as ->.
  rewrite fmap_cons. apply NoDup_cons. split.
  - intros Hin. apply list_elem_of_fmap in Hin as (h & Hid & Hh).
    apply (Hall h Hh). symmetry. exact Hid.
  - eapply sublist_NoDup; [exact Hnd|]. now apply fmap_sublist.
Qed.

(** Recent searches are most-recent-first, hold the query once up to
    case, and never more than 10 entries.  On a store that keeps what is
    written, [addRecentSearch] always succeeds and writes the query
    followed by the old searches that differ from it up to case, all of
    them and in their old order, cut after 10 entries in total: the first
    9 such searches are kept, and nothing but the query's own old
    spellings is lost while fewer than 10 searches are stored. *)
Theorem addRecentSearch_recent_first_capped (query : string) (w : world)
    (searches : list string) :
  getRecentSearches mem_getItem parse_strings w = (inr searches, w) ->
  let others :=
    filter (fun s => toLowerCase s <> toLowerCase query) searches in
  exists written : list string,
    addRecentSearch mem_getItem mem_setItem parse_strings
      stringify_strings toLowerCase query w
    = (inr tt,
       mkWorld (<[ KEYS_RECENT_SEARCHES := stringify_strings written ]>
                  (items w)) (clock w) (console w)) /\
    written = query :: take 9 others /\
    ((length searches < 10)%nat -> written = query :: others) /\
    (length written <= 10)%nat /\
    head written = Some query /\
    tail written `sublist_of` searches /\
    (forall s, s ∈ tail written -> toLowerCase s <> toLowerCase query).
Proof.
  intros Hread others. exists (searches_with toLowerCase searches query).
  split.
  { unfold addRecentSearch, bind. rewrite Hread. reflexivity. }
  destruct (capped_first (fun s => toLowerCase s <> toLowerCase query) 9
              query searches) as (Hexact & Hlen & Hhead & Hsub & Hall & Hshort).
  fold (searches_with toLowerCase searches query)
    in Hexact, Hlen, Hhead, Hsub, Hall, Hshort.
  repeat split; assumption.
Qed.

End Writers.

Lemma addToHistory_recent_first_capped_witness :
  let w := mkWorld {[ KEYS_READING_HISTORY := one_text ]} 1000 [] in
  let item := mkHistoryItem (manga_numbered 7) 1000 "c9" "9" in
  exists written : list ReadingHistoryItem,
    addToHistory mem_getItem mem_setItem tick (parse_one long_history)
      say_one (manga_numbered 7) "c9" "9" w
    = (inr tt,
       mkWorld (<[ KEYS_READING_HISTORY := one_text ]> (items w)) 1001 []) /\
    length written = 50%nat /\
    written !! 0%nat = Some item /\
    (lastReadAt <$> written !! 7%nat) = Some 6 /\
    (lastReadAt <$> written !! 8%nat) = Some 8 /\
    (lastReadAt <$> written !! 49%nat) = Some 49.
Proof.
  intros w item.
  destruct (addToHistory_recent_first_capped (parse_one long_history)
              say_one (manga_numbered 7) "c9" "9" w long_history)
    as (written & Hrun & Hexact & _).
  - reflexivity.
  - exists written. split; [exact Hrun|].
    rewrite Hexact. vm_compute. repeat split; reflexivity.
Defined.

Lemma addRecentSearch_recent_first_capped_witness :
  let w := mkWorld {[ KEYS_RECENT_SEARCHES := one_text ]} 0 [] in
  exists written : list string,
    addRecentSearch mem_getItem mem_setItem (parse_one long_searches)
      say_one lower "NARUTO" w
    = (inr tt,
       mkWorld (<[ KEYS_RECENT_SEARCHES := one_text ]> (items w)) 0 []) /\
    written
    = ["NARUTO"; "one piece"; "bleach"; "a"; "b"; "c"; "d"; "e"; "f";
       "g"]%string.
Proof.
  intros w.
  destruct (addRecentSearch_recent_first_capped (parse_one long_searches)
              say_one lower "NARUTO" w long_searches)
    as (written & Hrun & Hexact & _).
  - reflexivity.
  - exists written. split; [exact Hrun|].
    rewrite Hexact. vm_compute. reflexivity.
Defined.

(** *** Last read entry *)

(** The last read entry is the latest history entry, and a cleared
    history has none.  On a store that keeps what is written, and
    provided the written history parses back as serialised: after
    [addToHistory] the last read entry is the one just added, stamped
    with the time of the call; after [clearHistory] the history is empty
    and there is no last read entry. *)
Theorem getLastRead_is_latest_entry
    (parse : string -> string + list ReadingHistoryItem)
    (stringify : list ReadingHistoryItem -> string)
    (m : Manga) (chapterId chapterNumber : string) (w : world)
    (history : list ReadingHistoryItem) :
  getReadingHistory mem_getItem parse w = (inr history, w) ->
  let item := mkHistoryItem m (clock w) chapterId chapterNumber in
  let written := history_with history item in
  parse (stringify written) = inr written ->
  stringify written <> EmptyString ->
  let w1 := snd (addToHistory mem_getItem mem_setItem tick parse stringify
                   m chapterId chapterNumber w) in
  let w2 := snd (clearHistory mem_removeItem w1) in
  fst (getLastRead mem_getItem parse w1) = inr (Some item) /\
  fst (clearHistory mem_removeItem w1) = inr tt /\
  fst (getReadingHistory mem_getItem parse w2) = inr [] /\
  fst (getLastRead mem_getItem parse w2) = inr None.
Proof.
  intros Hread item written Hcodec Hne w1 w2.
  assert (getReadingHistory mem_getItem parse w1 = (inr written, w1))
    as Hafter.
  { subst w1. unfold addToHistory, bind. rewrite Hread.
    unfold now, tick, mem_setItem. simpl.
    unfold getReadingHistory. rewrite read_json_mem.
    unfold read_back. simpl. rewrite lookup_insert_eq.
    fold item. fold written.
    destruct (String.eqb_spec (stringify written) EmptyString) as [|_];
      [contradiction|].
    rewrite Hcodec. reflexivity. }
  assert (getReadingHistory mem_getItem parse w2 = (inr [], w2)) as Hcleared.
  { subst w2. unfold clearHistory, mem_removeItem. simpl.
    unfold getReadingHistory. rewrite read_json_mem.
    unfold read_back. simpl. rewrite lookup_delete_eq. reflexivity. }
  split; [|split; [reflexivity|split]].
  - unfold getLastRead, bind. rewrite Hafter. unfold ret, fst. f_equal.
    destruct (capped_first
                (fun h => id (manga h) <> id (manga item)) 49 item history)
      as (_ & _ & Hhead & _).
    exact Hhead.
  - rewrite Hcleared. reflexivity.
  - unfold getLastRead, bind. rewrite Hcleared. reflexivity.
Qed.

Lemma getLastRead_is_latest_entry_witness :
  let item := mkHistoryItem manga_one 1000 "c1" "1" in
  fst (getLastRead mem_getItem (parse_one [item])
         (snd (addToHistory mem_getItem mem_setItem tick
                 (parse_one [item]) say_one manga_one "c1" "1"
                 fresh_world)))
  = inr (Some item).
Proof.
  intros item.
  apply (getLastRead_is_latest_entry (parse_one [item]) say_one manga_one
           "c1" "1" fresh_world []).
  - reflexivity.
  - reflexivity.
  - discriminate.
Defined.

(** *** Read markers *)

Section ReadMarkers.
Context {World exn : Type}.
Variable AsyncStorage_getItem : string -> @io World exn (option string).
Variable AsyncStorage_setItem : string -> string -> @io World exn unit.
Variable parse_strings : string -> exn + list string.
Variable stringify_strings : list string -> string.

Lemma read_json_returns {A B} (parse : string -> exn + A) (use : A -> B)
    (fallback : B) (key : string) (w : World) :
  (exists v w', read_json AsyncStorage_getItem parse use fallback key w
                = (inr v, w')) /\
  (forall e w', AsyncStorage_getItem key w = (inl e, w') ->
     read_json AsyncStorage_getItem parse use fallback key w
     = (inr fallback, w')) /\
  (forall w', AsyncStorage_getItem key w = (inr None, w') ->
     read_json AsyncStorage_getItem parse use fallback key w
     = (inr fallback, w')) /\
  (forall text w',
     AsyncStorage_getItem key w = (inr (Some text), w') ->
     text <> EmptyString ->
     read_json AsyncStorage_getItem parse use fallback key w
     = (inr match parse text with
            | inr v => use v
            | inl _ => fallback
            end, w')).
Proof.
  unfold read_json, try_catch, bind, parsed_or, ret, throw.
  destruct (AsyncStorage_getItem key w) as [[e|[text|]] w0].
  - split; [eexists _, _; reflexivity|].
    split; [intros ? ? [= <- <-]; reflexivity|].
    split; intros; discriminate.
  - split.
    { destruct (String.eqb text EmptyString); [eexists _, _; reflexivity|].
      destruct (parse text); eexists _, _; reflexivity. }
    split; [intros; discriminate|]. split; [intros; discriminate|].
    intros text' w' [= <- <-] Hne.
    destruct (String.eqb_spec text EmptyString) as [|_]; [contradiction|].
    destruct (parse text); reflexivity.
  - split; [eexists _, _; reflexivity|].
    split; [intros; discriminate|].
    split; [intros ? [= <-]; reflexivity|]. intros; discriminate.
Qed.

(** Marking a chapter as read absorbs a failing read but not a failing
    write.  The list of read chapters is always obtained (empty when the
    read fails).  If the chapter is already in it nothing is written;
    otherwise the outcome of [markChapterAsRead] is the outcome of the
    one write of the extended list, so an error thrown by that write is
    thrown to the caller. *)
Theorem markChapterAsRead_propagates_write_failure
    (mangaId chapterId : string) (w : World) :
  exists (readChapters : list string) (w1 : World),
    getReadChapters AsyncStorage_getItem parse_strings mangaId w
    = (inr readChapters, w1) /\
    (forall e w', AsyncStorage_getItem (read_chapters_key mangaId) w
                  = (inl e, w') -> readChapters = [] /\ w1 = w') /\
    (chapterId ∈ readChapters ->
     markChapterAsRead AsyncStorage_getItem AsyncStorage_setItem
       parse_strings stringify_strings mangaId chapterId w = (inr tt, w1)) /\
    (chapterId ∉ readChapters ->
     markChapterAsRead AsyncStorage_getItem AsyncStorage_setItem
       parse_strings stringify_strings mangaId chapterId w
     = AsyncStorage_setItem (read_chapters_key mangaId)
         (stringify_strings (readChapters ++ [chapterId])) w1) /\
    (chapterId ∉ readChapters ->
     forall e w2,
       AsyncStorage_setItem (read_chapters_key mangaId)
         (stringify_strings (readChapters ++ [chapterId])) w1 = (inl e, w2) ->
       markChapterAsRead AsyncStorage_getItem AsyncStorage_setItem
         parse_strings stringify_strings mangaId chapterId w = (inl e, w2)).
Proof.
  destruct (read_json_returns parse_strings (fun l => l) []
              (read_chapters_key mangaId) w)
    as ((l & w1 & Hread) & Hfail & _).
  exists l, w1. fold (getReadChapters AsyncStorage_getItem parse_strings
                        mangaId) in Hread.
  split; [exact Hread|]. split.
  { intros e w' Hget. specialize (Hfail e w' Hget).
    unfold getReadChapters in Hread. rewrite Hfail in Hread.
    injection Hread as <- <-. split; reflexivity. }
  assert (forall b : bool,
            bool_decide (chapterId ∈ l) = b ->
            markChapterAsRead AsyncStorage_getItem AsyncStorage_setItem
              parse_strings stringify_strings mangaId chapterId w
            = if b then (inr tt, w1)
              else AsyncStorage_setItem (read_chapters_key mangaId)
                     (stringify_strings (l ++ [chapterId])) w1) as Hmark.
  { intros b Hb. unfold markChapterAsRead, bind. rewrite Hread, Hb.
    destruct b; reflexivity. }
  split; [|split].
  - intros Hin. apply (Hmark true). now apply bool_decide_eq_true_2.
  - intros Hnin. apply (Hmark false). now apply bool_decide_eq_false_2.
  - intros Hnin e w2 Hset. rewrite <- Hset.
    apply (Hmark false). now apply bool_decide_eq_false_2.
Qed.

End ReadMarkers.

Lemma markChapterAsRead_propagates_write_failure_witness :
  markChapterAsRead mem_getItem failing_setItem
    (fun _ => inl "SyntaxError"%string) (fun _ => one_text)
    "manga" "chapter" fresh_world
  = (inl "QuotaExceeded"%string, fresh_world).
Proof.
  destruct (markChapterAsRead_propagates_write_failure mem_getItem
              failing_setItem (fun _ => inl "SyntaxError"%string)
              (fun _ => one_text) "manga" "chapter" fresh_world)
    as (l & w1 & Hread & _ & _ & _ & Hthrow).
  assert (l = [] /\ w1 = fresh_world) as [-> ->]
    by (vm_compute in Hread; injection Hread as <- <-; split; reflexivity).
  apply Hthrow.
  - apply not_elem_of_nil.
  - reflexivity.
Defined.

(** Marking twice is marking once.  On a store that keeps what is
    written, and provided the list written parses back as serialised,
    after [markChapterAsRead] the chapter is among the read chapters of
    the manga, the chapters read before are still there in their old
    order, and marking the same chapter again changes nothing. *)
Theorem markChapterAsRead_idempotent
    (parse : string -> string + list string)
    (stringify : list string -> string)
    (mangaId chapterId : string) (w : world) (readChapters : list string) :
  getReadChapters mem_getItem parse mangaId w = (inr readChapters, w) ->
  parse (stringify (readChapters ++ [chapterId]))
  = inr (readChapters ++ [chapterId]) ->
  stringify (readChapters ++ [chapterId]) <> EmptyString ->
  let w1 := snd (markChapterAsRead mem_getItem mem_setItem parse stringify
                   mangaId chapterId w) in
  let after := if bool_decide (chapterId ∈ readChapters) then readChapters
               else readChapters ++ [chapterId] in
  getReadChapters mem_getItem parse mangaId w1 = (inr after, w1) /\
  chapterId ∈ after /\
  readChapters `prefix_of` after /\
  markChapterAsRead mem_getItem mem_setItem parse stringify
    mangaId chapterId w1 = (inr tt, w1).
Proof.
  intros Hread Hcodec Hne w1 after.
  assert (getReadChapters mem_getItem parse mangaId w1 = (inr after, w1) /\
          chapterId ∈ after) as [Hafter Hin].
  { subst w1 after. unfold markChapterAsRead, bind. rewrite Hread.
    destruct (bool_decide_reflect (chapterId ∈ readChapters)) as [Hin|Hnin].
    - split; [exact Hread | exact Hin].
    - split.
      + unfold getReadChapters. rewrite read_json_mem.
        unfold read_back, mem_setItem. simpl. rewrite lookup_insert_eq.
        destruct (String.eqb_spec (stringify (readChapters ++ [chapterId]))
                    EmptyString) as [|_]; [contradiction|].
        rewrite Hcodec. reflexivity.
      + apply elem_of_app. right. apply list_elem_of_singleton.
        reflexivity. }
  split; [exact Hafter|]. split; [exact Hin|]. split.
  - subst after. destruct (bool_decide _);
      [reflexivity | now apply prefix_app_r].
  - unfold markChapterAsRead, bind. rewrite Hafter.
    rewrite (bool_decide_eq_true_2 _ Hin). reflexivity.
Qed.

Lemma markChapterAsRead_idempotent_witness :
  let w1 := snd (markChapterAsRead mem_getItem mem_setItem
                   (parse_one ["chapter"%string]) say_one
                   "manga" "chapter" fresh_world) in
  markChapterAsRead mem_getItem mem_setItem
    (parse_one ["chapter"%string]) say_one "manga" "chapter" w1
  = (inr tt, w1).
Proof.
  apply (markChapterAsRead_idempotent (parse_one ["chapter"%string])
           say_one "manga" "chapter" fresh_world []).
  - reflexivity.
  - reflexivity.
  - discriminate.
Defined.

(** *** Bookmarks *)

Lemma has_bookmark_spec (bookmarks : list BookmarkedManga) (key : string) :
  has_bookmark bookmarks key = true <-> key ∈ bookmark_ids bookmarks.
Proof.
  unfold has_bookmark, bookmark_ids. rewrite existsb_exists. split.
  - intros (b & Hb & Heq). apply String.eqb_eq in Heq.
    apply list_elem_of_fmap. exists b. split; [now symmetry|].
    now apply list_elem_of_In.
  - intros Hin. apply list_elem_of_fmap in Hin as (b & -> & Hb).
    exists b. split; [now apply list_elem_of_In | apply String.eqb_refl].
Qed.

Section Bookmarks.
Variable parse : string -> string + list BookmarkedManga.
Variable stringify : list BookmarkedManga -> string.

(** A bookmarked manga is reported as bookmarked, and is stored once.  On
    a store that keeps what is written, and provided the list written
    parses back as serialised: after [addBookmark] the manga is
    bookmarked; if it already was, nothing is written; the other manga
    keep their status; and if no manga was stored twice before, none is
    afterwards. *)
Theorem addBookmark_then_isBookmarked (m : Manga) (w : world)
    (bookmarks : list BookmarkedManga) :
  getBookmarks mem_getItem parse w = (inr bookmarks, w) ->
  let added := mkBookmark m (clock w) :: bookmarks in
  parse (stringify added) = inr added ->
  stringify added <> EmptyString ->
  let w1 := snd (addBookmark mem_getItem mem_setItem tick parse stringify
                   m w) in
  fst (isBookmarked mem_getItem parse (id m) w1) = inr true /\
  (has_bookmark bookmarks (id m) = true -> w1 = w) /\
  (forall other, other <> id m ->
     fst (isBookmarked mem_getItem parse other w1)
     = inr (has_bookmark bookmarks other)) /\
  (NoDup (bookmark_ids bookmarks) ->
   exists stored,
     getBookmarks mem_getItem parse w1 = (inr stored, w1) /\
     NoDup (bookmark_ids stored)).
Proof.
  intros Hread added Hcodec Hne w1.
  set (stored := if has_bookmark bookmarks (id m) then bookmarks else added).
  assert (getBookmarks mem_getItem parse w1 = (inr stored, w1) /\
          (has_bookmark bookmarks (id m) = true -> w1 = w)) as [Hafter Hsame].
  { subst w1 stored. unfold addBookmark, bind. rewrite Hread.
    destruct (has_bookmark bookmarks (id m)) eqn:Hhas; simpl.
    - split; [exact Hread | reflexivity].
    - split; [|discriminate].
      unfold getBookmarks. rewrite read_json_mem.
      unfold read_back. simpl. rewrite lookup_insert_eq.
      fold added.
      destruct (String.eqb_spec (stringify added) EmptyString) as [|_];
        [contradiction|].
      rewrite Hcodec. reflexivity. }
  assert (forall key, fst (isBookmarked mem_getItem parse key w1)
                      = inr (has_bookmark stored key)) as Hquery.
  { intros key. unfold isBookmarked, bind. rewrite Hafter. reflexivity. }
  split; [|split; [exact Hsame|split]].
  - rewrite Hquery. f_equal. subst stored.
    destruct (has_bookmark bookmarks (id m)) eqn:Hhas; [exact Hhas|].
    subst added. simpl. rewrite String.eqb_refl. reflexivity.
  - intros other Hother. rewrite Hquery. f_equal. subst stored.
    destruct (has_bookmark bookmarks (id m)); [reflexivity|].
    subst added. simpl.
    destruct (String.eqb_spec (id m) other) as [Heq|_];
      [congruence | reflexivity].
  - intros Hnd. exists stored. split; [exact Hafter|]. subst stored.
    destruct (has_bookmark bookmarks (id m)) eqn:Hhas; [exact Hnd|].
    subst added. unfold bookmark_ids. rewrite fmap_cons.
    apply NoDup_cons. split; [|exact Hnd]. simpl.
    intros Hin. apply has_bookmark_spec in Hin. congruence.
Qed.

(** A removed bookmark is gone, the others stay.  On a store that keeps
    what is written, and provided the list written parses back as
    serialised: after [removeBookmark] the manga is not bookmarked and
    every other manga has the status it had before. *)
Theorem removeBookmark_then_not_bookmarked (mangaId : string) (w : world)
    (bookmarks : list BookmarkedManga) :
  getBookmarks mem_getItem parse w = (inr bookmarks, w) ->
  let filtered := filter (fun b => id (bm_manga b) <> mangaId) bookmarks in
  parse (stringify filtered) = inr filtered ->
  stringify filtered <> EmptyString ->
  let w1 := snd (removeBookmark mem_getItem mem_setItem parse stringify
                   mangaId w) in
  fst (isBookmarked mem_getItem parse mangaId w1) = inr false /\
  (forall other, other <> mangaId ->
     fst (isBookmarked mem_getItem parse other w1)
     = inr (has_bookmark bookmarks other)).
Proof.
  intros Hread filtered Hcodec Hne w1.
  assert (getBookmarks mem_getItem parse w1 = (inr filtered, w1)) as Hafter.
  { subst w1. unfold removeBookmark, bind. rewrite Hread.
    unfold getBookmarks. rewrite read_json_mem.
    unfold read_back, mem_setItem. simpl. rewrite lookup_insert_eq.
    fold filtered.
    destruct (String.eqb_spec (stringify filtered) EmptyString) as [|_];
      [contradiction|].
    rewrite Hcodec. reflexivity. }
  assert (forall key, fst (isBookmarked mem_getItem parse key w1)
                      = inr (has_bookmark filtered key)) as Hquery.
  { intros key. unfold isBookmarked, bind. rewrite Hafter. reflexivity. }
  split.
  - rewrite Hquery. f_equal.
    destruct (has_bookmark filtered mangaId) eqn:Hhas; [|reflexivity].
    apply has_bookmark_spec in Hhas.
    apply list_elem_of_fmap in Hhas as (b & Hid & Hb).
    apply list_elem_of_filter in Hb as [Hb _]. congruence.
  - intros other Hother. rewrite Hquery. f_equal.
    destruct (has_bookmark bookmarks other) eqn:Hhas.
    + apply has_bookmark_spec. apply has_bookmark_spec in Hhas.
      apply list_elem_of_fmap in Hhas as (b & Hid & Hb).
      apply list_elem_of_fmap. exists b. split; [exact Hid|].
      apply list_elem_of_filter. split; [congruence | exact Hb].
    + destruct (has_bookmark filtered other) eqn:Hhas'; [|reflexivity].
      apply has_bookmark_spec in Hhas'.
      apply list_elem_of_fmap in Hhas' as (b & Hid & Hb).
      apply list_elem_of_filter in Hb as [_ Hb].
      assert (has_bookmark bookmarks other = true) as Ht.
      { apply has_bookmark_spec. apply list_elem_of_fmap. eauto. }
      congruence.
Qed.

End Bookmarks.

Lemma addBookmark_then_isBookmarked_witness :
  fst (isBookmarked mem_getItem
         (parse_one [mkBookmark manga_one 1000])
         "m1"
         (snd (addBookmark mem_getItem mem_setItem tick
                 (parse_one [mkBookmark manga_one 1000]) say_one
                 manga_one fresh_world)))
  = inr true.
Proof.
  apply (addBookmark_then_isBookmarked
           (parse_one [mkBookmark manga_one 1000]) say_one manga_one
           fresh_world []).
  - reflexivity.
  - reflexivity.
  - discriminate.
Defined.

Lemma removeBookmark_then_not_bookmarked_witness :
  let w := mkWorld {[ KEYS_BOOKMARKS := "stored"%string ]} 0 [] in
  let parse := fun text : string =>
    if String.eqb text "stored"
    then inr [mkBookmark manga_one 5; mkBookmark manga_two 6]
    else if String.eqb text one_text
         then inr [mkBookmark manga_two 6]
         else inl "SyntaxError"%string in
  fst (isBookmarked mem_getItem parse "m1"
         (snd (removeBookmark mem_getItem mem_setItem parse say_one
                 "m1" w)))
  = inr false.
Proof.
  intros w parse.
  apply (removeBookmark_then_not_bookmarked parse say_one "m1" w
           [mkBookmark manga_one 5; mkBookmark manga_two 6]).
  - reflexivity.
  - reflexivity.
  - discriminate.
Defined.

(** *** Settings *)

Lemma spread_all_keys (base a : AppSettings) : spread base (all_keys a) = a.
Proof. destruct a. reflexivity. Qed.

Section SettingsReader.
Context {World exn : Type}.
Variable AsyncStorage_getItem : string -> @io World exn (option string).
Variable parse_settings : string -> exn + PartialSettings.


End SettingsReader.

(** Saved settings are the ones read back.  On a store that keeps what is
    written, and provided the object written parses back with all its
    keys: after [saveSettings] with a partial object, [getSettings]
    returns the previous settings overridden by the keys of that object,
    and saving the same partial object again changes nothing readable. *)
Theorem saved_settings_are_read_back
    (parse : string -> string + PartialSettings)
    (stringify : AppSettings -> string)
    (settings : PartialSettings) (w : world) (current : AppSettings) :
  getSettings mem_getItem parse w = (inr current, w) ->
  let updated := spread current settings in
  parse (stringify updated) = inr (all_keys updated) ->
  stringify updated <> EmptyString ->
  let w1 := snd (saveSettings mem_getItem mem_setItem parse stringify
                   settings w) in
  getSettings mem_getItem parse w1 = (inr updated, w1) /\
  (forall v, p_volumeScrollEnabled settings = Some v ->
             volumeScrollEnabled updated = v) /\
  (p_volumeScrollEnabled settings = None ->
   volumeScrollEnabled updated = volumeScrollEnabled current) /\
  spread updated settings = updated.
Proof.
  intros Hread updated Hcodec Hne w1.
  split; [|split; [|split]].
  - subst w1. unfold saveSettings, bind. rewrite Hread.
    unfold getSettings. rewrite read_json_mem.
    unfold read_back, mem_setItem. simpl. rewrite lookup_insert_eq.
    fold updated.
    destruct (String.eqb_spec (stringify updated) EmptyString) as [|_];
      [contradiction|].
    rewrite Hcodec, spread_all_keys. reflexivity.
  - intros v Hv. subst updated. simpl. rewrite Hv. reflexivity.
  - intros Hv. subst updated. simpl. rewrite Hv. reflexivity.
  - subst updated. destruct settings as [a b c d e f g h].
    destruct a, b, c, d, e, f, g, h; reflexivity.
Qed.

Lemma saved_settings_are_read_back_witness :
  let updated := spread defaultSettings only_volume_off in
  fst (getSettings mem_getItem (parse_one (all_keys updated))
         (snd (saveSettings mem_getItem mem_setItem
                 (parse_one (all_keys updated)) say_one only_volume_off
                 fresh_world)))
  = inr updated /\
  volumeScrollEnabled updated = false /\
  volumeScrollSensitivity updated = 50.
Proof.
  intros updated.
  destruct (saved_settings_are_read_back (parse_one (all_keys updated))
              say_one only_volume_off fresh_world defaultSettings)
    as (Hget & _).
  - reflexivity.
  - reflexivity.
  - discriminate.
  - rewrite Hget. repeat split; reflexivity.
Defined.

End StoreFacts.
